(** * Xception (light_cnns/Inception/Xception.py): a shallow embedding

    The Python file wires tensor operations of the host framework into three
    module classes: [SeparableConv2d], [Block] and [Xception].  The embedding
    keeps that split.

    - The host framework is an interface ([Framework]): tensor values of an
      abstract type, one operation per framework call made by the source,
      each of which may raise.
    - Python objects live in a store of tensor cells.  A module object holds
      the locations of its parameters; [forward] allocates a cell for every
      tensor a framework call returns and overwrites a cell where the source
      works in place ([nn.ReLU(inplace=True)], [x += skip]).
    - Exceptions leave the store as it is at the point of the raise.

    Three instances of the interface are used below: tensor shapes (what the
    framework's shape rules compute), symbolic terms (which operation
    consumes which), and one-element integer tensors. *)

From Stdlib Require Import String.
From Stdlib Require Import ZArith List Bool Lia QArith.
Import ListNotations.
Local Close Scope Q_scope.
Local Open Scope Z_scope.

Set Implicit Arguments.

(** ** Results and exceptions *)

Inductive result (E A : Type) : Type :=
| Ok (a : A)
| Raise (e : E).
Arguments Ok {E A} a.
Arguments Raise {E A} e.

(** An exception is either one the framework raised, or Python's own
    [IndexError] (list indexing in [Block.__init__]). *)
Inductive exn (E : Type) : Type :=
| FrameworkError (e : E)
| IndexError.
Arguments FrameworkError {E} e.
Arguments IndexError {E}.

(** ** The host framework *)

(** [T] is the type of tensor values, [E] the type of the framework's
    exceptions.  Argument order follows the [torch.nn.functional] calls. *)
Class Framework (T E : Type) : Type := {
  (* parameter creation, as done by the layer constructors *)
  conv_weight : Z -> Z -> Z -> Z -> result E T;  (* in, out, kernel, groups *)
  conv_bias : Z -> result E T;                   (* out *)
  bn_weight : Z -> result E T;
  bn_bias : Z -> result E T;
  linear_weight : Z -> Z -> result E T;          (* in, out *)
  linear_bias : Z -> result E T;
  (* in-place initialisers *)
  kaiming_normal_ : T -> T;
  fill_ : Z -> T -> T;
  zero_ : T -> T;
  (* functional operations *)
  conv2d : T -> T -> option T -> Z -> Z -> Z -> Z -> result E T;
      (* input, weight, bias, stride, padding, dilation, groups *)
  batch_norm : T -> T -> T -> bool -> result E T;
      (* input, weight, bias, training *)
  relu : T -> result E T;
  max_pool2d : T -> Z -> Z -> Z -> result E T;  (* input, kernel, stride, padding *)
  add_ : T -> T -> result E T;                   (* value of self after self += other *)
  avg_pool2d : T -> Z -> result E T;             (* input, kernel_size *)
  dropout : T -> Q -> bool -> result E T;        (* input, p, training *)
  size : T -> nat -> result E Z;                 (* x.shape[i], x.size(i) *)
  view : T -> list Z -> result E T;
  linear : T -> T -> T -> result E T             (* input, weight, bias *)
}.

(** ** The store and the monad of the embedding *)

Definition loc := nat.

Record Store (T : Type) : Type := mkStore {
  next : loc;           (* first location never allocated *)
  mem : loc -> T
}.

Definition upd {T : Type} (m : loc -> T) (l : loc) (v : T) : loc -> T :=
  fun l' => if Nat.eqb l' l then v else m l'.

Definition M (T E A : Type) : Type :=
  Store T -> result (exn E) A * Store T.

Section Monad.
Context {T E : Type}.

Definition ret {A} (a : A) : M T E A := fun s => (Ok a, s).

Definition bind {A B} (c : M T E A) (k : A -> M T E B) : M T E B :=
  fun s => match c s with
           | (Ok a, s') => k a s'
           | (Raise e, s') => (Raise e, s')
           end.

Definition raise {A} (e : exn E) : M T E A := fun s => (Raise e, s).

(** A framework call: its exception, if any, is raised as it is. *)
Definition call {A} (r : result E A) : M T E A :=
  match r with
  | Ok a => ret a
  | Raise e => raise (FrameworkError e)
  end.

Definition read (l : loc) : M T E T := fun s => (Ok (mem s l), s).

Definition write (l : loc) (v : T) : M T E unit :=
  fun s => (Ok tt, mkStore (next s) (upd (mem s) l v)).

Definition alloc (v : T) : M T E loc :=
  fun s => (Ok (next s), mkStore (S (next s)) (upd (mem s) (next s) v)).
End Monad.

Notation "x <- c1 ;; c2" := (bind c1 (fun x => c2))
  (at level 61, c1 at next level, right associativity).
Notation "c1 ;; c2" := (bind c1 (fun _ => c2))
  (at level 61, right associativity).

(** Pure counterpart of [bind] on framework results. *)
Definition rbind {E A B} (r : result E A) (k : A -> result E B) : result E B :=
  match r with
  | Ok a => k a
  | Raise e => Raise e
  end.

Notation "x <~ r1 ;; r2" := (rbind r1 (fun x => r2))
  (at level 61, r1 at next level, right associativity).

(** Python's [range(n)]: empty for [n <= 0]. *)
Definition range (n : Z) : list Z := map Z.of_nat (seq 0 (Z.to_nat n)).

(** ** Framework layers used by the source

    [nn.Conv2d], [nn.BatchNorm2d], [nn.ReLU], [nn.MaxPool2d] and [nn.Linear]
    are framework classes.  Each is modelled by the attributes the source
    sets and by a [forward] that reads its parameters, makes the functional
    call and returns a new tensor (or, for an in-place ReLU, its argument). *)

Module Conv2d.
Record t : Type := mk {
  in_channels : Z;
  out_channels : Z;
  kernel_size : Z;
  stride : Z;
  padding : Z;
  dilation : Z;
  groups : Z;
  weight : loc;
  bias : option loc
}.

Section WithFramework.
Context {T E : Type} {F : Framework T E}.

(** [nn.Conv2d(in, out, kernel_size, stride=1, padding=0, dilation=1,
    groups=1, bias=True)]; every default is written out at the calls. *)
Definition init (in_channels out_channels kernel_size stride padding
                 dilation groups : Z) (bias : bool) : M T E t :=
  w <- call (conv_weight in_channels out_channels kernel_size groups) ;;
  lw <- alloc w ;;
  lb <- (if bias
         then b <- call (conv_bias out_channels) ;;
              l <- alloc b ;; ret (Some l)
         else ret None) ;;
  ret (mk in_channels out_channels kernel_size stride padding dilation
          groups lw lb).

(** The value a convolution computes, with parameters read from [m]. *)
Definition eval (m : loc -> T) (self : t) (v : T) : result E T :=
  conv2d v (m (weight self)) (option_map m (bias self))
         (stride self) (padding self) (dilation self) (groups self).

Definition forward (self : t) (x : loc) : M T E loc :=
  v <- read x ;;
  w <- read (weight self) ;;
  b <- match bias self with
       | Some l => b <- read l ;; ret (Some b)
       | None => ret None
       end ;;
  r <- call (conv2d v w b (stride self) (padding self) (dilation self)
                    (groups self)) ;;
  alloc r.
End WithFramework.

Definition parameters (self : t) : list loc :=
  weight self :: match bias self with Some l => [l] | None => [] end.
End Conv2d.

Module BatchNorm2d.
Record t : Type := mk {
  num_features : Z;
  weight : loc;
  bias : loc;
  training : bool
}.

Section WithFramework.
Context {T E : Type} {F : Framework T E}.

(** [nn.BatchNorm2d(num_features)]; a new module is in training mode.
    The cells of a module are its parameters, [weight] and [bias].  The
    statistics the framework keeps beside them ([running_mean],
    [running_var], [num_batches_tracked]) and updates inside
    [F.batch_norm] in training mode are no parameters and are not cells of
    the store: what is stated below about the store is stated about
    parameters, inputs and the tensors computed from them. *)
Definition init (num_features : Z) : M T E t :=
  w <- call (bn_weight num_features) ;;
  lw <- alloc w ;;
  b <- call (bn_bias num_features) ;;
  lb <- alloc b ;;
  ret (mk num_features lw lb true).

Definition eval (m : loc -> T) (self : t) (v : T) : result E T :=
  batch_norm v (m (weight self)) (m (bias self)) (training self).

Definition forward (self : t) (x : loc) : M T E loc :=
  v <- read x ;;
  w <- read (weight self) ;;
  b <- read (bias self) ;;
  r <- call (batch_norm v w b (training self)) ;;
  alloc r.
End WithFramework.

Definition parameters (self : t) : list loc := [weight self; bias self].

(** [nn.Module.train(mode)] *)
Definition train (mode : bool) (self : t) : t :=
  mk (num_features self) (weight self) (bias self) mode.
End BatchNorm2d.

Module ReLU.
Record t : Type := mk { inplace : bool }.

Section WithFramework.
Context {T E : Type} {F : Framework T E}.

Definition eval (self : t) (v : T) : result E T := relu v.

(** With [inplace=True] the argument's cell is overwritten and the
    argument is returned. *)
Definition forward (self : t) (x : loc) : M T E loc :=
  v <- read x ;;
  r <- call (relu v) ;;
  if inplace self then write x r ;; ret x else alloc r.
End WithFramework.
End ReLU.

Module MaxPool2d.
Record t : Type := mk { kernel_size : Z; stride : Z; padding : Z }.

Section WithFramework.
Context {T E : Type} {F : Framework T E}.

Definition eval (self : t) (v : T) : result E T :=
  max_pool2d v (kernel_size self) (stride self) (padding self).

Definition forward (self : t) (x : loc) : M T E loc :=
  v <- read x ;;
  r <- call (max_pool2d v (kernel_size self) (stride self) (padding self)) ;;
  alloc r.
End WithFramework.
End MaxPool2d.

Module Linear.
Record t : Type := mk {
  in_features : Z;
  out_features : Z;
  weight : loc;
  bias : loc
}.

Section WithFramework.
Context {T E : Type} {F : Framework T E}.

(** [nn.Linear(in_features, out_features)] *)
Definition init (in_features out_features : Z) : M T E t :=
  w <- call (linear_weight in_features out_features) ;;
  lw <- alloc w ;;
  b <- call (linear_bias out_features) ;;
  lb <- alloc b ;;
  ret (mk in_features out_features lw lb).

Definition eval (m : loc -> T) (self : t) (v : T) : result E T :=
  linear v (m (weight self)) (m (bias self)).

Definition forward (self : t) (x : loc) : M T E loc :=
  v <- read x ;;
  w <- read (weight self) ;;
  b <- read (bias self) ;;
  r <- call (linear v w b) ;;
  alloc r.
End WithFramework.

Definition parameters (self : t) : list loc := [weight self; bias self].
End Linear.

(** What the weight-initialisation loop of [Xception.__init__] tells apart
    when it walks [self.modules()]. *)
Inductive module_obj : Type :=
| AConv2d (m : Conv2d.t)
| ABatchNorm2d (m : BatchNorm2d.t)
| AOther.

(** ** class SeparableConv2d *)

Module SeparableConv2d.
Record t : Type := mk {
  conv1 : Conv2d.t;
  pointwise : Conv2d.t
}.

Section WithFramework.
Context {T E : Type} {F : Framework T E}.

(** [__init__(self, in_channels, out_channels, kernel_size=1, stride=1,
    padding=0, dilation=1)] *)
Definition init (in_channels out_channels kernel_size stride padding
                 dilation : Z) : M T E t :=
  conv1 <- Conv2d.init in_channels in_channels kernel_size stride padding
                       dilation in_channels false ;;
  pointwise <- Conv2d.init in_channels out_channels 1 1 0 1 1 false ;;
  ret (mk conv1 pointwise).

Definition forward (self : t) (x : loc) : M T E loc :=
  x <- Conv2d.forward (conv1 self) x ;;
  x <- Conv2d.forward (pointwise self) x ;;
  ret x.

Definition eval (m : loc -> T) (self : t) (v : T) : result E T :=
  v1 <~ Conv2d.eval m (conv1 self) v ;;
  Conv2d.eval m (pointwise self) v1.
End WithFramework.

Definition parameters (self : t) : list loc :=
  Conv2d.parameters (conv1 self) ++ Conv2d.parameters (pointwise self).

Definition modules (self : t) : list module_obj :=
  [AOther; AConv2d (conv1 self); AConv2d (pointwise self)].
End SeparableConv2d.

(** ** nn.Sequential over the layers a [Block] puts in [rep] *)

Module Sequential.
Inductive item : Type :=
| OfReLU (m : ReLU.t)
| OfSeparableConv2d (m : SeparableConv2d.t)
| OfBatchNorm2d (m : BatchNorm2d.t)
| OfMaxPool2d (m : MaxPool2d.t).

Definition t : Type := list item.

Section WithFramework.
Context {T E : Type} {F : Framework T E}.

Definition item_forward (i : item) (x : loc) : M T E loc :=
  match i with
  | OfReLU m => ReLU.forward m x
  | OfSeparableConv2d m => SeparableConv2d.forward m x
  | OfBatchNorm2d m => BatchNorm2d.forward m x
  | OfMaxPool2d m => MaxPool2d.forward m x
  end.

(** Each module is applied to the result of the one before; an empty
    [Sequential] returns its argument, the same object. *)
Fixpoint forward (self : t) (x : loc) : M T E loc :=
  match self with
  | [] => ret x
  | i :: rest => y <- item_forward i x ;; forward rest y
  end.

Definition item_eval (m : loc -> T) (i : item) (v : T) : result E T :=
  match i with
  | OfReLU r => ReLU.eval r v
  | OfSeparableConv2d s => SeparableConv2d.eval m s v
  | OfBatchNorm2d b => BatchNorm2d.eval m b v
  | OfMaxPool2d p => MaxPool2d.eval p v
  end.

Fixpoint eval (m : loc -> T) (self : t) (v : T) : result E T :=
  match self with
  | [] => Ok v
  | i :: rest => w <~ item_eval m i v ;; eval m rest w
  end.
End WithFramework.

Definition item_parameters (i : item) : list loc :=
  match i with
  | OfSeparableConv2d m => SeparableConv2d.parameters m
  | OfBatchNorm2d m => BatchNorm2d.parameters m
  | OfReLU _ | OfMaxPool2d _ => []
  end.

Definition parameters (self : t) : list loc := flat_map item_parameters self.

Definition item_modules (i : item) : list module_obj :=
  match i with
  | OfSeparableConv2d m => SeparableConv2d.modules m
  | OfBatchNorm2d m => [ABatchNorm2d m]
  | OfReLU _ | OfMaxPool2d _ => [AOther]
  end.

Definition modules (self : t) : list module_obj :=
  AOther :: flat_map item_modules self.

Definition item_train (mode : bool) (i : item) : item :=
  match i with
  | OfBatchNorm2d m => OfBatchNorm2d (BatchNorm2d.train mode m)
  | _ => i
  end.

Definition train (mode : bool) (self : t) : t := map (item_train mode) self.
End Sequential.

(** ** class Block *)

Module Block.
(** [skip] holds [self.skip] together with [self.skipbn]: the constructor
    sets both or sets [self.skip = None]. *)
Record t : Type := mk {
  skip : option (Conv2d.t * BatchNorm2d.t);
  rep : Sequential.t
}.

Section WithFramework.
Context {T E : Type} {F : Framework T E}.

(** The body of [for i in range(reps)], threading the list [rep]. *)
Fixpoint rep_loop (in_channels out_channels reps : Z) (grow_first : bool)
         (idx : list Z) (rep : Sequential.t) : M T E Sequential.t :=
  match idx with
  | [] => ret rep
  | i :: idx' =>
      let inc := if grow_first
                 then (if i =? 0 then in_channels else out_channels)
                 else in_channels in
      let outc := if grow_first
                  then out_channels
                  else (if i <? reps - 1 then in_channels else out_channels) in
      sep <- SeparableConv2d.init inc outc 3 1 1 1 ;;
      bn <- BatchNorm2d.init outc ;;
      rep_loop in_channels out_channels reps grow_first idx'
               (rep ++ [Sequential.OfReLU (ReLU.mk true);
                        Sequential.OfSeparableConv2d sep;
                        Sequential.OfBatchNorm2d bn])
  end.

(** [__init__(self, in_channels, out_channels, reps, strides=1,
    start_with_relu=True, grow_first=True)] *)
Definition init (in_channels out_channels reps strides : Z)
           (start_with_relu grow_first : bool) : M T E t :=
  skip <- (if negb (out_channels =? in_channels) || negb (strides =? 1)
           then c <- Conv2d.init in_channels out_channels 1 strides 0 1 1
                                 false ;;
                b <- BatchNorm2d.init out_channels ;;
                ret (Some (c, b))
           else ret None) ;;
  rep <- rep_loop in_channels out_channels reps grow_first (range reps) [] ;;
  rep <- (if negb start_with_relu
          then ret (tl rep)                               (* rep[1:] *)
          else match rep with                             (* rep[0] = ... *)
               | [] => raise IndexError
               | _ :: rest => ret (Sequential.OfReLU (ReLU.mk false) :: rest)
               end) ;;
  let rep := if negb (strides =? 1)
             then rep ++ [Sequential.OfMaxPool2d (MaxPool2d.mk 3 strides 1)]
             else rep in
  ret (mk skip rep).

(** [x += skip]: the cell of [x] is overwritten. *)
Definition iadd (x other : loc) : M T E unit :=
  vx <- read x ;;
  vo <- read other ;;
  r <- call (add_ vx vo) ;;
  write x r.

Definition forward (self : t) (inp : loc) : M T E loc :=
  x <- Sequential.forward (rep self) inp ;;
  skip <- match skip self with
          | Some (conv, bn) =>
              s <- Conv2d.forward conv inp ;;
              BatchNorm2d.forward bn s
          | None => ret inp
          end ;;
  iadd x skip ;;
  ret x.

(** The value of the skip branch on an input of value [v]. *)
Definition skip_eval (m : loc -> T) (self : t) (v : T) : result E T :=
  match skip self with
  | Some (conv, bn) => s <~ Conv2d.eval m conv v ;; BatchNorm2d.eval m bn s
  | None => Ok v
  end.

Definition eval (m : loc -> T) (self : t) (v : T) : result E T :=
  x <~ Sequential.eval m (rep self) v ;;
  s <~ skip_eval m self v ;;
  add_ x s.
End WithFramework.

Definition skip_parameters (self : t) : list loc :=
  match skip self with
  | Some (conv, bn) => Conv2d.parameters conv ++ BatchNorm2d.parameters bn
  | None => []
  end.

Definition parameters (self : t) : list loc :=
  skip_parameters self ++ Sequential.parameters (rep self).

Definition modules (self : t) : list module_obj :=
  AOther ::
  match skip self with
  | Some (conv, bn) => [AConv2d conv; ABatchNorm2d bn]
  | None => []
  end ++ Sequential.modules (rep self).

Definition train (mode : bool) (self : t) : t :=
  mk match skip self with
     | Some (conv, bn) => Some (conv, BatchNorm2d.train mode bn)
     | None => None
     end
     (Sequential.train mode (rep self)).
End Block.

(** ** class Xception *)

Module Xception.
Record t : Type := mk {
  drop_rate : Q;
  global_pool : String.string;
  num_classes : Z;
  num_features : Z;
  training : bool;
  conv1 : Conv2d.t;
  bn1 : BatchNorm2d.t;
  act1 : ReLU.t;
  conv2 : Conv2d.t;
  bn2 : BatchNorm2d.t;
  act2 : ReLU.t;
  block1 : Block.t;
  block2 : Block.t;
  block3 : Block.t;
  block4 : Block.t;
  block5 : Block.t;
  block6 : Block.t;
  block7 : Block.t;
  block8 : Block.t;
  block9 : Block.t;
  block10 : Block.t;
  block11 : Block.t;
  block12 : Block.t;
  conv3 : SeparableConv2d.t;
  bn3 : BatchNorm2d.t;
  act3 : ReLU.t;
  conv4 : SeparableConv2d.t;
  bn4 : BatchNorm2d.t;
  act4 : ReLU.t;
  fc : Linear.t
}.

(** [self.modules()], in registration order. *)
Definition modules (self : t) : list module_obj :=
  AOther ::
  [AConv2d (conv1 self); ABatchNorm2d (bn1 self); AOther;
   AConv2d (conv2 self); ABatchNorm2d (bn2 self); AOther] ++
  Block.modules (block1 self) ++ Block.modules (block2 self) ++
  Block.modules (block3 self) ++ Block.modules (block4 self) ++
  Block.modules (block5 self) ++ Block.modules (block6 self) ++
  Block.modules (block7 self) ++ Block.modules (block8 self) ++
  Block.modules (block9 self) ++ Block.modules (block10 self) ++
  Block.modules (block11 self) ++ Block.modules (block12 self) ++
  SeparableConv2d.modules (conv3 self) ++ [ABatchNorm2d (bn3 self); AOther] ++
  SeparableConv2d.modules (conv4 self) ++ [ABatchNorm2d (bn4 self); AOther] ++
  [AOther].

Definition blocks (self : t) : list Block.t :=
  [block1 self; block2 self; block3 self; block4 self; block5 self;
   block6 self; block7 self; block8 self; block9 self; block10 self;
   block11 self; block12 self].

Definition parameters (self : t) : list loc :=
  Conv2d.parameters (conv1 self) ++ BatchNorm2d.parameters (bn1 self) ++
  Conv2d.parameters (conv2 self) ++ BatchNorm2d.parameters (bn2 self) ++
  flat_map Block.parameters (blocks self) ++
  SeparableConv2d.parameters (conv3 self) ++
  BatchNorm2d.parameters (bn3 self) ++
  SeparableConv2d.parameters (conv4 self) ++
  BatchNorm2d.parameters (bn4 self) ++
  Linear.parameters (fc self).

Section WithFramework.
Context {T E : Type} {F : Framework T E}.

(** One step of the loop under "init weights". *)
Definition init_module (m : module_obj) : M T E unit :=
  match m with
  | AConv2d c =>
      w <- read (Conv2d.weight c) ;;
      write (Conv2d.weight c) (kaiming_normal_ w)
  | ABatchNorm2d b =>
      w <- read (BatchNorm2d.weight b) ;;
      write (BatchNorm2d.weight b) (fill_ 1 w) ;;
      z <- read (BatchNorm2d.bias b) ;;
      write (BatchNorm2d.bias b) (zero_ z)
  | AOther => ret tt
  end.

Fixpoint init_weights (ms : list module_obj) : M T E unit :=
  match ms with
  | [] => ret tt
  | m :: rest => init_module m ;; init_weights rest
  end.

(** [__init__(self, num_classes=1000, in_chans=3, drop_rate=0.,
    global_pool='avg')] *)
Definition init (num_classes in_chans : Z) (drop_rate : Q)
           (global_pool : String.string) : M T E t :=
  let num_features := 2048 in
  conv1 <- Conv2d.init in_chans 32 3 2 0 1 1 false ;;
  bn1 <- BatchNorm2d.init 32 ;;
  let act1 := ReLU.mk true in
  conv2 <- Conv2d.init 32 64 3 1 0 1 1 false ;;
  bn2 <- BatchNorm2d.init 64 ;;
  let act2 := ReLU.mk true in
  block1 <- Block.init 64 128 2 2 false true ;;
  block2 <- Block.init 128 256 2 2 true true ;;
  block3 <- Block.init 256 728 2 2 true true ;;
  block4 <- Block.init 728 728 3 1 true true ;;
  block5 <- Block.init 728 728 3 1 true true ;;
  block6 <- Block.init 728 728 3 1 true true ;;
  block7 <- Block.init 728 728 3 1 true true ;;
  block8 <- Block.init 728 728 3 1 true true ;;
  block9 <- Block.init 728 728 3 1 true true ;;
  block10 <- Block.init 728 728 3 1 true true ;;
  block11 <- Block.init 728 728 3 1 true true ;;
  block12 <- Block.init 728 1024 2 2 true false ;;
  conv3 <- SeparableConv2d.init 1024 1536 3 1 1 1 ;;
  bn3 <- BatchNorm2d.init 1536 ;;
  let act3 := ReLU.mk true in
  conv4 <- SeparableConv2d.init 1536 num_features 3 1 1 1 ;;
  bn4 <- BatchNorm2d.init num_features ;;
  let act4 := ReLU.mk true in
  fc <- Linear.init num_features num_classes ;;
  let self :=
    mk drop_rate global_pool num_classes num_features true
       conv1 bn1 act1 conv2 bn2 act2
       block1 block2 block3 block4 block5 block6
       block7 block8 block9 block10 block11 block12
       conv3 bn3 act3 conv4 bn4 act4 fc in
  init_weights (modules self) ;;
  ret self.

Definition forward_features (self : t) (x : loc) : M T E loc :=
  x <- Conv2d.forward (conv1 self) x ;;
  x <- BatchNorm2d.forward (bn1 self) x ;;
  x <- ReLU.forward (act1 self) x ;;

  x <- Conv2d.forward (conv2 self) x ;;
  x <- BatchNorm2d.forward (bn2 self) x ;;
  x <- ReLU.forward (act2 self) x ;;

  x <- Block.forward (block1 self) x ;;
  x <- Block.forward (block2 self) x ;;
  x <- Block.forward (block3 self) x ;;
  x <- Block.forward (block4 self) x ;;
  x <- Block.forward (block5 self) x ;;
  x <- Block.forward (block6 self) x ;;
  x <- Block.forward (block7 self) x ;;
  x <- Block.forward (block8 self) x ;;
  x <- Block.forward (block9 self) x ;;
  x <- Block.forward (block10 self) x ;;
  x <- Block.forward (block11 self) x ;;
  x <- Block.forward (block12 self) x ;;

  x <- SeparableConv2d.forward (conv3 self) x ;;
  x <- BatchNorm2d.forward (bn3 self) x ;;
  x <- ReLU.forward (act3 self) x ;;

  x <- SeparableConv2d.forward (conv4 self) x ;;
  x <- BatchNorm2d.forward (bn4 self) x ;;
  x <- ReLU.forward (act4 self) x ;;
  ret x.

(** A functional call [F.op(x, ...)]: the result is a new tensor. *)
Definition functional (op : T -> result E T) (x : loc) : M T E loc :=
  v <- read x ;;
  r <- call (op v) ;;
  alloc r.

Definition forward (self : t) (x : loc) : M T E loc :=
  x <- forward_features self x ;;
  v <- read x ;;
  adaptiveAvgPoolWidth <- call (size v 2) ;;
  x <- functional (fun v => avg_pool2d v adaptiveAvgPoolWidth) x ;;
  x <- (if negb (Qle_bool (drop_rate self) 0)            (* drop_rate > 0 *)
        then functional
               (fun v => dropout v (drop_rate self) (training self)) x
        else ret x) ;;
  v <- read x ;;
  n <- call (size v 0) ;;
  x <- functional (fun v => view v [n; -1]) x ;;
  x <- Linear.forward (fc self) x ;;
  ret x.

(** The values [forward_features] and [forward] compute, with
    parameters read from [m]. *)
Definition features_eval (m : loc -> T) (self : t) (v : T) : result E T :=
  v <~ Conv2d.eval m (conv1 self) v ;;
  v <~ BatchNorm2d.eval m (bn1 self) v ;;
  v <~ ReLU.eval (act1 self) v ;;
  v <~ Conv2d.eval m (conv2 self) v ;;
  v <~ BatchNorm2d.eval m (bn2 self) v ;;
  v <~ ReLU.eval (act2 self) v ;;
  v <~ Block.eval m (block1 self) v ;;
  v <~ Block.eval m (block2 self) v ;;
  v <~ Block.eval m (block3 self) v ;;
  v <~ Block.eval m (block4 self) v ;;
  v <~ Block.eval m (block5 self) v ;;
  v <~ Block.eval m (block6 self) v ;;
  v <~ Block.eval m (block7 self) v ;;
  v <~ Block.eval m (block8 self) v ;;
  v <~ Block.eval m (block9 self) v ;;
  v <~ Block.eval m (block10 self) v ;;
  v <~ Block.eval m (block11 self) v ;;
  v <~ Block.eval m (block12 self) v ;;
  v <~ SeparableConv2d.eval m (conv3 self) v ;;
  v <~ BatchNorm2d.eval m (bn3 self) v ;;
  v <~ ReLU.eval (act3 self) v ;;
  v <~ SeparableConv2d.eval m (conv4 self) v ;;
  v <~ BatchNorm2d.eval m (bn4 self) v ;;
  ReLU.eval (act4 self) v.

(** Pooling, optional dropout, flattening and the classifier. *)
Definition head_eval (m : loc -> T) (self : t) (v : T) : result E T :=
  k <~ size v 2 ;;
  v <~ avg_pool2d v k ;;
  v <~ (if negb (Qle_bool (drop_rate self) 0)
        then dropout v (drop_rate self) (training self)
        else Ok v) ;;
  n <~ size v 0 ;;
  v <~ view v [n; -1] ;;
  Linear.eval m (fc self) v.

Definition eval (m : loc -> T) (self : t) (v : T) : result E T :=
  v <~ features_eval m self v ;;
  head_eval m self v.
End WithFramework.

(** [nn.Module.train(mode)]: the flag of the module and of every child. *)
Definition train (mode : bool) (self : t) : t :=
  mk (drop_rate self) (global_pool self) (num_classes self)
     (num_features self) mode
     (conv1 self) (BatchNorm2d.train mode (bn1 self)) (act1 self)
     (conv2 self) (BatchNorm2d.train mode (bn2 self)) (act2 self)
     (Block.train mode (block1 self)) (Block.train mode (block2 self))
     (Block.train mode (block3 self)) (Block.train mode (block4 self))
     (Block.train mode (block5 self)) (Block.train mode (block6 self))
     (Block.train mode (block7 self)) (Block.train mode (block8 self))
     (Block.train mode (block9 self)) (Block.train mode (block10 self))
     (Block.train mode (block11 self)) (Block.train mode (block12 self))
     (conv3 self) (BatchNorm2d.train mode (bn3 self)) (act3 self)
     (conv4 self) (BatchNorm2d.train mode (bn4 self)) (act4 self)
     (fc self).
End Xception.

(** [def xception(): return Xception()] *)
Definition xception {T E : Type} {F : Framework T E} : M T E Xception.t :=
  Xception.init 1000 3 0%Q "avg"%string.

(** ** Instance 1: tensor shapes

    A tensor is abstracted to its shape (what [x.shape] returns) and every
    operation to the framework's shape rule for batched NCHW tensors: the
    output-size formulas of convolution and pooling, the channel and
    feature-count checks, broadcasting of an in-place addition onto its
    target.  What the rule rejects raises.  Extents are integers: neither
    the 64-bit range of a size nor the memory a tensor needs is part of the
    rule for creating one, and inputs that are not batched (three
    dimensions) are refused. *)

Module Shape.
Definition t : Type := list Z.

Inductive error : Type :=
| ValueError       (* a constructor or call argument is out of range *)
| RuntimeError     (* the shapes of the operands do not fit *)
| DimError.        (* indexing a shape out of range *)

Definition numel (s : t) : Z := fold_right Z.mul 1 s.

(** output extent of a convolution window sweep *)
Definition conv_out (h k s p d : Z) : Z := (h + 2 * p - d * (k - 1) - 1) / s + 1.

(** output extent of a pooling window sweep (no dilation, floor mode) *)
Definition pool_out (h k s p : Z) : Z := (h + 2 * p - k) / s + 1.

Definition new_tensor (s : t) : result error t :=
  if forallb (fun d => 0 <=? d) s then Ok s else Raise RuntimeError.

Definition conv_weight (i o k g : Z) : result error t :=
  if g <=? 0 then Raise ValueError
  else if negb (i mod g =? 0) then Raise ValueError
  else if negb (o mod g =? 0) then Raise ValueError
  else new_tensor [o; i / g; k; k].

Definition conv2d (x w : t) (b : option t) (s p d g : Z) : result error t :=
  match x, w with
  | [n; c; h; wd], [o; cg; kh; kw] =>
      if (s <=? 0) || (p <? 0) || (d <=? 0) || (g <=? 0) then Raise RuntimeError
      else if (kh <=? 0) || (kw <=? 0) then Raise RuntimeError
      else if negb (c =? cg * g) then Raise RuntimeError
      else if negb (match b with Some [o'] => o' =? o | Some _ => false | None => true end)
           then Raise RuntimeError
      else if (h + 2 * p <? d * (kh - 1) + 1) || (wd + 2 * p <? d * (kw - 1) + 1)
           then Raise RuntimeError
      else Ok [n; o; conv_out h kh s p d; conv_out wd kw s p d]
  | _, _ => Raise RuntimeError
  end.

Definition batch_norm (x w b : t) (training : bool) : result error t :=
  match x, w, b with
  | [n; c; h; wd], [cw], [cb] =>
      if negb ((c =? cw) && (c =? cb)) then Raise RuntimeError
      else if training && (n * h * wd =? 1) then Raise ValueError
      else Ok x
  | _, _, _ => Raise ValueError
  end.

Definition max_pool2d (x : t) (k s p : Z) : result error t :=
  match x with
  | [n; c; h; wd] =>
      if (k <=? 0) || (s <=? 0) || (p <? 0) || (k / 2 <? p) then Raise RuntimeError
      else if (pool_out h k s p <? 1) || (pool_out wd k s p <? 1)
           then Raise RuntimeError
      else Ok [n; c; pool_out h k s p; pool_out wd k s p]
  | _ => Raise RuntimeError
  end.

(** [F.avg_pool2d(x, kernel_size=k)]: the stride defaults to the kernel,
    no padding. *)
Definition avg_pool2d (x : t) (k : Z) : result error t :=
  match x with
  | [n; c; h; wd] =>
      if k <=? 0 then Raise RuntimeError
      else if (pool_out h k k 0 <? 1) || (pool_out wd k k 0 <? 1)
           then Raise RuntimeError
      else Ok [n; c; pool_out h k k 0; pool_out wd k k 0]
  | _ => Raise RuntimeError
  end.

(** [other] broadcasts onto [self], dimensions aligned from the right. *)
Fixpoint broadcasts_onto (other self : list Z) : bool :=
  match other, self with
  | [], _ => true
  | _ :: _, [] => false
  | a :: other', b :: self' => ((a =? 1) || (a =? b)) && broadcasts_onto other' self'
  end.

Definition add_ (self other : t) : result error t :=
  if broadcasts_onto (rev other) (rev self) then Ok self else Raise RuntimeError.

Definition dropout (x : t) (p : Q) (training : bool) : result error t :=
  if Qle_bool 0 p && Qle_bool p 1 then Ok x else Raise ValueError.

Definition size (x : t) (i : nat) : result error Z :=
  match nth_error x i with
  | Some d => Ok d
  | None => Raise DimError
  end.

(** [x.view(shape)], where one entry of [shape] may be [-1]. *)
Definition view (x : t) (shape : list Z) : result error t :=
  let known := filter (fun d => negb (d =? -1)) shape in
  let holes := (length shape - length known)%nat in
  if negb (forallb (fun d => 0 <=? d) known) then Raise RuntimeError
  else match holes with
       | O => if numel shape =? numel x then Ok shape else Raise RuntimeError
       | S O =>
           if numel known =? 0 then Raise RuntimeError
           else if numel x mod numel known =? 0
                then Ok (map (fun d => if d =? -1 then numel x / numel known else d)
                             shape)
                else Raise RuntimeError
       | _ => Raise RuntimeError
       end.

Definition linear (x w b : t) : result error t :=
  match w, b, rev x with
  | [o; i], [ob], last :: front =>
      if (last =? i) && (ob =? o) then Ok (rev (o :: front))
      else Raise RuntimeError
  | _, _, _ => Raise RuntimeError
  end.

(** The store before anything is allocated. *)
Definition empty : Store t := mkStore O (fun _ => []).
End Shape.

#[export] Instance Shape_framework : Framework Shape.t Shape.error := {|
  conv_weight := Shape.conv_weight;
  conv_bias := fun o => Shape.new_tensor [o];
  bn_weight := fun n => Shape.new_tensor [n];
  bn_bias := fun n => Shape.new_tensor [n];
  linear_weight := fun i o => Shape.new_tensor [o; i];
  linear_bias := fun o => Shape.new_tensor [o];
  kaiming_normal_ := fun w => w;
  fill_ := fun _ w => w;
  zero_ := fun w => w;
  conv2d := Shape.conv2d;
  batch_norm := Shape.batch_norm;
  relu := fun x => Ok x;
  max_pool2d := Shape.max_pool2d;
  add_ := Shape.add_;
  avg_pool2d := Shape.avg_pool2d;
  dropout := Shape.dropout;
  size := Shape.size;
  view := Shape.view;
  linear := Shape.linear
|}.

(** ** Instance 2: symbolic terms

    A tensor is the expression that computed it, so that the result of a
    forward pass records which operation consumed the output of which.
    Nothing raises, except [size]: an expression has no extents. *)

Module Term.
Inductive t : Type :=
| Var (l : loc)                 (* the tensor a cell holds at the start *)
| New (shape : list Z)          (* a freshly created parameter *)
| KaimingNormal (w : t)
| Fill (c : Z) (w : t)
| Zero (w : t)
| NoBias                        (* [bias=None] of a convolution *)
| Conv2dOp (x w b : t) (s p d g : Z)
| BatchNormOp (x w b : t) (training : bool)
| ReluOp (x : t)
| MaxPoolOp (x : t) (k s p : Z)
| AddOp (x other : t)
| AvgPoolOp (x : t) (k : Z)
| DropoutOp (x : t) (p : Q) (training : bool)
| ViewOp (x : t) (shape : list Z)
| LinearOp (x w b : t).

Definition is_conv (e : t) : bool :=
  match e with Conv2dOp _ _ _ _ _ _ _ => true | _ => false end.

Definition is_bn (e : t) : bool :=
  match e with BatchNormOp _ _ _ _ => true | _ => false end.

(** Every batch normalisation in [e] reads the output of a convolution,
    and whatever reads the output of a batch normalisation is a ReLU. *)
Fixpoint bn_between_conv_and_relu (e : t) : bool :=
  match e with
  | BatchNormOp x _ _ _ => is_conv x && bn_between_conv_and_relu x
  | ReluOp x => bn_between_conv_and_relu x
  | Conv2dOp x _ _ _ _ _ _ | MaxPoolOp x _ _ _ | AvgPoolOp x _
  | DropoutOp x _ _ | ViewOp x _ | LinearOp x _ _ =>
      negb (is_bn x) && bn_between_conv_and_relu x
  | AddOp x y =>
      negb (is_bn x) && negb (is_bn y) &&
      bn_between_conv_and_relu x && bn_between_conv_and_relu y
  | Var _ | New _ | KaimingNormal _ | Fill _ _ | Zero _ | NoBias => true
  end.

(** A cell [l] starts out holding [Var l]. *)
Definition empty : Store t := mkStore O Var.
End Term.

#[export] Instance Term_framework : Framework Term.t unit := {|
  conv_weight := fun i o k g => Ok (Term.New [o; i / g; k; k]);
  conv_bias := fun o => Ok (Term.New [o]);
  bn_weight := fun n => Ok (Term.New [n]);
  bn_bias := fun n => Ok (Term.New [n]);
  linear_weight := fun i o => Ok (Term.New [o; i]);
  linear_bias := fun o => Ok (Term.New [o]);
  kaiming_normal_ := Term.KaimingNormal;
  fill_ := Term.Fill;
  zero_ := Term.Zero;
  conv2d := fun x w b s p d g =>
    Ok (Term.Conv2dOp x w (match b with Some b => b | None => Term.NoBias end)
                      s p d g);
  batch_norm := fun x w b tr => Ok (Term.BatchNormOp x w b tr);
  relu := fun x => Ok (Term.ReluOp x);
  max_pool2d := fun x k s p => Ok (Term.MaxPoolOp x k s p);
  add_ := fun x y => Ok (Term.AddOp x y);
  avg_pool2d := fun x k => Ok (Term.AvgPoolOp x k);
  dropout := fun x p tr => Ok (Term.DropoutOp x p tr);
  size := fun _ _ => Raise tt;
  view := fun x s => Ok (Term.ViewOp x s);
  linear := fun x w b => Ok (Term.LinearOp x w b)
|}.

(** ** Instance 3: one-element integer tensors

    Every tensor has a single entry, an integer.  On such tensors a
    convolution and a linear layer are [w * x + b], a normalisation with
    zero mean and unit variance is [w * x + b] too, and pooling, dropout in
    evaluation mode and [view] return the entry.  Nothing raises: the
    instance computes values and stands for no check of the framework
    (the tensors are those autograd does not track, on which [x += skip]
    is accepted). *)

Module Scalar.
Definition t : Type := Z.

Definition affine (x w : Z) (b : option Z) : Z :=
  w * x + match b with Some b => b | None => 0 end.

Definition empty : Store t := mkStore O (fun _ => 0).
End Scalar.

#[export] Instance Scalar_framework : Framework Scalar.t unit := {|
  conv_weight := fun _ _ _ _ => Ok 1;
  conv_bias := fun _ => Ok 0;
  bn_weight := fun _ => Ok 1;
  bn_bias := fun _ => Ok 0;
  linear_weight := fun _ _ => Ok 1;
  linear_bias := fun _ => Ok 0;
  kaiming_normal_ := fun w => w;
  fill_ := fun c _ => c;
  zero_ := fun _ => 0;
  conv2d := fun x w b _ _ _ _ => Ok (Scalar.affine x w b);
  batch_norm := fun x w b _ => Ok (Scalar.affine x w (Some b));
  relu := fun x => Ok (Z.max 0 x);
  max_pool2d := fun x _ _ _ => Ok x;
  add_ := fun x y => Ok (x + y);
  avg_pool2d := fun x _ => Ok x;
  dropout := fun x _ _ => Ok x;
  size := fun _ _ => Ok 1;
  view := fun x _ => Ok x;
  linear := fun x w b => Ok (Scalar.affine x w (Some b))
|}.

(** ** Vocabulary of the statements *)

Section Vocabulary.
Context {T E : Type}.

(** What a run returns: the tensor value in the returned cell. *)
Definition value_of (r : result (exn E) loc * Store T) : result (exn E) T :=
  match r with
  | (Ok l, s) => Ok (mem s l)
  | (Raise e, _) => Raise e
  end.

(** A framework result seen as the outcome of a run. *)
Definition framework (r : result E T) : result (exn E) T :=
  match r with
  | Ok v => Ok v
  | Raise e => Raise (FrameworkError e)
  end.

(** Every cell below [b] holds what [m0] says. *)
Definition agrees (b : loc) (m0 : loc -> T) (s : Store T) : Prop :=
  forall l, (l < b)%nat -> mem s l = m0 l.

(** [s'] is [s] after more allocation: the cells of [s] are intact. *)
Definition extends (s s' : Store T) : Prop :=
  (next s <= next s')%nat /\ agrees (next s) (mem s) s'.

Definition below (b : loc) (ls : list loc) : Prop :=
  Forall (fun l => (l < b)%nat) ls.

(** The cells [ls] were allocated on the way from [s] to [s']. *)
Definition allocated_between (s s' : Store T) (ls : list loc) : Prop :=
  Forall (fun l => (next s <= l < next s')%nat) ls.

(** A run of [c] from [s] that keeps the cells below [b] as [m0] has
    them, returns a cell at or above [b] holding the value [r], and
    raises exactly when [r] does, with the framework's exception. *)
Definition run_spec (b : loc) (m0 : loc -> T) (s : Store T)
           (c : M T E loc) (r : result E T) : Prop :=
  match c s with
  | (Ok l, s') =>
      (next s <= next s')%nat /\ agrees b m0 s' /\
      (b <= l < next s')%nat /\ r = Ok (mem s' l)
  | (Raise (FrameworkError e), s') =>
      (next s <= next s')%nat /\ agrees b m0 s' /\ r = Raise e
  | (Raise IndexError, _) => False
  end.

(** The outcome of a functional call whose value is [r]: a new cell
    holding the value, or the framework's exception. *)
Definition fresh_result (s : Store T) (r : result E T)
  : result (exn E) loc * Store T :=
  match r with
  | Ok v => (Ok (next s), mkStore (S (next s)) (upd (mem s) (next s) v))
  | Raise e => (Raise (FrameworkError e), s)
  end.
End Vocabulary.



(** Whether a layer writes into the cell of its argument. *)
Definition writes_in_place (i : Sequential.item) : bool :=
  match i with
  | Sequential.OfReLU r => ReLU.inplace r
  | _ => false
  end.

(** A [Sequential] that is not empty and whose first layer returns a new
    tensor. *)
Definition starts_out_of_place (rep : Sequential.t) : Prop :=
  match rep with
  | [] => False
  | i :: _ => writes_in_place i = false
  end.

(** ** Counting weights

    The number of entries of the parameter tensors a constructor creates,
    read off the shape instance. *)

Definition parameter_count (s : Store Shape.t) (ls : list loc) : Z :=
  fold_right (fun l acc => Shape.numel (mem s l) + acc) 0 ls.

(** [SeparableConv2d(in_channels, out_channels, kernel_size)] *)
Definition separable_weight_count (i o k : Z) : option Z :=
  match SeparableConv2d.init (F := Shape_framework) i o k 1 0 1 Shape.empty with
  | (Ok sep, s) => Some (parameter_count s (SeparableConv2d.parameters sep))
  | (Raise _, _) => None
  end.

(** [nn.Conv2d(in_channels, out_channels, kernel_size, bias=False)] *)
Definition standard_weight_count (i o k : Z) : option Z :=
  match Conv2d.init (F := Shape_framework) i o k 1 0 1 1 false Shape.empty with
  | (Ok conv, s) => Some (parameter_count s (Conv2d.parameters conv))
  | (Raise _, _) => None
  end.

(** ** The module objects the constructors build

    Which object [Block.__init__] returns does not depend on the framework:
    when no framework call raises, it is the one below, a function of the
    first free location [n] of the store; the second component is the first
    free location afterwards. *)

Fixpoint rep_layout (in_channels out_channels reps : Z) (grow_first : bool)
         (idx : list Z) (n : loc) : Sequential.t * loc :=
  match idx with
  | [] => ([], n)
  | i :: idx' =>
      let inc := if grow_first
                 then (if i =? 0 then in_channels else out_channels)
                 else in_channels in
      let outc := if grow_first
                  then out_channels
                  else (if i <? reps - 1 then in_channels else out_channels) in
      let sep := SeparableConv2d.mk (Conv2d.mk inc inc 3 1 1 1 inc n None)
                                    (Conv2d.mk inc outc 1 1 0 1 1 (S n) None) in
      let bn := BatchNorm2d.mk outc (S (S n)) (S (S (S n))) true in
      let (rest, n') := rep_layout in_channels out_channels reps grow_first
                                   idx' (S (S (S (S n)))) in
      (Sequential.OfReLU (ReLU.mk true) :: Sequential.OfSeparableConv2d sep
         :: Sequential.OfBatchNorm2d bn :: rest, n')
  end.

Definition Block_layout (in_channels out_channels reps strides : Z)
           (start_with_relu grow_first : bool) (n : loc)
  : option (Block.t * loc) :=
  let (skip, n1) :=
    if negb (out_channels =? in_channels) || negb (strides =? 1)
    then (Some (Conv2d.mk in_channels out_channels 1 strides 0 1 1 n None,
                BatchNorm2d.mk out_channels (S n) (S (S n)) true),
          S (S (S n)))
    else (None, n) in
  let (rep, n2) := rep_layout in_channels out_channels reps grow_first
                              (range reps) n1 in
  match (if negb start_with_relu then Some (tl rep)
         else match rep with
              | [] => None
              | _ :: rest => Some (Sequential.OfReLU (ReLU.mk false) :: rest)
              end) with
  | None => None
  | Some rep =>
      Some (Block.mk skip
                     (if negb (strides =? 1)
                      then rep ++ [Sequential.OfMaxPool2d (MaxPool2d.mk 3 strides 1)]
                      else rep),
            n2)
  end.

(** The same for [Xception.__init__]. *)
Definition Xception_layout (num_classes in_chans : Z) (drop_rate : Q)
           (global_pool : String.string) (n : loc) : option (Xception.t * loc) :=
  let conv1 := Conv2d.mk in_chans 32 3 2 0 1 1 n None in
  let bn1 := BatchNorm2d.mk 32 (1 + n)%nat (2 + n)%nat true in
  let conv2 := Conv2d.mk 32 64 3 1 0 1 1 (3 + n)%nat None in
  let bn2 := BatchNorm2d.mk 64 (4 + n)%nat (5 + n)%nat true in
  match Block_layout 64 128 2 2 false true (6 + n)%nat with
  | None => None
  | Some (block1, n1) =>
  match Block_layout 128 256 2 2 true true n1 with
  | None => None
  | Some (block2, n2) =>
  match Block_layout 256 728 2 2 true true n2 with
  | None => None
  | Some (block3, n3) =>
  match Block_layout 728 728 3 1 true true n3 with
  | None => None
  | Some (block4, n4) =>
  match Block_layout 728 728 3 1 true true n4 with
  | None => None
  | Some (block5, n5) =>
  match Block_layout 728 728 3 1 true true n5 with
  | None => None
  | Some (block6, n6) =>
  match Block_layout 728 728 3 1 true true n6 with
  | None => None
  | Some (block7, n7) =>
  match Block_layout 728 728 3 1 true true n7 with
  | None => None
  | Some (block8, n8) =>
  match Block_layout 728 728 3 1 true true n8 with
  | None => None
  | Some (block9, n9) =>
  match Block_layout 728 728 3 1 true true n9 with
  | None => None
  | Some (block10, n10) =>
  match Block_layout 728 728 3 1 true true n10 with
  | None => None
  | Some (block11, n11) =>
  match Block_layout 728 1024 2 2 true false n11 with
  | None => None
  | Some (block12, n12) =>
  let conv3 := SeparableConv2d.mk
                 (Conv2d.mk 1024 1024 3 1 1 1 1024 n12 None)
                 (Conv2d.mk 1024 1536 1 1 0 1 1 (1 + n12)%nat None) in
  let bn3 := BatchNorm2d.mk 1536 (2 + n12)%nat (3 + n12)%nat true in
  let conv4 := SeparableConv2d.mk
                 (Conv2d.mk 1536 1536 3 1 1 1 1536 (4 + n12)%nat None)
                 (Conv2d.mk 1536 2048 1 1 0 1 1 (5 + n12)%nat None) in
  let bn4 := BatchNorm2d.mk 2048 (6 + n12)%nat (7 + n12)%nat true in
  let fc := Linear.mk 2048 num_classes (8 + n12)%nat (9 + n12)%nat in
  Some (Xception.mk drop_rate global_pool num_classes 2048 true
          conv1 bn1 (ReLU.mk true) conv2 bn2 (ReLU.mk true)
          block1 block2 block3 block4 block5 block6
          block7 block8 block9 block10 block11 block12
          conv3 bn3 (ReLU.mk true) conv4 bn4 (ReLU.mk true) fc,
        (10 + n12)%nat)
  end  end  end  end  end  end  end  end  end  end  end  end.

(** ** Channel counts

    The number of channels a module hands on when it is given [c] channels;
    [None] when [c] is not the number of input channels it was built for. *)

Definition conv_channels (m : Conv2d.t) (c : Z) : option Z :=
  if c =? Conv2d.in_channels m then Some (Conv2d.out_channels m) else None.

Definition bn_channels (m : BatchNorm2d.t) (c : Z) : option Z :=
  if c =? BatchNorm2d.num_features m then Some c else None.

Definition sep_channels (m : SeparableConv2d.t) (c : Z) : option Z :=
  match conv_channels (SeparableConv2d.conv1 m) c with
  | Some c1 => conv_channels (SeparableConv2d.pointwise m) c1
  | None => None
  end.

Definition item_channels (i : Sequential.item) (c : Z) : option Z :=
  match i with
  | Sequential.OfReLU _ | Sequential.OfMaxPool2d _ => Some c
  | Sequential.OfSeparableConv2d m => sep_channels m c
  | Sequential.OfBatchNorm2d m => bn_channels m c
  end.

Fixpoint seq_channels (rep : Sequential.t) (c : Z) : option Z :=
  match rep with
  | [] => Some c
  | i :: rest =>
      match item_channels i c with
      | Some c1 => seq_channels rest c1
      | None => None
      end
  end.

(** Both branches of a block have to end on the same channel count. *)
Definition block_channels (m : Block.t) (c : Z) : option Z :=
  match seq_channels (Block.rep m) c,
        match Block.skip m with
        | Some (conv, bn) =>
            match conv_channels conv c with
            | Some c1 => bn_channels bn c1
            | None => None
            end
        | None => Some c
        end with
  | Some c1, Some c2 => if c1 =? c2 then Some c1 else None
  | _, _ => None
  end.

(** The stages of [forward_features], in the order it applies them. *)
Inductive stage : Type :=
| StConv2d (m : Conv2d.t)
| StBatchNorm2d (m : BatchNorm2d.t)
| StReLU (m : ReLU.t)
| StBlock (m : Block.t)
| StSeparableConv2d (m : SeparableConv2d.t).

Definition stages (self : Xception.t) : list stage :=
  [StConv2d (Xception.conv1 self); StBatchNorm2d (Xception.bn1 self);
   StReLU (Xception.act1 self);
   StConv2d (Xception.conv2 self); StBatchNorm2d (Xception.bn2 self);
   StReLU (Xception.act2 self);
   StBlock (Xception.block1 self); StBlock (Xception.block2 self);
   StBlock (Xception.block3 self); StBlock (Xception.block4 self);
   StBlock (Xception.block5 self); StBlock (Xception.block6 self);
   StBlock (Xception.block7 self); StBlock (Xception.block8 self);
   StBlock (Xception.block9 self); StBlock (Xception.block10 self);
   StBlock (Xception.block11 self); StBlock (Xception.block12 self);
   StSeparableConv2d (Xception.conv3 self); StBatchNorm2d (Xception.bn3 self);
   StReLU (Xception.act3 self);
   StSeparableConv2d (Xception.conv4 self); StBatchNorm2d (Xception.bn4 self);
   StReLU (Xception.act4 self)].

Definition stage_forward {T E : Type} {F : Framework T E} (st : stage)
           (x : loc) : M T E loc :=
  match st with
  | StConv2d m => Conv2d.forward m x
  | StBatchNorm2d m => BatchNorm2d.forward m x
  | StReLU m => ReLU.forward m x
  | StBlock m => Block.forward m x
  | StSeparableConv2d m => SeparableConv2d.forward m x
  end.

Fixpoint run_stages {T E : Type} {F : Framework T E} (sts : list stage)
         (x : loc) : M T E loc :=
  match sts with
  | [] => ret x
  | st :: rest => y <- stage_forward st x ;; run_stages rest y
  end.

Definition stage_channels (st : stage) (c : Z) : option Z :=
  match st with
  | StConv2d m => conv_channels m c
  | StBatchNorm2d m => bn_channels m c
  | StReLU _ => Some c
  | StBlock m => block_channels m c
  | StSeparableConv2d m => sep_channels m c
  end.

(** The channel count after each stage, [None] at the first stage that is
    given a count it was not built for. *)
Fixpoint channel_trace (sts : list stage) (c : Z) : option (list Z) :=
  match sts with
  | [] => Some []
  | st :: rest =>
      match stage_channels st c with
      | Some c1 =>
          match channel_trace rest c1 with
          | Some cs => Some (c1 :: cs)
          | None => None
          end
      | None => None
      end
  end.

(** ** Symbolic runs

    The expression [forward_features] computes for a constructed model, on
    an input tensor held by a new cell; and the same for one block. *)

Definition features_term (num_classes in_chans : Z) (drop_rate : Q)
           (global_pool : String.string) : result (exn unit) Term.t :=
  match Xception.init (F := Term_framework) num_classes in_chans drop_rate
                      global_pool Term.empty with
  | (Ok m, s) =>
      value_of (Xception.forward_features m (next s)
                                          (mkStore (S (next s)) (mem s)))
  | (Raise e, _) => Raise e
  end.

Definition block_term (in_channels out_channels reps strides : Z)
           (start_with_relu grow_first : bool) : result (exn unit) Term.t :=
  match Block.init (F := Term_framework) in_channels out_channels reps strides
                   start_with_relu grow_first Term.empty with
  | (Ok m, s) =>
      value_of (Block.forward m (next s) (mkStore (S (next s)) (mem s)))
  | (Raise e, _) => Raise e
  end.

Definition holds (p : Term.t -> bool) (r : result (exn unit) Term.t) : bool :=
  match r with
  | Ok e => p e
  | Raise _ => false
  end.

(** ** Parameter shapes

    In the shape instance: the parameters of a module are allocated and
    have the shapes their layer creates them with. *)

Definition conv_shaped (s : Store Shape.t) (m : Conv2d.t) : Prop :=
  (Conv2d.weight m < next s)%nat /\ Conv2d.bias m = None /\
  mem s (Conv2d.weight m) =
  [Conv2d.out_channels m; Conv2d.in_channels m / Conv2d.groups m;
   Conv2d.kernel_size m; Conv2d.kernel_size m].

Definition bn_shaped (s : Store Shape.t) (m : BatchNorm2d.t) : Prop :=
  (BatchNorm2d.weight m < next s)%nat /\ (BatchNorm2d.bias m < next s)%nat /\
  mem s (BatchNorm2d.weight m) = [BatchNorm2d.num_features m] /\
  mem s (BatchNorm2d.bias m) = [BatchNorm2d.num_features m].

Definition linear_shaped (s : Store Shape.t) (m : Linear.t) : Prop :=
  (Linear.weight m < next s)%nat /\ (Linear.bias m < next s)%nat /\
  mem s (Linear.weight m) = [Linear.out_features m; Linear.in_features m] /\
  mem s (Linear.bias m) = [Linear.out_features m].

Definition sep_shaped (s : Store Shape.t) (m : SeparableConv2d.t) : Prop :=
  conv_shaped s (SeparableConv2d.conv1 m) /\
  conv_shaped s (SeparableConv2d.pointwise m).

Definition item_shaped (s : Store Shape.t) (i : Sequential.item) : Prop :=
  match i with
  | Sequential.OfSeparableConv2d m => sep_shaped s m
  | Sequential.OfBatchNorm2d m => bn_shaped s m
  | Sequential.OfReLU _ | Sequential.OfMaxPool2d _ => True
  end.

Definition block_shaped (s : Store Shape.t) (m : Block.t) : Prop :=
  match Block.skip m with
  | Some (conv, bn) => conv_shaped s conv /\ bn_shaped s bn
  | None => True
  end /\
  Forall (item_shaped s) (Block.rep m).

Definition xception_shaped (s : Store Shape.t) (m : Xception.t) : Prop :=
  conv_shaped s (Xception.conv1 m) /\ bn_shaped s (Xception.bn1 m) /\
  conv_shaped s (Xception.conv2 m) /\ bn_shaped s (Xception.bn2 m) /\
  Forall (block_shaped s) (Xception.blocks m) /\
  sep_shaped s (Xception.conv3 m) /\ bn_shaped s (Xception.bn3 m) /\
  sep_shaped s (Xception.conv4 m) /\ bn_shaped s (Xception.bn4 m) /\
  linear_shaped s (Xception.fc m).

(** A batch of [N] square feature maps. *)
Definition square_batch (N : Z) (x : Shape.t) : Prop :=
  exists C H, x = [N; C; H; H] /\ 1 <= H.

(** ** Spatial extents

    Batch normalisation in training mode refuses a batch that gives it a
    single value per channel. *)
Definition bn_fits (training : bool) (N h w : Z) : Prop :=
  training = true -> N * h * w <> 1.

(** The height (or width) of the feature map [forward_features] hands on
    for an input of height (or width) [H]: [conv1] has a 3x3 kernel with
    stride 2, [conv2] a 3x3 kernel with stride 1, both unpadded; the blocks
    1, 2, 3 and 12 end with a 3x3 pooling of stride 2 and padding 1; every
    other layer keeps the extent. *)
Definition feature_map_size (H : Z) : Z :=
  let h := Shape.conv_out H 3 2 0 1 in
  let h := Shape.conv_out h 3 1 0 1 in
  let h := Shape.pool_out h 3 2 1 in
  let h := Shape.pool_out h 3 2 1 in
  let h := Shape.pool_out h 3 2 1 in
  Shape.pool_out h 3 2 1.

(** * Vocabulary of the further properties *)

Unset Implicit Arguments.

(** ** Failures of the constructors *)

(** An exception that the creation of some parameter tensor raises. *)
Inductive raised_at_creation {T E : Type} {F : Framework T E} (e : E) : Prop :=
| by_conv_weight i o k g : conv_weight i o k g = Raise e -> raised_at_creation e
| by_conv_bias o : conv_bias o = Raise e -> raised_at_creation e
| by_bn_weight n : bn_weight n = Raise e -> raised_at_creation e
| by_bn_bias n : bn_bias n = Raise e -> raised_at_creation e
| by_linear_weight i o : linear_weight i o = Raise e -> raised_at_creation e
| by_linear_bias o : linear_bias o = Raise e -> raised_at_creation e.

(** A constructor whose only failures are exceptions of parameter creation,
    passed on as they were raised. *)
Definition creation_failures_only {T E A : Type} {F : Framework T E}
           (c : M T E A) : Prop :=
  forall s e s', c s = (Raise e, s') ->
                 exists e', e = FrameworkError e' /\ raised_at_creation e'.

(** ** Counting modules *)

Definition is_AConv2d (m : module_obj) : bool :=
  match m with AConv2d _ => true | _ => false end.

Definition is_ABatchNorm2d (m : module_obj) : bool :=
  match m with ABatchNorm2d _ => true | _ => false end.

(** ** Sizes the layers declare

    The number of entries of the parameters of a module, read off the
    attributes of its layers. *)

Definition conv_numel (c : Conv2d.t) : Z :=
  Conv2d.out_channels c * (Conv2d.in_channels c / Conv2d.groups c)
  * Conv2d.kernel_size c * Conv2d.kernel_size c.

Definition bn_numel (b : BatchNorm2d.t) : Z := 2 * BatchNorm2d.num_features b.

Definition linear_numel (l : Linear.t) : Z :=
  Linear.out_features l * Linear.in_features l + Linear.out_features l.

Definition sep_numel (c : SeparableConv2d.t) : Z :=
  conv_numel (SeparableConv2d.conv1 c)
  + conv_numel (SeparableConv2d.pointwise c).

Definition item_numel (i : Sequential.item) : Z :=
  match i with
  | Sequential.OfSeparableConv2d m => sep_numel m
  | Sequential.OfBatchNorm2d m => bn_numel m
  | Sequential.OfReLU _ | Sequential.OfMaxPool2d _ => 0
  end.

Definition seq_numel (rep : Sequential.t) : Z :=
  fold_right (fun i acc => item_numel i + acc) 0 rep.

Definition block_numel (b : Block.t) : Z :=
  match Block.skip b with
  | Some (conv, bn) => conv_numel conv + bn_numel bn
  | None => 0
  end + seq_numel (Block.rep b).

Definition xception_numel (m : Xception.t) : Z :=
  conv_numel (Xception.conv1 m) + bn_numel (Xception.bn1 m)
  + conv_numel (Xception.conv2 m) + bn_numel (Xception.bn2 m)
  + fold_right (fun b acc => block_numel b + acc) 0 (Xception.blocks m)
  + sep_numel (Xception.conv3 m) + bn_numel (Xception.bn3 m)
  + sep_numel (Xception.conv4 m) + bn_numel (Xception.bn4 m)
  + linear_numel (Xception.fc m).

(** ** What the initialisation loop leaves in a parameter

    In the instance of symbolic terms: the weight of a convolution is the
    tensor its constructor created, passed through [kaiming_normal_] once;
    weight and bias of a batch normalisation are the tensors created,
    passed through [fill_(1)] and [zero_()]. *)
Definition initialised (s : Store Term.t) (mo : module_obj) : Prop :=
  match mo with
  | AConv2d c =>
      Conv2d.bias c = None /\
      mem s (Conv2d.weight c) =
      Term.KaimingNormal
        (Term.New [Conv2d.out_channels c;
                   Conv2d.in_channels c / Conv2d.groups c;
                   Conv2d.kernel_size c; Conv2d.kernel_size c])
  | ABatchNorm2d b =>
      mem s (BatchNorm2d.weight b) =
      Term.Fill 1 (Term.New [BatchNorm2d.num_features b]) /\
      mem s (BatchNorm2d.bias b) =
      Term.Zero (Term.New [BatchNorm2d.num_features b])
  | AOther => True
  end.


(** ** Where the output of a batch normalisation goes

    The operation that reads a tensor inside a symbolic expression. *)
Inductive reader : Type :=
| ByNothing                  (* the tensor is the result of the run *)
| ByConv2d
| ByBatchNorm
| ByReLU
| ByMaxPool2d (stride : Z)
| ByAdditionLeft             (* the [x] of [x += skip] *)
| ByAdditionRight            (* the [skip] of [x += skip] *)
| ByHead.                    (* avg_pool2d, dropout, view, linear *)

Definition reader_eqb (a b : reader) : bool :=
  match a, b with
  | ByNothing, ByNothing | ByConv2d, ByConv2d | ByBatchNorm, ByBatchNorm
  | ByReLU, ByReLU | ByAdditionLeft, ByAdditionLeft
  | ByAdditionRight, ByAdditionRight | ByHead, ByHead => true
  | ByMaxPool2d s, ByMaxPool2d s' => s =? s'
  | _, _ => false
  end.

(** The occurrences, in [e], of the batch normalisation whose weight is the
    cell [w]: for each one, whether its input is the output of a
    convolution, and what reads its output, [r] being what reads [e]. *)
Fixpoint bn_uses (w : loc) (r : reader) (e : Term.t) : list (bool * reader) :=
  match e with
  | Term.BatchNormOp x wt _ _ =>
      match wt with
      | Term.Var w' => if Nat.eqb w' w then [(Term.is_conv x, r)] else []
      | _ => []
      end ++ bn_uses w ByBatchNorm x
  | Term.Conv2dOp x _ _ _ _ _ _ => bn_uses w ByConv2d x
  | Term.ReluOp x => bn_uses w ByReLU x
  | Term.MaxPoolOp x _ s _ => bn_uses w (ByMaxPool2d s) x
  | Term.AddOp x y => bn_uses w ByAdditionLeft x ++ bn_uses w ByAdditionRight y
  | Term.AvgPoolOp x _ | Term.DropoutOp x _ _ | Term.ViewOp x _
  | Term.LinearOp x _ _ => bn_uses w ByHead x
  | Term.Var _ | Term.New _ | Term.KaimingNormal _ | Term.Fill _ _
  | Term.Zero _ | Term.NoBias => []
  end.

(** [bn_read_by e bn r]: the batch normalisation [bn] is applied in [e];
    where it is, its input is the output of a convolution and its output
    is read by [r].  (A tensor that the expression uses twice, as the input
    of a block is by [rep] and by the skip branch, occurs twice in it.) *)
Definition bn_read_by (e : Term.t) (bn : BatchNorm2d.t) (r : reader) : bool :=
  match bn_uses (BatchNorm2d.weight bn) ByNothing e with
  | [] => false
  | uses => forallb (fun u => fst u && reader_eqb (snd u) r) uses
  end.

Definition batch_norms_of (rep : Sequential.t) : list BatchNorm2d.t :=
  flat_map (fun i => match i with
                     | Sequential.OfBatchNorm2d bn => [bn]
                     | _ => []
                     end) rep.

(** The placement of the batch normalisations of a block built with
    [strides]: those of [rep] but the last are read by a ReLU, the last one
    by the max-pooling when [strides != 1] and by the addition otherwise,
    and [skipbn], where there is one, by the addition. *)
Definition block_placement (e : Term.t) (blk : Block.t) (strides : Z) : bool :=
  match rev (batch_norms_of (Block.rep blk)) with
  | [] => false
  | last_bn :: others =>
      forallb (fun bn => bn_read_by e bn ByReLU) others &&
      bn_read_by e last_bn (if strides =? 1 then ByAdditionLeft
                            else ByMaxPool2d strides)
  end &&
  match Block.skip blk with
  | Some (conv, bn) =>
      (Conv2d.stride conv =? strides) && bn_read_by e bn ByAdditionRight
  | None => strides =? 1
  end.

(** The argument [strides] of [block1], ..., [block12] in
    [Xception.__init__]. *)
Definition block_strides : list Z := [2; 2; 2; 1; 1; 1; 1; 1; 1; 1; 1; 2].

Definition network_placement (m : Xception.t) (e : Term.t) : bool :=
  forallb (fun bn => bn_read_by e bn ByReLU)
          [Xception.bn1 m; Xception.bn2 m; Xception.bn3 m; Xception.bn4 m] &&
  Nat.eqb (length (Xception.blocks m)) (length block_strides) &&
  forallb (fun bs => block_placement e (fst bs) (snd bs))
          (combine (Xception.blocks m) block_strides) &&
  Nat.eqb (4 + length (flat_map
                         (fun blk =>
                            match Block.skip blk with
                            | Some (_, bn) => [bn]
                            | None => []
                            end ++ batch_norms_of (Block.rep blk))
                         (Xception.blocks m)))
          (length (filter is_ABatchNorm2d (Xception.modules m))).

(** The expression [forward_features] computes from the input held by the
    cell [x], when every other cell [l] holds a tensor of its own,
    [Var l]: a parameter shows in it as the cell it lives in. *)
Definition features_flow (m : Xception.t) (x : loc)
  : result (exn unit) Term.t :=
  value_of (Xception.forward_features (F := Term_framework) m x
                                      (mkStore (S x) Term.Var)).

(** * Theorems *)

Unset Implicit Arguments.

(** ** The store *)

Section StoreFacts.
Context {T : Type}.

Lemma upd_same (m : loc -> T) l v : upd m l v l = v.
Proof. unfold upd. now rewrite Nat.eqb_refl. Qed.

Lemma upd_other (m : loc -> T) l v l' : l' <> l -> upd m l v l' = m l'.
Proof. intros H. unfold upd. apply Nat.eqb_neq in H. now rewrite H. Qed.

Lemma agrees_alloc b m0 (s : Store T) v :
  (b <= next s)%nat -> agrees b m0 s ->
  agrees b m0 (mkStore (S (next s)) (upd (mem s) (next s) v)).
Proof.
  intros Hb Ha l Hl. simpl. rewrite upd_other by lia. now apply Ha.
Qed.

Lemma agrees_write b m0 (s : Store T) x v :
  (b <= x)%nat -> agrees b m0 s ->
  agrees b m0 (mkStore (next s) (upd (mem s) x v)).
Proof.
  intros Hb Ha l Hl. simpl. rewrite upd_other by lia. now apply Ha.
Qed.

Lemma agrees_self (s : Store T) : agrees (next s) (mem s) s.
Proof. now intros l _. Qed.

Lemma agrees_le b b' m0 (s : Store T) :
  (b <= b')%nat -> agrees b' m0 s -> agrees b m0 s.
Proof. intros Hb Ha l Hl. apply Ha. lia. Qed.

Lemma agrees_trans b b' m0 (s s' : Store T) :
  (b <= b')%nat -> agrees b m0 s -> agrees b' (mem s) s' -> agrees b m0 s'.
Proof. intros Hb Ha Ha' l Hl. rewrite Ha' by lia. now apply Ha. Qed.

Lemma below_agrees b m0 (s : Store T) ls l :
  below b ls -> agrees b m0 s -> In l ls -> mem s l = m0 l.
Proof.
  intros Hb Ha Hin. apply Ha. unfold below in Hb.
  rewrite Forall_forall in Hb. now apply Hb.
Qed.

Lemma below_app b l1 l2 : below b (l1 ++ l2) <-> below b l1 /\ below b l2.
Proof. apply Forall_app. Qed.

Lemma below_le b b' ls : (b <= b')%nat -> below b ls -> below b' ls.
Proof.
  intros Hb H. unfold below in *. eapply Forall_impl; [|exact H].
  simpl. intros. lia.
Qed.

Lemma extends_refl (s : Store T) : extends s s.
Proof. split; [lia | apply agrees_self]. Qed.

Lemma extends_trans (s1 s2 s3 : Store T) :
  extends s1 s2 -> extends s2 s3 -> extends s1 s3.
Proof.
  intros [H1 A1] [H2 A2]. split; [lia|].
  eapply agrees_trans; eauto.
Qed.
End StoreFacts.

(** ** Framework layers: every call returns a new tensor *)

Section LayerFacts.
Context {T E : Type} {F : Framework T E}.

Lemma functional_run (op : T -> result E T) x (s : Store T) :
  Xception.functional op x s = fresh_result s (op (mem s x)).
Proof.
  unfold Xception.functional, fresh_result, bind, read, call, alloc, ret, raise.
  simpl. destruct (op (mem s x)); reflexivity.
Qed.

Lemma Conv2d_forward_run c x (s : Store T) :
  Conv2d.forward c x s = fresh_result s (Conv2d.eval (mem s) c (mem s x)).
Proof.
  unfold fresh_result, Conv2d.forward, Conv2d.eval, bind, read, call, alloc,
    ret, raise.
  simpl. destruct (Conv2d.bias c); simpl;
  match goal with |- context [conv2d ?a ?b ?c ?d ?e ?f ?g] =>
    destruct (conv2d a b c d e f g) end; reflexivity.
Qed.

Lemma BatchNorm2d_forward_run c x (s : Store T) :
  BatchNorm2d.forward c x s =
  fresh_result s (BatchNorm2d.eval (mem s) c (mem s x)).
Proof.
  unfold fresh_result, BatchNorm2d.forward, BatchNorm2d.eval, bind, read,
    call, alloc, ret, raise.
  simpl.
  match goal with |- context [batch_norm ?a ?b ?c ?d] =>
    destruct (batch_norm a b c d) end; reflexivity.
Qed.

Lemma MaxPool2d_forward_run c x (s : Store T) :
  MaxPool2d.forward c x s = fresh_result s (MaxPool2d.eval c (mem s x)).
Proof.
  unfold fresh_result, MaxPool2d.forward, MaxPool2d.eval, bind, read, call,
    alloc, ret, raise.
  simpl.
  match goal with |- context [max_pool2d ?a ?b ?c ?d] =>
    destruct (max_pool2d a b c d) end; reflexivity.
Qed.

Lemma Linear_forward_run c x (s : Store T) :
  Linear.forward c x s = fresh_result s (Linear.eval (mem s) c (mem s x)).
Proof.
  unfold fresh_result, Linear.forward, Linear.eval, bind, read, call, alloc,
    ret, raise.
  simpl.
  match goal with |- context [linear ?a ?b ?c] =>
    destruct (linear a b c) end; reflexivity.
Qed.

Lemma ReLU_forward_out_of_place r x (s : Store T) :
  ReLU.inplace r = false ->
  ReLU.forward r x s = fresh_result s (ReLU.eval r (mem s x)).
Proof.
  intros H.
  unfold fresh_result, ReLU.forward, ReLU.eval, bind, read, call, alloc, ret,
    raise.
  simpl. rewrite H. destruct (relu (mem s x)); reflexivity.
Qed.

Lemma ReLU_forward_in_place r x (s : Store T) :
  ReLU.inplace r = true ->
  ReLU.forward r x s =
  match ReLU.eval r (mem s x) with
  | Ok v => (Ok x, mkStore (next s) (upd (mem s) x v))
  | Raise e => (Raise (FrameworkError e), s)
  end.
Proof.
  intros H.
  unfold ReLU.forward, ReLU.eval, bind, read, call, alloc, ret, raise, write.
  simpl. rewrite H. destruct (relu (mem s x)); reflexivity.
Qed.
End LayerFacts.

(** ** Values depend on the parameters only *)

Section EvalFacts.
Context {T E : Type} {F : Framework T E}.
Variables m m' : loc -> T.

Lemma Conv2d_eval_ext c v :
  (forall l, In l (Conv2d.parameters c) -> m l = m' l) ->
  Conv2d.eval m c v = Conv2d.eval m' c v.
Proof.
  intros H. unfold Conv2d.eval, Conv2d.parameters in *.
  rewrite (H (Conv2d.weight c)) by (left; reflexivity).
  destruct (Conv2d.bias c) as [l|]; simpl; [|reflexivity].
  rewrite (H l) by (right; left; reflexivity). reflexivity.
Qed.

Lemma BatchNorm2d_eval_ext c v :
  (forall l, In l (BatchNorm2d.parameters c) -> m l = m' l) ->
  BatchNorm2d.eval m c v = BatchNorm2d.eval m' c v.
Proof.
  intros H. unfold BatchNorm2d.eval, BatchNorm2d.parameters in *.
  rewrite (H (BatchNorm2d.weight c)) by (left; reflexivity).
  rewrite (H (BatchNorm2d.bias c)) by (right; left; reflexivity).
  reflexivity.
Qed.

Lemma Linear_eval_ext c v :
  (forall l, In l (Linear.parameters c) -> m l = m' l) ->
  Linear.eval m c v = Linear.eval m' c v.
Proof.
  intros H. unfold Linear.eval, Linear.parameters in *.
  rewrite (H (Linear.weight c)) by (left; reflexivity).
  rewrite (H (Linear.bias c)) by (right; left; reflexivity).
  reflexivity.
Qed.

Lemma SeparableConv2d_eval_ext c v :
  (forall l, In l (SeparableConv2d.parameters c) -> m l = m' l) ->
  SeparableConv2d.eval m c v = SeparableConv2d.eval m' c v.
Proof.
  intros H. unfold SeparableConv2d.eval, SeparableConv2d.parameters in *.
  rewrite (Conv2d_eval_ext (SeparableConv2d.conv1 c) v)
    by (intros; apply H, in_or_app; now left).
  destruct (Conv2d.eval m' (SeparableConv2d.conv1 c) v); simpl; [|reflexivity].
  apply Conv2d_eval_ext. intros; apply H, in_or_app; now right.
Qed.

Lemma Sequential_item_eval_ext i v :
  (forall l, In l (Sequential.item_parameters i) -> m l = m' l) ->
  Sequential.item_eval m i v = Sequential.item_eval m' i v.
Proof.
  intros H. destruct i; simpl in *; try reflexivity.
  - now apply SeparableConv2d_eval_ext.
  - now apply BatchNorm2d_eval_ext.
Qed.

Lemma Sequential_eval_ext rep v :
  (forall l, In l (Sequential.parameters rep) -> m l = m' l) ->
  Sequential.eval m rep v = Sequential.eval m' rep v.
Proof.
  revert v. induction rep as [|i rest IH]; intros v H; simpl; [reflexivity|].
  unfold Sequential.parameters in H. simpl in H.
  rewrite (Sequential_item_eval_ext i v)
    by (intros; apply H, in_or_app; now left).
  destruct (Sequential.item_eval m' i v); simpl; [|reflexivity].
  apply IH. intros; apply H, in_or_app; now right.
Qed.

Lemma Block_skip_eval_ext b v :
  (forall l, In l (Block.skip_parameters b) -> m l = m' l) ->
  Block.skip_eval m b v = Block.skip_eval m' b v.
Proof.
  intros H. unfold Block.skip_eval, Block.skip_parameters in *.
  destruct (Block.skip b) as [[conv bn]|]; [|reflexivity].
  rewrite (Conv2d_eval_ext conv v) by (intros; apply H, in_or_app; now left).
  destruct (Conv2d.eval m' conv v); simpl; [|reflexivity].
  apply BatchNorm2d_eval_ext. intros; apply H, in_or_app; now right.
Qed.

Lemma Block_eval_ext b v :
  (forall l, In l (Block.parameters b) -> m l = m' l) ->
  Block.eval m b v = Block.eval m' b v.
Proof.
  intros H. unfold Block.eval, Block.parameters in *.
  rewrite (Sequential_eval_ext (Block.rep b) v)
    by (intros; apply H, in_or_app; now right).
  rewrite (Block_skip_eval_ext b v)
    by (intros; apply H, in_or_app; now left).
  reflexivity.
Qed.
End EvalFacts.

(** ** Runs that return a cell at or above a base line *)

Section RunFacts.
Context {T E : Type} {F : Framework T E}.

Lemma run_fresh_result b m0 (s : Store T) (c : M T E loc) r :
  (b <= next s)%nat -> agrees b m0 s ->
  c s = fresh_result s r -> run_spec b m0 s c r.
Proof.
  intros Hb Ha Hc. unfold run_spec. rewrite Hc.
  destruct r as [v|e]; simpl.
  - repeat split; try lia.
    + now apply agrees_alloc.
    + now rewrite upd_same.
  - repeat split; auto.
Qed.

Lemma run_ret b m0 (s : Store T) x :
  agrees b m0 s -> (b <= x < next s)%nat ->
  run_spec b m0 s (ret x) (Ok (mem s x) : result E T).
Proof. intros Ha Hx. unfold run_spec, ret. repeat split; auto; lia. Qed.

Lemma run_bind b m0 (s : Store T) (c : M T E loc) (k : loc -> M T E loc)
      r1 (k' : T -> result E T) :
  run_spec b m0 s c r1 ->
  (forall l s', c s = (Ok l, s') ->
                (next s <= next s')%nat -> agrees b m0 s' ->
                (b <= l < next s')%nat -> r1 = Ok (mem s' l) ->
                run_spec b m0 s' (k l) (k' (mem s' l))) ->
  run_spec b m0 s (bind c k) (rbind r1 k').
Proof.
  unfold run_spec at 1 3. unfold bind. intros H1 H2.
  destruct (c s) as [[l|[e|]] s'] eqn:Hc.
  - destruct H1 as (Hn & Ha & Hl & Hr).
    specialize (H2 l s' eq_refl Hn Ha Hl Hr). subst r1. simpl.
    unfold run_spec in H2.
    destruct (k l s') as [[l2|[e2|]] s2]; auto.
    + destruct H2 as (Hn2 & Ha2 & Hl2 & Hr2). repeat split; auto; lia.
    + destruct H2 as (Hn2 & Ha2 & Hr2). repeat split; auto; lia.
  - destruct H1 as (Hn & Ha & Hr). subst r1. simpl. auto.
  - contradiction.
Qed.

Lemma run_weaken b m0 (s : Store T) (c : M T E loc) r :
  run_spec (next s) (mem s) s c r ->
  (b <= next s)%nat -> agrees b m0 s ->
  run_spec b m0 s c r.
Proof.
  unfold run_spec. intros H Hb Ha.
  destruct (c s) as [[l|[e|]] s']; auto.
  - destruct H as (Hn & Ha' & Hl & Hr). repeat split; auto; try lia.
    eapply agrees_trans; eauto.
  - destruct H as (Hn & Ha' & Hr). repeat split; auto.
    eapply agrees_trans; eauto.
Qed.
End RunFacts.

(** ** The modules of the source, one run each *)

Section ModuleRuns.
Context {T E : Type} {F : Framework T E}.
Variables (b : loc) (m0 : loc -> T).

Lemma run_value (s : Store T) (c : M T E loc) r :
  run_spec b m0 s c r -> value_of (c s) = framework r.
Proof.
  unfold run_spec, value_of, framework.
  destruct (c s) as [[l|[e|]] s'].
  - intros (_ & _ & _ & ->). reflexivity.
  - intros (_ & _ & ->). reflexivity.
  - contradiction.
Qed.

Lemma run_bind_ret (s : Store T) (c : M T E loc) r :
  run_spec b m0 s c r -> run_spec b m0 s (x <- c ;; ret x) r.
Proof.
  unfold run_spec, bind, ret. destruct (c s) as [[l|[e|]] s']; auto.
Qed.

Lemma Conv2d_run (s : Store T) c x :
  (b <= next s)%nat -> agrees b m0 s -> below b (Conv2d.parameters c) ->
  run_spec b m0 s (Conv2d.forward c x) (Conv2d.eval m0 c (mem s x)).
Proof.
  intros Hb Ha Hp. apply run_fresh_result; auto.
  rewrite Conv2d_forward_run. f_equal. apply Conv2d_eval_ext.
  intros l Hl. eapply below_agrees; eauto.
Qed.

Lemma BatchNorm2d_run (s : Store T) c x :
  (b <= next s)%nat -> agrees b m0 s -> below b (BatchNorm2d.parameters c) ->
  run_spec b m0 s (BatchNorm2d.forward c x) (BatchNorm2d.eval m0 c (mem s x)).
Proof.
  intros Hb Ha Hp. apply run_fresh_result; auto.
  rewrite BatchNorm2d_forward_run. f_equal. apply BatchNorm2d_eval_ext.
  intros l Hl. eapply below_agrees; eauto.
Qed.

Lemma Linear_run (s : Store T) c x :
  (b <= next s)%nat -> agrees b m0 s -> below b (Linear.parameters c) ->
  run_spec b m0 s (Linear.forward c x) (Linear.eval m0 c (mem s x)).
Proof.
  intros Hb Ha Hp. apply run_fresh_result; auto.
  rewrite Linear_forward_run. f_equal. apply Linear_eval_ext.
  intros l Hl. eapply below_agrees; eauto.
Qed.

Lemma MaxPool2d_run (s : Store T) c x :
  (b <= next s)%nat -> agrees b m0 s ->
  run_spec b m0 s (MaxPool2d.forward c x) (MaxPool2d.eval c (mem s x)).
Proof.
  intros Hb Ha. apply run_fresh_result; auto. apply MaxPool2d_forward_run.
Qed.

Lemma functional_run_spec (s : Store T) (op : T -> result E T) x :
  (b <= next s)%nat -> agrees b m0 s ->
  run_spec b m0 s (Xception.functional op x) (op (mem s x)).
Proof.
  intros Hb Ha. apply run_fresh_result; auto. apply functional_run.
Qed.

(** A ReLU either returns a new tensor, or overwrites its argument, which
    then has to be a cell at or above the base line. *)
Lemma ReLU_run (s : Store T) r x :
  (b <= next s)%nat -> agrees b m0 s ->
  ReLU.inplace r = false \/ (b <= x < next s)%nat ->
  run_spec b m0 s (ReLU.forward r x) (ReLU.eval r (mem s x)).
Proof.
  intros Hb Ha Hx. destruct (ReLU.inplace r) eqn:Hi.
  - destruct Hx as [Hx|Hx]; [discriminate|].
    unfold run_spec. rewrite ReLU_forward_in_place by assumption.
    destruct (ReLU.eval r (mem s x)) as [v|e]; simpl.
    + repeat split; try lia.
      * apply agrees_write; [lia|assumption].
      * now rewrite upd_same.
    + repeat split; auto.
  - apply run_fresh_result; auto. now apply ReLU_forward_out_of_place.
Qed.

Lemma SeparableConv2d_run (s : Store T) c x :
  (b <= next s)%nat -> agrees b m0 s ->
  below b (SeparableConv2d.parameters c) ->
  run_spec b m0 s (SeparableConv2d.forward c x)
           (SeparableConv2d.eval m0 c (mem s x)).
Proof.
  intros Hb Ha Hp. apply below_app in Hp. destruct Hp as [Hp1 Hp2].
  unfold SeparableConv2d.forward, SeparableConv2d.eval.
  apply run_bind; [now apply Conv2d_run|].
  intros l s' _ Hn Ha' Hl _. apply run_bind_ret.
  apply Conv2d_run; auto. lia.
Qed.

Lemma Sequential_item_run (s : Store T) i x :
  (b <= next s)%nat -> agrees b m0 s ->
  below b (Sequential.item_parameters i) ->
  writes_in_place i = false \/ (b <= x < next s)%nat ->
  run_spec b m0 s (Sequential.item_forward i x)
           (Sequential.item_eval m0 i (mem s x)).
Proof.
  intros Hb Ha Hp Hx. destruct i; simpl in *.
  - now apply ReLU_run.
  - now apply SeparableConv2d_run.
  - now apply BatchNorm2d_run.
  - now apply MaxPool2d_run.
Qed.

(** Once the running tensor is above the base line, any sequence of layers
    may follow, in place or not. *)
Lemma Sequential_run rep : forall (s : Store T) x,
  (b <= x < next s)%nat -> agrees b m0 s ->
  below b (Sequential.parameters rep) ->
  run_spec b m0 s (Sequential.forward rep x)
           (Sequential.eval m0 rep (mem s x)).
Proof.
  induction rep as [|i rest IH]; intros s x Hx Ha Hp; simpl.
  - now apply run_ret.
  - unfold Sequential.parameters in Hp. simpl in Hp.
    apply below_app in Hp. destruct Hp as [Hp1 Hp2].
    apply run_bind.
    + apply Sequential_item_run; auto. lia.
    + intros l s' _ Hn Ha' Hl _. apply IH; auto.
Qed.
End ModuleRuns.


(** ** Block.forward *)

Section BlockRuns.
Context {T E : Type} {F : Framework T E}.

Lemma iadd_run x o (s : Store T) :
  Block.iadd x o s =
  match add_ (mem s x) (mem s o) with
  | Ok r => (Ok tt, mkStore (next s) (upd (mem s) x r))
  | Raise e => (Raise (FrameworkError e), s)
  end.
Proof.
  unfold Block.iadd, bind, read, call, write, ret, raise. simpl.
  destruct (add_ (mem s x) (mem s o)); reflexivity.
Qed.

(** The projection branch of the skip connection returns a new tensor. *)
Lemma skip_branch_run conv bn (s : Store T) x :
  below (next s) (Conv2d.parameters conv ++ BatchNorm2d.parameters bn) ->
  run_spec (next s) (mem s) s
           (sk <- Conv2d.forward conv x ;; BatchNorm2d.forward bn sk)
           (v <~ Conv2d.eval (mem s) conv (mem s x) ;;
            BatchNorm2d.eval (mem s) bn v).
Proof.
  intros Hp. apply below_app in Hp. destruct Hp as [Hp1 Hp2].
  apply run_bind.
  - apply Conv2d_run; auto. apply agrees_self.
  - intros l s' _ Hn Ha Hl _. apply BatchNorm2d_run; auto.
Qed.

Lemma iadd_ret_run b m0 (s : Store T) (l sk : loc) :
  agrees b m0 s -> (b <= l < next s)%nat ->
  run_spec b m0 s (Block.iadd l sk ;; ret l) (add_ (mem s l) (mem s sk)).
Proof.
  intros Ha Hl. unfold run_spec, bind. rewrite iadd_run.
  destruct (add_ (mem s l) (mem s sk)) as [r|e]; simpl.
  - repeat split; try lia.
    + apply agrees_write; [lia|assumption].
    + now rewrite upd_same.
  - repeat split; auto.
Qed.

(** If [rep] runs above the base line and leaves the input as it was, the
    block returns the sum of the two branches, both taken on the input. *)
Lemma Block_run_gen b m0 (s : Store T) blk x :
  (b <= next s)%nat -> agrees b m0 s -> below b (Block.parameters blk) ->
  run_spec b m0 s (Sequential.forward (Block.rep blk) x)
           (Sequential.eval m0 (Block.rep blk) (mem s x)) ->
  (forall l s1, Sequential.forward (Block.rep blk) x s = (Ok l, s1) ->
                mem s1 x = mem s x) ->
  run_spec b m0 s (Block.forward blk x) (Block.eval m0 blk (mem s x)).
Proof.
  intros Hb Ha Hp Hrep Hx.
  unfold Block.parameters in Hp. apply below_app in Hp.
  destruct Hp as [Hps Hpr].
  unfold Block.forward, Block.eval.
  unfold run_spec in Hrep |- *. unfold bind at 1.
  destruct (Sequential.forward (Block.rep blk) x s) as [[l|[e|]] s1] eqn:Hseq;
    [| |contradiction].
  2:{ destruct Hrep as (Hn & Ha1 & ->). simpl. auto. }
  destruct Hrep as (Hn & Ha1 & Hl & ->). simpl.
  specialize (Hx l s1 eq_refl).
  unfold Block.skip_eval, Block.skip_parameters in *.
  destruct (Block.skip blk) as [[conv bn]|].
  - assert (Hsk := skip_branch_run conv bn s1 x
                     (below_le b (next s1) _ ltac:(lia) Hps)).
    apply below_app in Hps. destruct Hps as [Hpc Hpb].
    assert (Hev :
      (v <~ Conv2d.eval (mem s1) conv (mem s1 x) ;;
       BatchNorm2d.eval (mem s1) bn v) =
      (v <~ Conv2d.eval m0 conv (mem s x) ;; BatchNorm2d.eval m0 bn v)).
    { rewrite Hx. rewrite (Conv2d_eval_ext (mem s1) m0 conv)
        by (intros; eapply below_agrees; [exact Hpc|exact Ha1|assumption]).
      destruct (Conv2d.eval m0 conv (mem s x)); simpl; [|reflexivity].
      apply BatchNorm2d_eval_ext.
      intros; eapply below_agrees; [exact Hpb|exact Ha1|assumption]. }
    rewrite Hev in Hsk. clear Hev.
    unfold run_spec in Hsk. unfold bind at 1.
    destruct ((sk <- Conv2d.forward conv x ;; BatchNorm2d.forward bn sk) s1)
      as [[sk|[e|]] s2]; [| |contradiction].
    + destruct Hsk as (Hn2 & Ha2 & Hlk & Hr). rewrite Hr. simpl.
      assert (Hfin := iadd_ret_run b m0 s2 l sk
                        (agrees_trans b (next s1) m0 s1 s2 ltac:(lia) Ha1 Ha2)
                        ltac:(lia)).
      rewrite (Ha2 l) in Hfin by lia.
      unfold run_spec in Hfin.
      destruct ((Block.iadd l sk ;; ret l) s2) as [[l0|[e|]] s3]; auto.
      * destruct Hfin as (Hn3 & Ha3 & Hl3 & Hr3). repeat split; auto; lia.
      * destruct Hfin as (Hn3 & Ha3 & Hr3). repeat split; auto; lia.
    + destruct Hsk as (Hn2 & Ha2 & Hr). rewrite Hr. simpl.
      repeat split; auto; try lia.
      eapply agrees_trans; [|exact Ha1|exact Ha2]. lia.
  - unfold bind at 1. unfold ret at 1. simpl.
    assert (Hfin := iadd_ret_run b m0 s1 l x Ha1 Hl).
    rewrite Hx in Hfin.
    unfold run_spec in Hfin.
    destruct ((Block.iadd l x ;; ret l) s1) as [[l0|[e|]] s3]; auto.
    * destruct Hfin as (Hn3 & Ha3 & Hl3 & Hr3). repeat split; auto; lia.
    * destruct Hfin as (Hn3 & Ha3 & Hr3). repeat split; auto; lia.
Qed.

Lemma Sequential_run_out_of_place (s : Store T) rep x :
  starts_out_of_place rep ->
  below (next s) (Sequential.parameters rep) ->
  run_spec (next s) (mem s) s (Sequential.forward rep x)
           (Sequential.eval (mem s) rep (mem s x)).
Proof.
  destruct rep as [|i rest]; simpl; [contradiction|].
  intros Hi Hp. unfold Sequential.parameters in Hp. simpl in Hp.
  apply below_app in Hp. destruct Hp as [Hp1 Hp2].
  apply run_bind.
  - apply Sequential_item_run; auto. apply agrees_self.
  - intros l s' _ Hn Ha Hl _. apply Sequential_run; auto.
Qed.

(** A block whose [rep] starts with a layer that returns a new tensor:
    nothing allocated before the call is written. *)
Lemma Block_run_out_of_place (s : Store T) blk x :
  starts_out_of_place (Block.rep blk) ->
  below (next s) (Block.parameters blk) ->
  (x < next s)%nat ->
  run_spec (next s) (mem s) s (Block.forward blk x)
           (Block.eval (mem s) blk (mem s x)).
Proof.
  intros Hs Hp Hx.
  assert (Hrep := Sequential_run_out_of_place s (Block.rep blk) x Hs).
  unfold Block.parameters in Hp. apply below_app in Hp as Hp'.
  destruct Hp' as [_ Hpr]. specialize (Hrep Hpr).
  apply Block_run_gen; auto.
  - apply agrees_self.
  - intros l s1 Hseq. unfold run_spec in Hrep. rewrite Hseq in Hrep.
    destruct Hrep as (_ & Ha & _). now apply Ha.
Qed.

Lemma Block_run b m0 (s : Store T) blk x :
  starts_out_of_place (Block.rep blk) ->
  (b <= next s)%nat -> agrees b m0 s ->
  below b (Block.parameters blk) ->
  (x < next s)%nat ->
  run_spec b m0 s (Block.forward blk x) (Block.eval m0 blk (mem s x)).
Proof.
  intros Hs Hb Ha Hp Hx. apply run_weaken; auto.
  rewrite <- (Block_eval_ext (mem s) m0 blk (mem s x)).
  - apply Block_run_out_of_place; auto.
    exact (below_le b (next s) _ Hb Hp).
  - intros l Hl. eapply below_agrees; eauto.
Qed.
End BlockRuns.

(** ** Constructors *)

Section InitFacts.
Context {T E : Type} {F : Framework T E}.

Lemma extends_alloc (s : Store T) v :
  extends s (mkStore (S (next s)) (upd (mem s) (next s) v)).
Proof.
  split; simpl; [lia|]. apply agrees_alloc; [lia|apply agrees_self].
Qed.

Lemma allocated_between_app (s s' : Store T) l1 l2 :
  allocated_between s s' (l1 ++ l2) <->
  allocated_between s s' l1 /\ allocated_between s s' l2.
Proof. apply Forall_app. Qed.

Lemma allocated_between_widen (s0 s1 s2 s3 : Store T) ls :
  (next s0 <= next s1)%nat -> (next s2 <= next s3)%nat ->
  allocated_between s1 s2 ls -> allocated_between s0 s3 ls.
Proof.
  intros H1 H2 H. unfold allocated_between in *.
  eapply Forall_impl; [|exact H]. simpl. intros. lia.
Qed.

Lemma allocated_below (s s' : Store T) ls :
  allocated_between s s' ls -> below (next s') ls.
Proof.
  intros H. unfold allocated_between, below in *.
  eapply Forall_impl; [|exact H]. simpl. intros. lia.
Qed.

Lemma Conv2d_init_inv i o k st p d g (s : Store T) c s' :
  Conv2d.init i o k st p d g false s = (Ok c, s') ->
  exists w, conv_weight i o k g = Ok w /\
            c = Conv2d.mk i o k st p d g (next s) None /\
            s' = mkStore (S (next s)) (upd (mem s) (next s) w).
Proof.
  unfold Conv2d.init, bind, call, alloc, ret, raise.
  destruct (conv_weight i o k g) as [w|e]; simpl; intros H; inversion H.
  exists w. auto.
Qed.

Lemma BatchNorm2d_init_inv n (s : Store T) bn s' :
  BatchNorm2d.init n s = (Ok bn, s') ->
  exists w b, bn_weight n = Ok w /\ bn_bias n = Ok b /\
              bn = BatchNorm2d.mk n (next s) (S (next s)) true /\
              s' = mkStore (S (S (next s)))
                           (upd (upd (mem s) (next s) w) (S (next s)) b).
Proof.
  unfold BatchNorm2d.init, bind, call, alloc, ret, raise.
  destruct (bn_weight n) as [w|e]; simpl; [|intros H; inversion H].
  destruct (bn_bias n) as [b|e]; simpl; intros H; inversion H.
  exists w, b. auto.
Qed.

Lemma Linear_init_inv i o (s : Store T) fc s' :
  Linear.init i o s = (Ok fc, s') ->
  exists w b, linear_weight i o = Ok w /\ linear_bias o = Ok b /\
              fc = Linear.mk i o (next s) (S (next s)) /\
              s' = mkStore (S (S (next s)))
                           (upd (upd (mem s) (next s) w) (S (next s)) b).
Proof.
  unfold Linear.init, bind, call, alloc, ret, raise.
  destruct (linear_weight i o) as [w|e]; simpl; [|intros H; inversion H].
  destruct (linear_bias o) as [b|e]; simpl; intros H; inversion H.
  exists w, b. auto.
Qed.

Lemma SeparableConv2d_init_inv i o k st p d (s : Store T) c s' :
  SeparableConv2d.init i o k st p d s = (Ok c, s') ->
  exists w1 w2,
    conv_weight i i k i = Ok w1 /\ conv_weight i o 1 1 = Ok w2 /\
    c = SeparableConv2d.mk
          (Conv2d.mk i i k st p d i (next s) None)
          (Conv2d.mk i o 1 1 0 1 1 (S (next s)) None) /\
    s' = mkStore (S (S (next s)))
                 (upd (upd (mem s) (next s) w1) (S (next s)) w2).
Proof.
  unfold SeparableConv2d.init. unfold bind at 1.
  destruct (Conv2d.init i i k st p d i false s) as [[c1|e] s1] eqn:H1;
    [|intros H; inversion H].
  apply Conv2d_init_inv in H1. destruct H1 as (w1 & Hw1 & -> & ->).
  unfold bind at 1.
  destruct (Conv2d.init i o 1 1 0 1 1 false _) as [[c2|e] s2] eqn:H2;
    [|intros H; inversion H].
  apply Conv2d_init_inv in H2. destruct H2 as (w2 & Hw2 & -> & ->).
  unfold ret. intros H; inversion H. exists w1, w2. auto.
Qed.

(** What a constructor leaves behind: the older cells intact, and its
    parameters among the cells it allocated. *)
Lemma Conv2d_init_spec i o k st p d g (s : Store T) c s' :
  Conv2d.init i o k st p d g false s = (Ok c, s') ->
  extends s s' /\ allocated_between s s' (Conv2d.parameters c).
Proof.
  intros H. apply Conv2d_init_inv in H. destruct H as (w & _ & -> & ->).
  split; [apply extends_alloc|].
  repeat constructor; simpl; lia.
Qed.

Lemma BatchNorm2d_init_spec n (s : Store T) bn s' :
  BatchNorm2d.init n s = (Ok bn, s') ->
  extends s s' /\ allocated_between s s' (BatchNorm2d.parameters bn).
Proof.
  intros H. apply BatchNorm2d_init_inv in H.
  destruct H as (w & b & _ & _ & -> & ->).
  split.
  - eapply extends_trans; [apply extends_alloc|].
    apply (extends_alloc (mkStore (S (next s)) (upd (mem s) (next s) w)) b).
  - repeat constructor; simpl; lia.
Qed.

Lemma Linear_init_spec i o (s : Store T) fc s' :
  Linear.init i o s = (Ok fc, s') ->
  extends s s' /\ allocated_between s s' (Linear.parameters fc).
Proof.
  intros H. apply Linear_init_inv in H.
  destruct H as (w & b & _ & _ & -> & ->).
  split.
  - eapply extends_trans; [apply extends_alloc|].
    apply (extends_alloc (mkStore (S (next s)) (upd (mem s) (next s) w)) b).
  - repeat constructor; simpl; lia.
Qed.

Lemma SeparableConv2d_init_spec i o k st p d (s : Store T) c s' :
  SeparableConv2d.init i o k st p d s = (Ok c, s') ->
  extends s s' /\ allocated_between s s' (SeparableConv2d.parameters c).
Proof.
  intros H. apply SeparableConv2d_init_inv in H.
  destruct H as (w1 & w2 & _ & _ & -> & ->).
  split.
  - eapply extends_trans; [apply extends_alloc|].
    apply (extends_alloc (mkStore (S (next s)) (upd (mem s) (next s) w1)) w2).
  - repeat constructor; simpl; lia.
Qed.
End InitFacts.

(** ** Block.__init__ *)

Section BlockInit.
Context {T E : Type} {F : Framework T E}.

Lemma range_nonpositive n : n <= 0 -> range n = [].
Proof.
  intros H. unfold range. destruct n; simpl; try reflexivity. lia.
Qed.

Lemma range_positive n : 1 <= n -> exists rest, range n = 0 :: rest.
Proof.
  intros H. unfold range.
  destruct (Z.to_nat n) as [|k] eqn:Hk; [lia|].
  simpl. eauto.
Qed.

Lemma Sequential_parameters_app r1 r2 :
  Sequential.parameters (r1 ++ r2) =
  Sequential.parameters r1 ++ Sequential.parameters r2.
Proof. unfold Sequential.parameters. apply flat_map_app. Qed.

(** The loop appends to [rep] one ReLU, separable convolution and batch
    normalisation per index, the ReLU in place. *)
Lemma rep_loop_spec i o reps gf : forall idx acc (s : Store T) rep s',
  Block.rep_loop i o reps gf idx acc s = (Ok rep, s') ->
  extends s s' /\
  exists tail,
    rep = acc ++ tail /\
    allocated_between s s' (Sequential.parameters tail) /\
    match idx with
    | [] => tail = []
    | _ :: _ =>
        exists sep bn tail',
          tail = Sequential.OfReLU (ReLU.mk true)
                 :: Sequential.OfSeparableConv2d sep
                 :: Sequential.OfBatchNorm2d bn :: tail'
    end.
Proof.
  induction idx as [|j idx IH]; intros acc s rep s' H; simpl in H.
  - unfold ret in H. inversion H; subst. split; [apply extends_refl|].
    exists []. rewrite app_nil_r. repeat split. constructor.
  - unfold bind at 1 in H.
    match type of H with context [SeparableConv2d.init ?a ?b ?c ?d ?e ?f s] =>
      destruct (SeparableConv2d.init a b c d e f s) as [[sep|e1] s1] eqn:H1
    end; [|inversion H].
    apply SeparableConv2d_init_spec in H1. destruct H1 as [X1 P1].
    unfold bind at 1 in H.
    match type of H with context [BatchNorm2d.init ?a s1] =>
      destruct (BatchNorm2d.init a s1) as [[bn|e2] s2] eqn:H2
    end; [|inversion H].
    apply BatchNorm2d_init_spec in H2. destruct H2 as [X2 P2].
    apply IH in H. destruct H as (X3 & tail & -> & P3 & _).
    split; [eapply extends_trans; [exact X1|];
            eapply extends_trans; [exact X2|exact X3]|].
    eexists. split; [rewrite <- app_assoc; reflexivity|].
    split; [|simpl; eauto].
    destruct X1 as [N1 _], X2 as [N2 _], X3 as [N3 _].
    change (allocated_between s s'
              (SeparableConv2d.parameters sep ++
               BatchNorm2d.parameters bn ++ Sequential.parameters tail)).
    apply allocated_between_app. split;
      [eapply allocated_between_widen; [| |exact P1]; lia|].
    apply allocated_between_app. split;
      [eapply allocated_between_widen; [| |exact P2]; lia|].
    eapply allocated_between_widen; [| |exact P3]; lia.
Qed.

Lemma skip_init_spec i o st (s : Store T) sk s' :
  (if negb (o =? i) || negb (st =? 1)
   then c <- Conv2d.init i o 1 st 0 1 1 false ;;
        b <- BatchNorm2d.init o ;;
        ret (Some (c, b))
   else ret None) s = (Ok sk, s') ->
  extends s s' /\
  match sk with
  | Some (conv, bn) =>
      (o <> i \/ st <> 1) /\
      conv = Conv2d.mk i o 1 st 0 1 1 (next s) None /\
      bn = BatchNorm2d.mk o (S (next s)) (S (S (next s))) true /\
      next s' = S (S (S (next s)))
  | None => o = i /\ st = 1 /\ s' = s
  end.
Proof.
  destruct (negb (o =? i) || negb (st =? 1)) eqn:Hc.
  - unfold bind at 1.
    destruct (Conv2d.init i o 1 st 0 1 1 false s) as [[c|e] s1] eqn:H1;
      [|intros H; inversion H].
    apply Conv2d_init_inv in H1. destruct H1 as (w & _ & -> & ->).
    unfold bind at 1.
    destruct (BatchNorm2d.init o _) as [[bn|e] s2] eqn:H2;
      [|intros H; inversion H].
    apply BatchNorm2d_init_spec in H2 as X2.
    apply BatchNorm2d_init_inv in H2. destruct H2 as (w2 & b2 & _ & _ & -> & ->).
    unfold ret. intros H; inversion H; subst. split.
    + eapply extends_trans; [apply extends_alloc|]. apply X2.
    + simpl. repeat split; auto.
      apply orb_true_iff in Hc. rewrite !negb_true_iff, !Z.eqb_neq in Hc.
      exact Hc.
  - unfold ret. intros H; inversion H; subst. split; [apply extends_refl|].
    apply orb_false_iff in Hc. rewrite !negb_false_iff, !Z.eqb_eq in Hc.
    tauto.
Qed.

Lemma Block_init_spec i o reps st swr gf (s : Store T) blk s' :
  Block.init i o reps st swr gf s = (Ok blk, s') ->
  extends s s' /\
  allocated_between s s' (Block.parameters blk) /\
  (1 <= reps \/ st <> 1 -> starts_out_of_place (Block.rep blk)) /\
  (reps <= 0 -> st = 1 -> Block.rep blk = []) /\
  match Block.skip blk with
  | Some (conv, bn) =>
      (o <> i \/ st <> 1) /\
      conv = Conv2d.mk i o 1 st 0 1 1 (next s) None /\
      bn = BatchNorm2d.mk o (S (next s)) (S (S (next s))) true
  | None => o = i /\ st = 1
  end /\
  (1 <= reps ->
   exists sep bn rest,
     Block.rep blk =
     (if swr then [Sequential.OfReLU (ReLU.mk false)] else []) ++
     Sequential.OfSeparableConv2d sep :: Sequential.OfBatchNorm2d bn :: rest).
Proof.
  unfold Block.init. unfold bind at 1.
  match goal with |- (match ?c s with _ => _ end = _) -> _ =>
    destruct (c s) as [[sk|e] s1] eqn:Hsk end; [|intros H; inversion H].
  apply skip_init_spec in Hsk. destruct Hsk as [X1 Hsk].
  unfold bind at 1.
  destruct (Block.rep_loop i o reps gf (range reps) [] s1)
    as [[rep|e] s2] eqn:Hloop; [|intros H; inversion H].
  apply rep_loop_spec in Hloop.
  destruct Hloop as (X2 & tail & -> & P2 & Htail). simpl app.
  unfold bind at 1.
  match goal with |- (match ?c s2 with _ => _ end = _) -> _ =>
    destruct (c s2) as [[rep|e] s3] eqn:Hfix end; [|intros H; inversion H].
  unfold ret. intros H; injection H as Hb Hs; subst blk s'. simpl.
  assert (Hrep : s3 = s2 /\
                 allocated_between s1 s2 (Sequential.parameters rep) /\
                 (1 <= reps -> starts_out_of_place rep) /\
                 (reps <= 0 -> rep = []) /\
                 (1 <= reps ->
                  exists sep bn rest,
                    rep =
                    (if swr then [Sequential.OfReLU (ReLU.mk false)] else [])
                    ++ Sequential.OfSeparableConv2d sep
                       :: Sequential.OfBatchNorm2d bn :: rest)).
  { destruct (Z_le_gt_dec reps 0) as [Hle|Hgt].
    - rewrite (range_nonpositive reps Hle) in Htail. subst tail.
      destruct swr; simpl in Hfix; unfold raise, ret in Hfix;
        inversion Hfix; subst.
      repeat split; auto; intros; lia.
    - destruct (range_positive reps ltac:(lia)) as [rest Hrg].
      rewrite Hrg in Htail. destruct Htail as (sep & bn & tail' & ->).
      assert (P2' : allocated_between s1 s2
                      (Sequential.parameters
                         (Sequential.OfSeparableConv2d sep
                          :: Sequential.OfBatchNorm2d bn :: tail')))
        by exact P2.
      destruct swr; simpl in Hfix; unfold raise, ret in Hfix;
        inversion Hfix; subst; repeat split; auto; intros; try lia;
        simpl; eauto. }
  destruct Hrep as (-> & Prep & Hpos & Hnon & Hhead).
  split; [eapply extends_trans; eauto|].
  destruct X1 as [N1 A1], X2 as [N2 A2].
  split; [|split; [|split; [|split]]].
  - unfold Block.parameters, Block.skip_parameters. simpl.
    apply allocated_between_app. split.
    + destruct sk as [[conv bn]|]; [|constructor].
      destruct Hsk as (_ & -> & -> & Hn). simpl.
      repeat constructor; simpl; lia.
    + assert (Hr : allocated_between s s2 (Sequential.parameters rep))
        by (eapply allocated_between_widen; [| |exact Prep]; lia).
      destruct (negb (st =? 1)); [|exact Hr].
      rewrite Sequential_parameters_app. apply allocated_between_app.
      split; [exact Hr|constructor].
  - intros Hc. destruct (negb (st =? 1)) eqn:Hst.
    + destruct rep as [|hd tl]; simpl; [reflexivity|].
      destruct (Z_le_gt_dec reps 0) as [Hle|Hgt];
        [discriminate (Hnon Hle)|].
      apply (Hpos ltac:(lia)).
    + rewrite negb_false_iff, Z.eqb_eq in Hst.
      destruct Hc as [Hc|Hc]; [now apply Hpos|contradiction].
  - intros Hr Hst. rewrite (Hnon Hr). subst st. reflexivity.
  - destruct sk as [[conv bn]|]; tauto.
  - intros Hr. destruct (Hhead Hr) as (sep & bn & rest & ->).
    destruct (negb (st =? 1)); [|eauto].
    exists sep, bn, (rest ++ [Sequential.OfMaxPool2d (MaxPool2d.mk 3 st 1)]).
    destruct swr; simpl; reflexivity.
Qed.
End BlockInit.

(** ** SeparableConv2d.forward and Block.forward as values *)

(** C2.  A [SeparableConv2d(in_channels, out_channels, kernel_size, stride,
    padding, dilation)] is a depthwise convolution (groups = in_channels,
    in_channels to in_channels, no bias, the given kernel, stride, padding
    and dilation) followed by a pointwise one (1x1, stride 1, no padding,
    in_channels to out_channels, no bias); [forward] returns the second
    applied to the result of the first applied to the input. *)
Theorem SeparableConv2d_forward_is_pointwise_after_depthwise
        {T E : Type} {F : Framework T E}
        (i o k st p d : Z) (s0 s1 s : Store T) (sep : SeparableConv2d.t)
        (x : loc) :
  SeparableConv2d.init i o k st p d s0 = (Ok sep, s1) ->
  (next s1 <= next s)%nat ->
  let depthwise := SeparableConv2d.conv1 sep in
  let pointwise := SeparableConv2d.pointwise sep in
  (Conv2d.in_channels depthwise = i /\ Conv2d.out_channels depthwise = i /\
   Conv2d.kernel_size depthwise = k /\ Conv2d.stride depthwise = st /\
   Conv2d.padding depthwise = p /\ Conv2d.dilation depthwise = d /\
   Conv2d.groups depthwise = i /\ Conv2d.bias depthwise = None) /\
  (Conv2d.in_channels pointwise = i /\ Conv2d.out_channels pointwise = o /\
   Conv2d.kernel_size pointwise = 1 /\ Conv2d.stride pointwise = 1 /\
   Conv2d.padding pointwise = 0 /\ Conv2d.dilation pointwise = 1 /\
   Conv2d.groups pointwise = 1 /\ Conv2d.bias pointwise = None) /\
  value_of (SeparableConv2d.forward sep x s) =
  framework
    (v <~ conv2d (mem s x) (mem s (Conv2d.weight depthwise)) None st p d i ;;
     conv2d v (mem s (Conv2d.weight pointwise)) None 1 0 1 1).
Proof.
  intros Hinit Hs. apply SeparableConv2d_init_spec in Hinit as Hsp.
  destruct Hsp as [_ Hp]. apply allocated_below in Hp.
  apply SeparableConv2d_init_inv in Hinit.
  destruct Hinit as (w1 & w2 & _ & _ & -> & ->). simpl in *.
  repeat split.
  apply (run_value (next s) (mem s)).
  apply (SeparableConv2d_run (next s) (mem s) s); auto.
  - apply agrees_self.
  - eapply below_le; [|exact Hp]. exact Hs.
Qed.

Lemma SeparableConv2d_forward_witness :
  value_of (SeparableConv2d.forward
              (SeparableConv2d.mk (Conv2d.mk 3 3 3 1 1 1 3 0%nat None)
                                  (Conv2d.mk 3 8 1 1 0 1 1 1%nat None))
              2%nat
              (mkStore 3%nat (upd (upd (upd (mem Shape.empty) 0%nat [3; 1; 3; 3])
                                   1%nat [8; 3; 1; 1]) 2%nat [4; 3; 16; 16])))
  = Ok [4; 8; 16; 16].
Proof.
  pose proof
    (SeparableConv2d_forward_is_pointwise_after_depthwise
       (F := Shape_framework) 3 8 3 1 1 1 Shape.empty
       (mkStore 2%nat (upd (upd (mem Shape.empty) 0%nat [3; 1; 3; 3])
                       1%nat [8; 3; 1; 1]))
       (mkStore 3%nat (upd (upd (upd (mem Shape.empty) 0%nat [3; 1; 3; 3])
                            1%nat [8; 3; 1; 1]) 2%nat [4; 3; 16; 16]))
       (SeparableConv2d.mk (Conv2d.mk 3 3 3 1 1 1 3 0%nat None)
                           (Conv2d.mk 3 8 1 1 0 1 1 1%nat None))
       2%nat eq_refl ltac:(simpl; lia)) as H.
  destruct H as (_ & _ & H). rewrite H. reflexivity.
Defined.

Section BlockValue.
Context {T E : Type} {F : Framework T E}.

Lemma run_frame b m0 (s : Store T) (c : M T E loc) r :
  run_spec b m0 s c r -> agrees b m0 (snd (c s)).
Proof.
  unfold run_spec. destruct (c s) as [[l|[e|]] s']; simpl; tauto.
Qed.

Lemma run_result b m0 (s : Store T) (c : M T E loc) r l :
  run_spec b m0 s c r -> fst (c s) = Ok l -> (b <= l)%nat.
Proof.
  unfold run_spec. destruct (c s) as [[l'|[e|]] s']; simpl;
    intros H Hl; inversion Hl; subst. lia.
Qed.

(** A block with an empty [rep] adds the skip branch into the very cell
    it was given; every other cell keeps its content. *)
Lemma Block_forward_empty_rep (s : Store T) blk inp :
  Block.rep blk = [] ->
  below (next s) (Block.skip_parameters blk) ->
  (inp < next s)%nat ->
  value_of (Block.forward blk inp s) =
  framework (Block.eval (mem s) blk (mem s inp)) /\
  (forall l, (l < next s)%nat -> l <> inp ->
             mem (snd (Block.forward blk inp s)) l = mem s l).
Proof.
  intros Hrep Hp Hx.
  destruct (Block.forward blk inp s) as [res s'] eqn:Hf. revert Hf.
  unfold Block.forward, Block.eval. rewrite Hrep.
  simpl Sequential.forward. simpl Sequential.eval.
  unfold bind at 1. unfold ret at 1. simpl rbind.
  unfold Block.skip_eval, Block.skip_parameters in *.
  destruct (Block.skip blk) as [[conv bn]|].
  - assert (Hsk := skip_branch_run conv bn s inp Hp).
    unfold run_spec in Hsk. unfold bind at 1.
    destruct ((sk <- Conv2d.forward conv inp ;; BatchNorm2d.forward bn sk) s)
      as [[sk|[e|]] s2]; [| |contradiction].
    + destruct Hsk as (Hn2 & Ha2 & Hlk & Hr). rewrite Hr. simpl rbind.
      unfold bind. rewrite iadd_run. rewrite (Ha2 inp Hx).
      destruct (add_ (mem s inp) (mem s2 sk)) as [r|e];
        unfold ret; intros Hf; inversion Hf; subst; clear Hf;
        unfold value_of, framework; cbn [snd mem].
      * rewrite upd_same. split; [reflexivity|].
        intros l Hl Hne. rewrite upd_other by assumption. now apply Ha2.
      * split; [reflexivity|]. intros l Hl _. now apply Ha2.
    + destruct Hsk as (Hn2 & Ha2 & Hr). rewrite Hr.
      intros Hf; inversion Hf; subst; clear Hf. simpl.
      split; [reflexivity|]. intros l Hl _. now apply Ha2.
  - unfold bind at 1. unfold ret at 1. unfold bind. rewrite iadd_run.
    simpl rbind.
    destruct (add_ (mem s inp) (mem s inp)) as [r|e];
      unfold ret; intros Hf; inversion Hf; subst; clear Hf;
      unfold value_of, framework; cbn [snd mem].
    + rewrite upd_same. split; [reflexivity|].
      intros l Hl Hne. now rewrite upd_other.
    + split; [reflexivity|]. reflexivity.
Qed.
End BlockValue.

(** C1.  [Block.forward(inp)] is [rep(inp) + skip(inp)], both branches taken
    on the input as it was passed: [skip(inp)] is [skipbn] of a 1x1
    convolution with stride [strides] (no padding, no bias, in_channels to
    out_channels) exactly when [out_channels != in_channels] or
    [strides != 1], and is [inp] itself otherwise. *)
Theorem Block_forward_is_rep_plus_skip
        {T E : Type} {F : Framework T E}
        (in_channels out_channels reps strides : Z)
        (start_with_relu grow_first : bool)
        (s0 s1 s : Store T) (blk : Block.t) (inp : loc) :
  Block.init in_channels out_channels reps strides start_with_relu grow_first
             s0 = (Ok blk, s1) ->
  (next s1 <= next s)%nat -> (inp < next s)%nat ->
  let v := mem s inp in
  value_of (Block.forward blk inp s) =
  framework (x <~ Sequential.eval (mem s) (Block.rep blk) v ;;
             sk <~ Block.skip_eval (mem s) blk v ;;
             add_ x sk) /\
  match Block.skip blk with
  | Some (conv, bn) =>
      (out_channels <> in_channels \/ strides <> 1) /\
      Conv2d.in_channels conv = in_channels /\
      Conv2d.out_channels conv = out_channels /\
      Conv2d.kernel_size conv = 1 /\ Conv2d.stride conv = strides /\
      Conv2d.padding conv = 0 /\ Conv2d.bias conv = None /\
      BatchNorm2d.num_features bn = out_channels /\
      Block.skip_eval (mem s) blk v =
      (c <~ conv2d v (mem s (Conv2d.weight conv)) None strides 0 1 1 ;;
       batch_norm c (mem s (BatchNorm2d.weight bn))
                  (mem s (BatchNorm2d.bias bn)) (BatchNorm2d.training bn))
  | None =>
      out_channels = in_channels /\ strides = 1 /\
      Block.skip_eval (mem s) blk v = Ok v
  end.
Proof.
  intros Hinit Hs Hx v. apply Block_init_spec in Hinit.
  destruct Hinit as (_ & Hp & Hstart & Hempty & Hskip & _).
  apply allocated_below in Hp.
  assert (Hp' : below (next s) (Block.parameters blk))
    by (eapply below_le; [|exact Hp]; exact Hs).
  split.
  - destruct (Z_le_gt_dec reps 0) as [Hle|Hgt];
      [destruct (Z.eq_dec strides 1) as [Heq|Hne]|].
    + apply Block_forward_empty_rep; auto.
      unfold Block.parameters in Hp'. apply below_app in Hp'. apply Hp'.
    + apply (run_value (next s) (mem s)).
      apply Block_run_out_of_place; auto.
    + apply (run_value (next s) (mem s)).
      apply Block_run_out_of_place; auto. apply Hstart. lia.
  - unfold Block.skip_eval.
    destruct (Block.skip blk) as [[conv bn]|].
    + destruct Hskip as (Hc & -> & ->). simpl. repeat split; auto.
    + destruct Hskip as (-> & ->). auto.
Qed.

Lemma Block_forward_witness :
  value_of (Block.forward
              (Block.mk None
                 [Sequential.OfReLU (ReLU.mk false);
                  Sequential.OfSeparableConv2d
                    (SeparableConv2d.mk (Conv2d.mk 8 8 3 1 1 1 8 0%nat None)
                                        (Conv2d.mk 8 8 1 1 0 1 1 1%nat None));
                  Sequential.OfBatchNorm2d (BatchNorm2d.mk 8 2%nat 3%nat true)])
              4%nat
              (mkStore 5%nat
                 (upd (upd (upd (upd (upd (mem Scalar.empty) 0%nat 1) 1%nat 1)
                                2%nat 1) 3%nat 0) 4%nat 5)))
  = Ok 10.
Proof.
  pose proof
    (Block_forward_is_rep_plus_skip
       (F := Scalar_framework) 8 8 1 1 true true Scalar.empty
       (mkStore 4%nat
          (upd (upd (upd (upd (mem Scalar.empty) 0%nat 1) 1%nat 1)
                    2%nat 1) 3%nat 0))
       (mkStore 5%nat
          (upd (upd (upd (upd (upd (mem Scalar.empty) 0%nat 1) 1%nat 1)
                         2%nat 1) 3%nat 0) 4%nat 5))
       _ 4%nat eq_refl ltac:(simpl; lia) ltac:(simpl; lia))
    as H.
  destruct H as (H & _). exact H.
Defined.

(** C9 as stated fails: a [Block] built with [reps = 0] and
    [start_with_relu = False] has an empty [rep], which returns its
    argument; with equal channel counts and [strides = 1] there is no
    projection, and [x += skip] doubles the input tensor in place. *)
Lemma Block_forward_overwrites_input_when_rep_is_empty :
  Block.init (F := Scalar_framework) 8 8 0 1 false true Scalar.empty
  = (Ok (Block.mk None []), Scalar.empty) /\
  let s := mkStore 1%nat (upd (mem Scalar.empty) 0%nat 5) in
  mem s 0%nat = 5 /\
  Block.forward (Block.mk None []) 0%nat s
  = (Ok 0%nat, mkStore 1%nat (upd (mem s) 0%nat 10)) /\
  mem (snd (Block.forward (Block.mk None []) 0%nat s)) 0%nat <> mem s 0%nat.
Proof.
  split; [reflexivity|]. split; [reflexivity|]. split; [reflexivity|].
  vm_compute. discriminate.
Qed.

(** ** Failures *)

Section Failures.
Context {T E : Type} {F : Framework T E}.






End Failures.

Ltac raised :=
  let e := fresh "e" in
  let He := fresh "He" in
  intros e He; econstructor; exact He.


Section ForwardFailures.
Context {T E : Type} {F : Framework T E}.










End ForwardFailures.

(** ** Weight counts *)

Lemma separable_weight_count_eq (i o k : Z) :
  1 <= i -> 0 <= o -> 0 <= k ->
  separable_weight_count i o k = Some (i * k * k + i * o).
Proof.
  intros Hi Ho Hk. unfold separable_weight_count, SeparableConv2d.init,
    Conv2d.init, bind, call, alloc, ret. simpl.
  unfold Shape.conv_weight, Shape.new_tensor.
  rewrite Z.mod_same by lia. rewrite Z.div_same by lia.
  rewrite !Z.mod_1_r, Z.div_1_r.
  replace (i <=? 0) with false by (symmetry; apply Z.leb_gt; lia).
  simpl.
  replace (0 <=? i) with true by (symmetry; apply Z.leb_le; lia).
  replace (0 <=? k) with true by (symmetry; apply Z.leb_le; lia).
  replace (0 <=? o) with true by (symmetry; apply Z.leb_le; lia).
  cbv [fst snd forallb andb parameter_count SeparableConv2d.parameters
       Conv2d.parameters fold_right Shape.numel upd mem Nat.eqb app next
       SeparableConv2d.conv1 SeparableConv2d.pointwise Conv2d.weight
       Conv2d.bias Shape.empty].
  f_equal. ring.
Qed.

Lemma standard_weight_count_eq (i o k : Z) :
  0 <= i -> 0 <= o -> 0 <= k ->
  standard_weight_count i o k = Some (i * o * k * k).
Proof.
  intros Hi Ho Hk. unfold standard_weight_count, Conv2d.init, bind, call,
    alloc, ret. simpl.
  unfold Shape.conv_weight, Shape.new_tensor.
  rewrite !Z.mod_1_r, Z.div_1_r. simpl.
  replace (0 <=? i) with true by (symmetry; apply Z.leb_le; lia).
  replace (0 <=? k) with true by (symmetry; apply Z.leb_le; lia).
  replace (0 <=? o) with true by (symmetry; apply Z.leb_le; lia).
  cbv [fst snd forallb andb parameter_count Conv2d.parameters fold_right
       Shape.numel upd mem Nat.eqb app next Conv2d.weight Conv2d.bias
       Shape.empty].
  f_equal. ring.
Qed.

(** C3 as stated fails: with one input channel, one output channel and a
    1x1 kernel the separable convolution has two weights and the standard
    convolution one. *)
Lemma separable_not_smaller_for_1x1 :
  separable_weight_count 1 1 1 = Some 2 /\
  standard_weight_count 1 1 1 = Some 1 /\
  ~ (forall i o k : Z, 1 <= i -> 1 <= o -> 1 <= k ->
       exists sep std, separable_weight_count i o k = Some sep /\
                       standard_weight_count i o k = Some std /\
                       sep < std).
Proof.
  split; [reflexivity|]. split; [reflexivity|].
  intros H. destruct (H 1 1 1 ltac:(lia) ltac:(lia) ltac:(lia))
    as (sep & std & Hs & Hd & Hlt).
  vm_compute in Hs, Hd. inversion Hs; inversion Hd; subst. lia.
Qed.

(** C3, amended.  For [in_channels >= 1], [out_channels >= 2] and
    [kernel_size >= 2], a [SeparableConv2d] has
    [in_channels * k^2 + in_channels * out_channels] weights, strictly fewer
    than the [in_channels * out_channels * k^2] of a standard convolution
    without bias. *)
Theorem separable_has_fewer_weights (i o k : Z) :
  1 <= i -> 2 <= o -> 2 <= k ->
  separable_weight_count i o k = Some (i * k * k + i * o) /\
  standard_weight_count i o k = Some (i * o * k * k) /\
  i * k * k + i * o < i * o * k * k.
Proof.
  intros Hi Ho Hk.
  split; [apply separable_weight_count_eq; lia|].
  split; [apply standard_weight_count_eq; lia|].
  assert (H1 : 4 <= k * k) by nia.
  assert (H2 : 0 < i * (k * k)) by nia.
  assert (H3 : (o - 1) * (k * k - 1) >= 3) by nia.
  nia.
Qed.

Lemma separable_has_fewer_weights_witness :
  separable_weight_count 728 728 3 = Some (728 * 3 * 3 + 728 * 728) /\
  standard_weight_count 728 728 3 = Some (728 * 728 * 3 * 3) /\
  728 * 3 * 3 + 728 * 728 < 728 * 728 * 3 * 3.
Proof.
  apply (separable_has_fewer_weights 728 728 3); lia.
Defined.

(** ** The objects the constructors return *)

Section Layouts.
Context {T E : Type} {F : Framework T E}.

Lemma bind_Ok_inv {A B} (c : M T E A) (k : A -> M T E B) s b s' :
  bind c k s = (Ok b, s') ->
  exists a s1, c s = (Ok a, s1) /\ k a s1 = (Ok b, s').
Proof.
  unfold bind. destruct (c s) as [[a|e] s1]; intros H; [eauto|inversion H].
Qed.

Lemma rep_loop_layout i o reps gf : forall idx acc (s : Store T) rep s',
  Block.rep_loop i o reps gf idx acc s = (Ok rep, s') ->
  rep = acc ++ fst (rep_layout i o reps gf idx (next s)) /\
  next s' = snd (rep_layout i o reps gf idx (next s)).
Proof.
  induction idx as [|j idx IH]; intros acc s rep s' H; simpl in H.
  - unfold ret in H. inversion H; subst. simpl. now rewrite app_nil_r.
  - apply bind_Ok_inv in H. destruct H as (sep & s1 & H1 & H).
    apply SeparableConv2d_init_inv in H1.
    destruct H1 as (w1 & w2 & _ & _ & -> & ->).
    apply bind_Ok_inv in H. destruct H as (bn & s2 & H2 & H).
    apply BatchNorm2d_init_inv in H2.
    destruct H2 as (w & b & _ & _ & -> & ->).
    apply IH in H. cbn [next] in H. destruct H as [-> ->].
    cbn [rep_layout].
    destruct (rep_layout i o reps gf idx (S (S (S (S (next s))))))
      as [rest n'].
    cbn [fst snd]. rewrite <- app_assoc. split; reflexivity.
Qed.

Lemma Block_init_layout i o reps st swr gf (s : Store T) blk s' :
  Block.init i o reps st swr gf s = (Ok blk, s') ->
  Block_layout i o reps st swr gf (next s) = Some (blk, next s').
Proof.
  unfold Block.init, Block_layout. intros H.
  apply bind_Ok_inv in H. destruct H as (sk & s1 & Hsk & H).
  apply skip_init_spec in Hsk. destruct Hsk as [_ Hsk].
  apply bind_Ok_inv in H. destruct H as (rep & s2 & Hloop & H).
  apply rep_loop_layout in Hloop. simpl app in Hloop.
  destruct Hloop as [-> Hn2].
  apply bind_Ok_inv in H. destruct H as (rep' & s3 & Hfix & H).
  unfold ret in H. inversion H; subst blk s'; clear H.
  destruct (negb (o =? i) || negb (st =? 1)) eqn:Hc.
  - destruct sk as [[conv bn]|].
    2:{ destruct Hsk as (-> & -> & _).
        rewrite !Z.eqb_refl in Hc. discriminate. }
    destruct Hsk as (_ & -> & -> & Hn1). rewrite <- Hn1.
    destruct (rep_layout i o reps gf (range reps) (next s1)) as [rep n2].
    cbn [fst snd] in *.
    destruct swr; simpl in Hfix |- *.
    + destruct rep; unfold raise, ret in Hfix; inversion Hfix; subst.
      reflexivity.
    + unfold ret in Hfix; inversion Hfix; subst. reflexivity.
  - destruct sk as [[conv bn]|].
    1:{ destruct Hsk as (Hne & _).
        apply orb_false_iff in Hc. rewrite !negb_false_iff, !Z.eqb_eq in Hc.
        lia. }
    destruct Hsk as (_ & _ & ->).
    destruct (rep_layout i o reps gf (range reps) (next s)) as [rep n2].
    cbn [fst snd] in *.
    destruct swr; simpl in Hfix |- *.
    + destruct rep; unfold raise, ret in Hfix; inversion Hfix; subst.
      reflexivity.
    + unfold ret in Hfix; inversion Hfix; subst. reflexivity.
Qed.

(** The loop under "init weights" never fails and allocates nothing. *)
Lemma init_weights_total ms : forall (s : Store T),
  exists s', Xception.init_weights ms s = (Ok tt, s') /\ next s' = next s.
Proof.
  induction ms as [|m ms IH]; intros s; simpl.
  - exists s. split; reflexivity.
  - unfold bind at 1.
    destruct m as [c|b|]; simpl;
      unfold bind, read, write, ret; simpl;
      match goal with
      | |- context [Xception.init_weights ms ?s1] =>
          destruct (IH s1) as (s' & Hs' & Hn); exists s'; rewrite Hs';
          split; [reflexivity|exact Hn]
      end.
Qed.
End Layouts.

Ltac next_call H Hc :=
  apply bind_Ok_inv in H;
  let a := fresh "m" in
  let s1 := fresh "s" in
  destruct H as (a & s1 & Hc & H); cbv beta zeta in H.

Ltac conv_built H :=
  let Hc := fresh "Hc" in
  next_call H Hc; apply Conv2d_init_inv in Hc;
  destruct Hc as (? & _ & -> & ->).

Ltac bn_built H :=
  let Hc := fresh "Hc" in
  next_call H Hc; apply BatchNorm2d_init_inv in Hc;
  destruct Hc as (? & ? & _ & _ & -> & ->).

Ltac sep_built H :=
  let Hc := fresh "Hc" in
  next_call H Hc; apply SeparableConv2d_init_inv in Hc;
  destruct Hc as (? & ? & _ & _ & -> & ->).

Ltac block_built H Hb :=
  next_call H Hb; apply Block_init_layout in Hb; cbn [next] in Hb.

Lemma Xception_init_layout {T E : Type} {F : Framework T E}
      nc ic dr gp (s : Store T) m s' :
  Xception.init nc ic dr gp s = (Ok m, s') ->
  Xception_layout nc ic dr gp (next s) = Some (m, next s').
Proof.
  unfold Xception.init. intros H. cbv beta zeta in H.
  conv_built H. bn_built H. conv_built H. bn_built H.
  block_built H Hb1. block_built H Hb2. block_built H Hb3.
  block_built H Hb4. block_built H Hb5. block_built H Hb6.
  block_built H Hb7. block_built H Hb8. block_built H Hb9.
  block_built H Hb10. block_built H Hb11. block_built H Hb12.
  sep_built H. bn_built H. sep_built H. bn_built H.
  apply bind_Ok_inv in H. destruct H as (fc & sf & Hfc & H).
  apply Linear_init_inv in Hfc. destruct Hfc as (? & ? & _ & _ & -> & ->).
  apply bind_Ok_inv in H. destruct H as (u & sw & Hw & H).
  match type of Hw with Xception.init_weights ?ms ?s0 = _ =>
    destruct (init_weights_total ms s0) as (s'' & Hw' & Hn) end.
  rewrite Hw' in Hw. inversion Hw; subst s''; clear Hw Hw'.
  unfold ret in H. inversion H; subst; clear H.
  unfold Xception_layout. cbn [Nat.add].
  rewrite Hb1, Hb2, Hb3, Hb4, Hb5, Hb6, Hb7, Hb8, Hb9, Hb10, Hb11, Hb12.
  rewrite Hn. reflexivity.
Qed.

(** ** Channel compatibility of the stages *)

Lemma forward_features_runs_the_stages {T E : Type} {F : Framework T E}
      (m : Xception.t) (x : loc) :
  Xception.forward_features (T := T) m x = run_stages (stages m) x.
Proof. reflexivity. Qed.

(** C6.  In a constructed [Xception], the stages of [forward_features] fit
    one another: starting from [in_chans] channels, every stage is given the
    number of channels it was built for, and the counts are 32, 64 after the
    stem, 128, 256, 728 after block1..block3, 728 after each of
    block4..block11, 1024 after block12, then 1536 and
    2048 = [num_features]. *)
Theorem consecutive_stages_are_channel_compatible
        {T E : Type} {F : Framework T E}
        (num_classes in_chans : Z) (drop_rate : Q)
        (global_pool : String.string) (s0 s1 : Store T) (m : Xception.t) :
  Xception.init num_classes in_chans drop_rate global_pool s0 = (Ok m, s1) ->
  (forall x, Xception.forward_features (T := T) m x = run_stages (stages m) x) /\
  channel_trace (stages m) in_chans =
  Some [32; 32; 32; 64; 64; 64;
        128; 256; 728;
        728; 728; 728; 728; 728; 728; 728; 728;
        1024;
        1536; 1536; 1536; 2048; 2048; 2048] /\
  Xception.num_features m = 2048 /\
  Linear.in_features (Xception.fc m) = Xception.num_features m.
Proof.
  intros H. apply Xception_init_layout in H.
  split; [intros x; reflexivity|].
  generalize dependent (next s0). intros n H.
  vm_compute in H. inversion H; subst m; clear H.
  split; [|split; reflexivity].
  cbn [stages channel_trace stage_channels Xception.conv1].
  unfold conv_channels at 1. cbn [Conv2d.in_channels Conv2d.out_channels].
  rewrite Z.eqb_refl. reflexivity.
Qed.

Lemma consecutive_stages_witness :
  exists m s1,
    xception (F := Scalar_framework) Scalar.empty = (Ok m, s1) /\
    channel_trace (stages m) 3 =
    Some [32; 32; 32; 64; 64; 64;
          128; 256; 728;
          728; 728; 728; 728; 728; 728; 728; 728;
          1024;
          1536; 1536; 1536; 2048; 2048; 2048].
Proof.
  eexists. eexists. split.
  - vm_compute. reflexivity.
  - eapply (consecutive_stages_are_channel_compatible
              (F := Scalar_framework) 1000 3 0%Q "avg"%string Scalar.empty).
    vm_compute. reflexivity.
Defined.

(** ** Where the batch normalisations sit *)

(** C4 as stated fails: the batch normalisation that ends a block's [rep]
    is read by the block's max-pooling (block1, with strides 2) or by the
    residual addition (block4, with strides 1), and [skipbn] by the residual
    addition, not by a ReLU. *)
Lemma last_batch_norm_of_rep_is_not_followed_by_relu :
  holds Term.bn_between_conv_and_relu
        (features_term 1000 3 0%Q "avg"%string) = false /\
  match block_term 64 128 2 2 false true with
  | Ok (Term.AddOp (Term.MaxPoolOp (Term.BatchNormOp _ _ _ _) 3 2 1)
                   (Term.BatchNormOp (Term.Conv2dOp _ _ _ 2 0 1 1) _ _ _)) =>
      True
  | _ => False
  end /\
  match block_term 728 728 3 1 true true with
  | Ok (Term.AddOp (Term.BatchNormOp _ _ _ _) (Term.Var _)) => True
  | _ => False
  end.
Proof.
  split; [vm_compute; reflexivity|]. split; vm_compute; exact I.
Qed.

(** C4, amended.  In the constructed network every batch normalisation
    reads the output of a convolution.  The operation that reads its output
    is a ReLU for [bn1], ..., [bn4] and for every batch normalisation of a
    block's [rep] but the last one; the last one is read by the block's
    max-pooling when [strides != 1] and by the residual addition otherwise,
    and [skipbn] is read by the residual addition.  These are all the
    batch normalisations of the network. *)
Theorem batch_norm_follows_convolution
        (num_classes in_chans : Z) (drop_rate : Q)
        (global_pool : String.string) :
  match Xception.init (F := Term_framework) num_classes in_chans drop_rate
                      global_pool Term.empty with
  | (Ok m, s) => holds (network_placement m) (features_flow m (next s)) = true
  | (Raise _, _) => False
  end.
Proof. vm_compute. reflexivity. Qed.

(** ** Xception.forward *)

Ltac split_below :=
  repeat match goal with
         | H : below _ (_ ++ _) |- _ =>
             apply below_app in H; destruct H
         end.

Ltac split_Forall :=
  repeat match goal with
         | H : Forall _ (_ :: _) |- _ => inversion H; subst; clear H
         end.

Ltac module_run :=
  first [ apply Conv2d_run | apply BatchNorm2d_run | apply Block_run
        | apply SeparableConv2d_run | apply Linear_run
        | apply ReLU_run; [ | |right] ];
  try assumption; try lia.

Section XceptionRuns.
Context {T E : Type} {F : Framework T E}.

Lemma Xception_features_run b m0 (s : Store T) m x :
  (b <= next s)%nat -> agrees b m0 s ->
  below b (Xception.parameters m) ->
  Forall (fun blk => starts_out_of_place (Block.rep blk)) (Xception.blocks m) ->
  run_spec b m0 s (Xception.forward_features m x)
           (Xception.features_eval m0 m (mem s x)).
Proof.
  intros Hb Ha Hp Hblk.
  unfold Xception.parameters, Xception.blocks in Hp, Hblk.
  cbn [flat_map] in Hp.
  split_below. split_Forall.
  unfold Xception.forward_features, Xception.features_eval.
  do 23 (apply run_bind; [module_run|intros ? ? _ ? ? ? _]).
  apply run_bind_ret. module_run.
Qed.

Lemma run_size b m0 (s : Store T) x i (k : Z -> M T E loc)
      (k' : Z -> result E T) :
  (b <= next s)%nat -> agrees b m0 s ->
  (forall z, size (mem s x) i = Ok z -> run_spec b m0 s (k z) (k' z)) ->
  run_spec b m0 s (v <- read x ;; n <- call (size v i) ;; k n)
           (n <~ size (mem s x) i ;; k' n).
Proof.
  intros Hb Ha Hk. unfold run_spec at 1. unfold bind, read, call. simpl.
  destruct (size (mem s x) i) as [z|e] eqn:Hz; simpl.
  - apply (Hk z eq_refl).
  - repeat split; auto.
Qed.

Lemma Xception_forward_run b m0 (s : Store T) m x :
  (b <= next s)%nat -> agrees b m0 s ->
  below b (Xception.parameters m) ->
  Forall (fun blk => starts_out_of_place (Block.rep blk)) (Xception.blocks m) ->
  run_spec b m0 s (Xception.forward m x) (Xception.eval m0 m (mem s x)).
Proof.
  intros Hb Ha Hp Hblk.
  unfold Xception.forward, Xception.eval.
  apply run_bind; [now apply Xception_features_run|].
  intros l s1 _ Hn1 Ha1 Hl1 _. unfold Xception.head_eval.
  apply run_size; [lia|assumption|]. intros k _.
  apply run_bind;
    [apply (functional_run_spec b m0 s1 (fun v => avg_pool2d v k) l);
     [lia|assumption]|].
  intros l2 s2 _ Hn2 Ha2 Hl2 _.
  apply run_bind.
  { destruct (negb (Qle_bool (Xception.drop_rate m) 0)).
    - apply (functional_run_spec b m0 s2
               (fun v => dropout v (Xception.drop_rate m)
                                 (Xception.training m)) l2);
        [lia|assumption].
    - now apply run_ret. }
  intros l3 s3 _ Hn3 Ha3 Hl3 _.
  apply run_size; [lia|assumption|]. intros n _.
  apply run_bind;
    [apply (functional_run_spec b m0 s3 (fun v => view v [n; -1]) l3);
     [lia|assumption]|].
  intros l4 s4 _ Hn4 Ha4 Hl4 _.
  apply run_bind_ret. apply Linear_run; [lia|assumption|].
  unfold Xception.parameters in Hp. split_below. assumption.
Qed.
End XceptionRuns.

(** ** What Xception.__init__ guarantees *)

Lemma below_consecutive (n k : nat) :
  below (k + n)%nat (map (fun j => (j + n)%nat) (seq 0 k)).
Proof.
  unfold below. apply Forall_forall. intros l Hl.
  apply in_map_iff in Hl. destruct Hl as (j & <- & Hj).
  apply in_seq in Hj. lia.
Qed.

Lemma Xception_layout_wf nc ic dr gp n m n' mode :
  Xception_layout nc ic dr gp n = Some (m, n') ->
  below n' (Xception.parameters (Xception.train mode m)) /\
  Forall (fun blk => starts_out_of_place (Block.rep blk))
         (Xception.blocks (Xception.train mode m)) /\
  Xception.train true m = m /\
  Xception.drop_rate (Xception.train mode m) = dr /\
  Xception.num_classes (Xception.train mode m) = nc /\
  Xception.training (Xception.train mode m) = mode /\
  Xception.fc (Xception.train mode m) = Xception.fc m /\
  Linear.in_features (Xception.fc m) = 2048 /\
  Linear.out_features (Xception.fc m) = nc /\
  BatchNorm2d.num_features (Xception.bn4 (Xception.train mode m)) = 2048.
Proof.
  intros H. vm_compute in H. inversion H; subst m n'; clear H.
  split.
  - exact (below_consecutive n 156%nat).
  - split; [|repeat split].
    repeat constructor.
Qed.

Lemma Xception_init_wf {T E : Type} {F : Framework T E}
      nc ic dr gp (s0 s1 : Store T) m mode :
  Xception.init nc ic dr gp s0 = (Ok m, s1) ->
  below (next s1) (Xception.parameters (Xception.train mode m)) /\
  Forall (fun blk => starts_out_of_place (Block.rep blk))
         (Xception.blocks (Xception.train mode m)) /\
  Xception.parameters (Xception.train mode m) = Xception.parameters m.
Proof.
  intros H. apply Xception_init_layout in H.
  destruct (Xception_layout_wf _ _ _ _ _ _ _ mode H) as (Hp & Hb & _).
  split; [exact Hp|]. split; [exact Hb|].
  generalize dependent (next s0). generalize dependent (next s1).
  intros n' Hp n H. vm_compute in H. inversion H; subst m n'; clear H.
  reflexivity.
Qed.

(** ** Parameter shapes after construction *)

Lemma Shape_new_tensor_inv sh w :
  Shape.new_tensor sh = Ok w -> w = sh.
Proof.
  unfold Shape.new_tensor. destruct (forallb _ sh); intros H; inversion H.
  reflexivity.
Qed.

Lemma Shape_conv_weight_inv i o k g w :
  Shape.conv_weight i o k g = Ok w -> w = [o; i / g; k; k].
Proof.
  unfold Shape.conv_weight.
  destruct (g <=? 0); [intros H; inversion H|].
  destruct (negb (i mod g =? 0)); [intros H; inversion H|].
  destruct (negb (o mod g =? 0)); [intros H; inversion H|].
  apply Shape_new_tensor_inv.
Qed.

Lemma conv_shaped_extends s s' c :
  extends s s' -> conv_shaped s c -> conv_shaped s' c.
Proof.
  intros [Hn Ha] (Hl & Hb & Hw). unfold conv_shaped.
  rewrite (Ha _ Hl). repeat split; auto. lia.
Qed.

Lemma bn_shaped_extends s s' c :
  extends s s' -> bn_shaped s c -> bn_shaped s' c.
Proof.
  intros [Hn Ha] (Hl & Hl' & Hw & Hb). unfold bn_shaped.
  rewrite (Ha _ Hl), (Ha _ Hl'). repeat split; auto; lia.
Qed.

Lemma linear_shaped_extends s s' c :
  extends s s' -> linear_shaped s c -> linear_shaped s' c.
Proof.
  intros [Hn Ha] (Hl & Hl' & Hw & Hb). unfold linear_shaped.
  rewrite (Ha _ Hl), (Ha _ Hl'). repeat split; auto; lia.
Qed.

Lemma sep_shaped_extends s s' c :
  extends s s' -> sep_shaped s c -> sep_shaped s' c.
Proof.
  intros X [H1 H2]. split; eapply conv_shaped_extends; eauto.
Qed.

Lemma item_shaped_extends s s' i :
  extends s s' -> item_shaped s i -> item_shaped s' i.
Proof.
  intros X H. destruct i; simpl in *; auto.
  - eapply sep_shaped_extends; eauto.
  - eapply bn_shaped_extends; eauto.
Qed.

Lemma items_shaped_extends s s' rep :
  extends s s' -> Forall (item_shaped s) rep -> Forall (item_shaped s') rep.
Proof.
  intros X H. eapply Forall_impl; [|exact H].
  intros i. now apply item_shaped_extends.
Qed.

Lemma block_shaped_extends s s' b :
  extends s s' -> block_shaped s b -> block_shaped s' b.
Proof.
  intros X [Hs Hr]. split.
  - destruct (Block.skip b) as [[conv bn]|]; [|exact I].
    destruct Hs. split;
      [eapply conv_shaped_extends|eapply bn_shaped_extends]; eauto.
  - eapply items_shaped_extends; eauto.
Qed.

Lemma Conv2d_init_shaped i o k st p d g (s : Store Shape.t) c s' :
  Conv2d.init i o k st p d g false s = (Ok c, s') -> conv_shaped s' c.
Proof.
  intros H. apply Conv2d_init_inv in H. destruct H as (w & Hw & -> & ->).
  apply Shape_conv_weight_inv in Hw. subst w.
  unfold conv_shaped. simpl. rewrite upd_same. repeat split. lia.
Qed.

Lemma BatchNorm2d_init_shaped n (s : Store Shape.t) c s' :
  BatchNorm2d.init n s = (Ok c, s') -> bn_shaped s' c.
Proof.
  intros H. apply BatchNorm2d_init_inv in H.
  destruct H as (w & b & Hw & Hb & -> & ->).
  apply Shape_new_tensor_inv in Hw, Hb. subst w b.
  unfold bn_shaped. simpl. rewrite upd_same.
  rewrite upd_other by lia. rewrite upd_same. repeat split; lia.
Qed.

Lemma Linear_init_shaped i o (s : Store Shape.t) c s' :
  Linear.init i o s = (Ok c, s') -> linear_shaped s' c.
Proof.
  intros H. apply Linear_init_inv in H.
  destruct H as (w & b & Hw & Hb & -> & ->).
  apply Shape_new_tensor_inv in Hw, Hb. subst w b.
  unfold linear_shaped. simpl. rewrite upd_same.
  rewrite upd_other by lia. rewrite upd_same. repeat split; lia.
Qed.

Lemma SeparableConv2d_init_shaped i o k st p d (s : Store Shape.t) c s' :
  SeparableConv2d.init i o k st p d s = (Ok c, s') -> sep_shaped s' c.
Proof.
  unfold SeparableConv2d.init. intros H.
  apply bind_Ok_inv in H. destruct H as (c1 & s1 & H1 & H).
  apply bind_Ok_inv in H. destruct H as (c2 & s2 & H2 & H).
  unfold ret in H. inversion H; subst; clear H.
  apply Conv2d_init_spec in H2 as X2. destruct X2 as [X2 _].
  apply Conv2d_init_shaped in H1, H2.
  split; simpl; [eapply conv_shaped_extends; eauto|exact H2].
Qed.

Lemma rep_loop_shaped i o reps gf : forall idx acc (s : Store Shape.t) rep s',
  Block.rep_loop i o reps gf idx acc s = (Ok rep, s') ->
  Forall (item_shaped s) acc -> Forall (item_shaped s') rep.
Proof.
  induction idx as [|j idx IH]; intros acc s rep s' H Hacc; simpl in H.
  - unfold ret in H. inversion H; subst. exact Hacc.
  - apply bind_Ok_inv in H. destruct H as (sep & s1 & H1 & H).
    apply bind_Ok_inv in H. destruct H as (bn & s2 & H2 & H).
    apply SeparableConv2d_init_spec in H1 as X1. destruct X1 as [X1 _].
    apply BatchNorm2d_init_spec in H2 as X2. destruct X2 as [X2 _].
    apply SeparableConv2d_init_shaped in H1.
    apply BatchNorm2d_init_shaped in H2.
    eapply IH; [exact H|].
    apply Forall_app. split.
    + eapply items_shaped_extends; [|exact Hacc].
      eapply extends_trans; eauto.
    + constructor; [exact I|].
      constructor; [simpl; eapply sep_shaped_extends; [exact X2|exact H1]|].
      constructor; [exact H2|constructor].
Qed.

Lemma Block_init_shaped i o reps st swr gf (s : Store Shape.t) blk s' :
  Block.init i o reps st swr gf s = (Ok blk, s') -> block_shaped s' blk.
Proof.
  unfold Block.init. intros H.
  apply bind_Ok_inv in H. destruct H as (sk & s1 & Hsk & H).
  apply bind_Ok_inv in H. destruct H as (rep & s2 & Hloop & H).
  apply bind_Ok_inv in H. destruct H as (rep' & s3 & Hfix & H).
  unfold ret in H. inversion H; subst blk s'; clear H.
  apply rep_loop_spec in Hloop as X2. destruct X2 as [X2 _].
  apply rep_loop_shaped in Hloop; [|constructor].
  assert (Hrep : s3 = s2 /\ Forall (item_shaped s2) rep').
  { destruct swr; simpl in Hfix.
    - destruct rep as [|hd tl]; unfold raise, ret in Hfix;
        inversion Hfix; subst. split; [reflexivity|].
      inversion Hloop; subst. constructor; [exact I|assumption].
    - unfold ret in Hfix. inversion Hfix; subst. split; [reflexivity|].
      destruct rep; simpl; [constructor|]. now inversion Hloop. }
  destruct Hrep as [-> Hrep]. split; simpl.
  - destruct (negb (o =? i) || negb (st =? 1)).
    + apply bind_Ok_inv in Hsk. destruct Hsk as (c & sa & Hc & Hsk).
      apply bind_Ok_inv in Hsk. destruct Hsk as (b & sb & Hb & Hsk).
      unfold ret in Hsk. inversion Hsk; subst; clear Hsk.
      apply BatchNorm2d_init_spec in Hb as Xb. destruct Xb as [Xb _].
      apply Conv2d_init_shaped in Hc. apply BatchNorm2d_init_shaped in Hb.
      split.
      * eapply conv_shaped_extends; [|exact Hc].
        eapply extends_trans; eauto.
      * eapply bn_shaped_extends; eauto.
    + unfold ret in Hsk. inversion Hsk; subst. exact I.
  - destruct (negb (st =? 1)); [|exact Hrep].
    apply Forall_app. split; [exact Hrep|]. repeat constructor.
Qed.

(** In the shape instance the weight initialisers keep every shape. *)
Lemma Shape_init_weights ms : forall (s : Store Shape.t),
  exists s', Xception.init_weights ms s = (Ok tt, s') /\ extends s s'.
Proof.
  induction ms as [|m ms IH]; intros s; simpl.
  - exists s. split; [reflexivity|apply extends_refl].
  - unfold bind at 1.
    destruct m as [c|b|]; simpl; unfold bind, read, write, ret; simpl.
    + match goal with |- context [Xception.init_weights ms ?s1] =>
        destruct (IH s1) as (s' & Hs' & X) end.
      exists s'. rewrite Hs'. split; [reflexivity|].
      eapply extends_trans; [|exact X].
      split; simpl; [lia|]. intros l _. unfold upd. cbn.
      destruct (Nat.eqb_spec l (Conv2d.weight c)); [subst|]; reflexivity.
    + match goal with |- context [Xception.init_weights ms ?s1] =>
        destruct (IH s1) as (s' & Hs' & X) end.
      exists s'. rewrite Hs'. split; [reflexivity|].
      eapply extends_trans; [|exact X].
      split; simpl; [lia|]. intros l _. unfold upd. cbn.
      destruct (Nat.eqb_spec l (BatchNorm2d.bias b)) as [->|Hb].
      * destruct (Nat.eqb_spec (BatchNorm2d.bias b) (BatchNorm2d.weight b))
          as [Hw|Hw]; [rewrite <- Hw|]; reflexivity.
      * destruct (Nat.eqb_spec l (BatchNorm2d.weight b)) as [->|Hw];
          reflexivity.
    + destruct (IH s) as (s' & Hs' & X). exists s'. rewrite Hs'. auto.
Qed.

Ltac carry X :=
  repeat match goal with
         | H : conv_shaped ?s _ |- _ =>
             match type of X with extends s _ =>
               apply (conv_shaped_extends _ _ _ X) in H end
         | H : bn_shaped ?s _ |- _ =>
             match type of X with extends s _ =>
               apply (bn_shaped_extends _ _ _ X) in H end
         | H : sep_shaped ?s _ |- _ =>
             match type of X with extends s _ =>
               apply (sep_shaped_extends _ _ _ X) in H end
         | H : block_shaped ?s _ |- _ =>
             match type of X with extends s _ =>
               apply (block_shaped_extends _ _ _ X) in H end
         | H : linear_shaped ?s _ |- _ =>
             match type of X with extends s _ =>
               apply (linear_shaped_extends _ _ _ X) in H end
         end.

Ltac shaped_step H spec shaped :=
  let Hc := fresh "Hc" in
  let X := fresh "X" in
  next_call H Hc;
  pose proof (spec _ _ _ Hc) as X; apply proj1 in X; carry X; clear X;
  apply shaped in Hc.

Lemma Xception_init_shaped nc ic dr gp (s0 s1 : Store Shape.t) m :
  Xception.init nc ic dr gp s0 = (Ok m, s1) -> xception_shaped s1 m.
Proof.
  unfold Xception.init. intros H. cbv beta zeta in H.
  shaped_step H (Conv2d_init_spec (F := Shape_framework) ic 32 3 2 0 1 1)
              Conv2d_init_shaped.
  shaped_step H (BatchNorm2d_init_spec (F := Shape_framework) 32)
              BatchNorm2d_init_shaped.
  shaped_step H (Conv2d_init_spec (F := Shape_framework) 32 64 3 1 0 1 1)
              Conv2d_init_shaped.
  shaped_step H (BatchNorm2d_init_spec (F := Shape_framework) 64)
              BatchNorm2d_init_shaped.
  shaped_step H (Block_init_spec (F := Shape_framework) 64 128 2 2 false true)
              Block_init_shaped.
  shaped_step H (Block_init_spec (F := Shape_framework) 128 256 2 2 true true)
              Block_init_shaped.
  shaped_step H (Block_init_spec (F := Shape_framework) 256 728 2 2 true true)
              Block_init_shaped.
  do 8 shaped_step H (Block_init_spec (F := Shape_framework)
                                      728 728 3 1 true true)
       Block_init_shaped.
  shaped_step H (Block_init_spec (F := Shape_framework) 728 1024 2 2 true false)
              Block_init_shaped.
  shaped_step H (SeparableConv2d_init_spec (F := Shape_framework)
                                           1024 1536 3 1 1 1)
              SeparableConv2d_init_shaped.
  shaped_step H (BatchNorm2d_init_spec (F := Shape_framework) 1536)
              BatchNorm2d_init_shaped.
  shaped_step H (SeparableConv2d_init_spec (F := Shape_framework)
                                           1536 2048 3 1 1 1)
              SeparableConv2d_init_shaped.
  shaped_step H (BatchNorm2d_init_spec (F := Shape_framework) 2048)
              BatchNorm2d_init_shaped.
  shaped_step H (Linear_init_spec (F := Shape_framework) 2048 nc)
              Linear_init_shaped.
  apply bind_Ok_inv in H. destruct H as (u & sw & Hw & H).
  match type of Hw with Xception.init_weights ?ms ?s = _ =>
    destruct (Shape_init_weights ms s) as (s'' & Hw' & X) end.
  rewrite Hw' in Hw. inversion Hw; subst s''; clear Hw Hw'.
  carry X. unfold ret in H. inversion H; subst; clear H.
  unfold xception_shaped, Xception.blocks.
  cbn -[conv_shaped bn_shaped sep_shaped block_shaped linear_shaped].
  repeat match goal with |- _ /\ _ => split end; try assumption.
  repeat (constructor; [assumption|]). constructor.
Qed.

(** ** Shapes through the layers *)










Section Batch.
Variable m0 : loc -> Shape.t.








End Batch.

(** ** The classifier head *)








(** ** Shapes the layers produce *)

Ltac decide_tests :=
  repeat (match goal with
          | |- context [?a <=? ?b] => destruct (Z.leb_spec a b)
          | |- context [?a <? ?b] => destruct (Z.ltb_spec a b)
          | |- context [?a =? ?b] => destruct (Z.eqb_spec a b)
          end; cbn [orb andb negb]; try lia).

Lemma conv_out_same_3 h : Shape.conv_out h 3 1 1 1 = h.
Proof. unfold Shape.conv_out. rewrite Z.div_1_r. lia. Qed.

Lemma conv_out_same_1 h : Shape.conv_out h 1 1 0 1 = h.
Proof. unfold Shape.conv_out. rewrite Z.div_1_r. lia. Qed.

Lemma conv_out_skip h st : Shape.conv_out h 1 st 0 1 = Shape.pool_out h 3 st 1.
Proof. unfold Shape.conv_out, Shape.pool_out. do 2 f_equal. lia. Qed.

Lemma pool_out_same h : Shape.pool_out h 3 1 1 = h.
Proof. unfold Shape.pool_out. rewrite Z.div_1_r. lia. Qed.

Lemma pool_out_halves h :
  1 <= h -> 1 <= Shape.pool_out h 3 2 1 <= h.
Proof.
  intros Hh. unfold Shape.pool_out.
  pose proof (Z.div_mod (h + 2 * 1 - 3) 2 ltac:(lia)).
  pose proof (Z.mod_pos_bound (h + 2 * 1 - 3) 2 ltac:(lia)). lia.
Qed.

Lemma pool_out_window w k : 1 <= k -> Shape.pool_out w k k 0 = w / k.
Proof.
  intros Hk. unfold Shape.pool_out.
  replace (w + 2 * 0 - k) with (w + (-1) * k) by lia.
  rewrite Z.div_add by lia. lia.
Qed.

Lemma bn_fits_before tr N h w h' w' :
  1 <= N -> 1 <= h' <= h -> 1 <= w' <= w ->
  bn_fits tr N h' w' -> bn_fits tr N h w.
Proof.
  unfold bn_fits. intros HN Hh Hw Hfit Htr Hone.
  assert (HNh : N * h = 1 /\ w = 1).
  { apply Z.eq_mul_1_nonneg in Hone; nia. }
  destruct HNh as [HNh ->].
  apply Z.eq_mul_1_nonneg in HNh; try lia.
  destruct HNh as [-> ->].
  assert (h' = 1) by lia. assert (w' = 1) by lia. subst.
  exact (Hfit eq_refl eq_refl).
Qed.

Lemma Conv2d_eval_ok s c N C h w :
  conv_shaped s c ->
  Conv2d.dilation c = 1 -> 1 <= Conv2d.stride c -> 0 <= Conv2d.padding c ->
  1 <= Conv2d.groups c -> 1 <= Conv2d.kernel_size c ->
  C = Conv2d.in_channels c / Conv2d.groups c * Conv2d.groups c ->
  Conv2d.kernel_size c <= h + 2 * Conv2d.padding c ->
  Conv2d.kernel_size c <= w + 2 * Conv2d.padding c ->
  Conv2d.eval (mem s) c [N; C; h; w] =
  Ok [N; Conv2d.out_channels c;
      Shape.conv_out h (Conv2d.kernel_size c) (Conv2d.stride c)
                     (Conv2d.padding c) 1;
      Shape.conv_out w (Conv2d.kernel_size c) (Conv2d.stride c)
                     (Conv2d.padding c) 1].
Proof.
  intros (_ & Hb & Hw) Hd Hs Hp Hg Hk HC Hkh Hkw.
  unfold Conv2d.eval. rewrite Hw, Hb, Hd. cbn [option_map conv2d Shape_framework].
  unfold Shape.conv2d. rewrite <- HC.
  decide_tests. reflexivity.
Qed.

Lemma BatchNorm2d_eval_ok s b N C h w :
  bn_shaped s b -> C = BatchNorm2d.num_features b ->
  bn_fits (BatchNorm2d.training b) N h w ->
  BatchNorm2d.eval (mem s) b [N; C; h; w] = Ok [N; C; h; w].
Proof.
  intros (_ & _ & Hw & Hb) -> Hfit.
  unfold BatchNorm2d.eval. rewrite Hw, Hb. cbn [batch_norm Shape_framework].
  unfold Shape.batch_norm. rewrite Z.eqb_refl. cbn [andb negb].
  destruct (BatchNorm2d.training b); [|reflexivity].
  destruct (Z.eqb_spec (N * h * w) 1) as [Hone|_]; [|reflexivity].
  now destruct (Hfit eq_refl).
Qed.

Lemma MaxPool2d_eval_ok st N C h w :
  1 <= h -> 1 <= w -> st = 1 \/ st = 2 ->
  MaxPool2d.eval (F := Shape_framework) (MaxPool2d.mk 3 st 1) [N; C; h; w] =
  Ok [N; C; Shape.pool_out h 3 st 1; Shape.pool_out w 3 st 1].
Proof.
  intros Hh Hw Hst. unfold MaxPool2d.eval.
  cbn [max_pool2d Shape_framework MaxPool2d.kernel_size MaxPool2d.stride
       MaxPool2d.padding].
  unfold Shape.max_pool2d.
  assert (1 <= Shape.pool_out h 3 st 1 /\ 1 <= Shape.pool_out w 3 st 1)
    as [Hph Hpw].
  { destruct Hst as [-> | ->].
    - rewrite !pool_out_same. lia.
    - split; now apply pool_out_halves. }
  change (3 / 2) with 1.
  decide_tests. reflexivity.
Qed.

Lemma broadcasts_onto_self l : Shape.broadcasts_onto l l = true.
Proof.
  induction l as [|a l IH]; [reflexivity|]. simpl.
  rewrite Z.eqb_refl, orb_true_r. exact IH.
Qed.

Lemma add_ok (x : Shape.t) : add_ (Framework := Shape_framework) x x = Ok x.
Proof.
  cbn [add_ Shape_framework]. unfold Shape.add_.
  now rewrite broadcasts_onto_self.
Qed.

Lemma SeparableConv2d_eval_ok s c N C h w :
  sep_shaped s c ->
  1 <= C ->
  Conv2d.in_channels (SeparableConv2d.conv1 c) = C ->
  Conv2d.groups (SeparableConv2d.conv1 c) = C ->
  Conv2d.out_channels (SeparableConv2d.conv1 c) = C ->
  Conv2d.in_channels (SeparableConv2d.pointwise c) = C ->
  Conv2d.groups (SeparableConv2d.pointwise c) = 1 ->
  (Conv2d.kernel_size (SeparableConv2d.conv1 c),
   Conv2d.stride (SeparableConv2d.conv1 c),
   Conv2d.padding (SeparableConv2d.conv1 c),
   Conv2d.dilation (SeparableConv2d.conv1 c)) = (3, 1, 1, 1) ->
  (Conv2d.kernel_size (SeparableConv2d.pointwise c),
   Conv2d.stride (SeparableConv2d.pointwise c),
   Conv2d.padding (SeparableConv2d.pointwise c),
   Conv2d.dilation (SeparableConv2d.pointwise c)) = (1, 1, 0, 1) ->
  1 <= h -> 1 <= w ->
  SeparableConv2d.eval (mem s) c [N; C; h; w] =
  Ok [N; Conv2d.out_channels (SeparableConv2d.pointwise c); h; w].
Proof.
  intros (H1 & H2) HC Hi1 Hg1 Ho1 Hi2 Hg2 Hk1 Hk2 Hh Hw.
  assert (Ek : Conv2d.kernel_size (SeparableConv2d.conv1 c) = 3)
    by congruence.
  assert (Es : Conv2d.stride (SeparableConv2d.conv1 c) = 1) by congruence.
  assert (Ep : Conv2d.padding (SeparableConv2d.conv1 c) = 1) by congruence.
  assert (Ed : Conv2d.dilation (SeparableConv2d.conv1 c) = 1) by congruence.
  assert (Ek' : Conv2d.kernel_size (SeparableConv2d.pointwise c) = 1)
    by congruence.
  assert (Es' : Conv2d.stride (SeparableConv2d.pointwise c) = 1)
    by congruence.
  assert (Ep' : Conv2d.padding (SeparableConv2d.pointwise c) = 0)
    by congruence.
  assert (Ed' : Conv2d.dilation (SeparableConv2d.pointwise c) = 1)
    by congruence.
  clear Hk1 Hk2.
  unfold SeparableConv2d.eval.
  rewrite (Conv2d_eval_ok s _ N C h w H1); try lia.
  - cbn [rbind]. rewrite Ho1, Ek, Es, Ep, !conv_out_same_3.
    rewrite (Conv2d_eval_ok s _ N C h w H2); try lia.
    + rewrite Ek', Es', Ep', !conv_out_same_1. reflexivity.
    + rewrite Hi2, Hg2, Z.div_1_r. lia.
  - rewrite Hi1, Hg1, Z.div_same by lia. lia.
Qed.

(** ** Shapes the blocks produce *)

Ltac side_condition :=
  first [ assumption | reflexivity | lia
        | (cbn [Conv2d.in_channels Conv2d.kernel_size Conv2d.stride
                Conv2d.padding Conv2d.dilation Conv2d.groups]; lia)
        | (cbn [Conv2d.in_channels Conv2d.groups];
           rewrite Z.div_1_r; lia)
        | (left; reflexivity)
        | (right; reflexivity) ].

Ltac shape_step :=
  match goal with
  | |- context [ReLU.eval ?r [?N; ?C; ?h; ?w]] =>
      change (ReLU.eval r [N; C; h; w])
        with (Ok [N; C; h; w] : result Shape.error Shape.t)
  | |- context [SeparableConv2d.eval (mem ?s) ?c [?N; ?C; ?h; ?w]] =>
      rewrite (SeparableConv2d_eval_ok s c N C h w) by side_condition
  | |- context [BatchNorm2d.eval (mem ?s) ?b [?N; ?C; ?h; ?w]] =>
      rewrite (BatchNorm2d_eval_ok s b N C h w) by side_condition
  | |- context [MaxPool2d.eval (MaxPool2d.mk 3 ?st 1) [?N; ?C; ?h; ?w]] =>
      rewrite (MaxPool2d_eval_ok st N C h w) by side_condition
  | |- context [Conv2d.eval (mem ?s) ?c [?N; ?C; ?h; ?w]] =>
      rewrite (Conv2d_eval_ok s c N C h w) by side_condition
  end;
  cbn [rbind Conv2d.out_channels Conv2d.kernel_size Conv2d.stride
       Conv2d.padding SeparableConv2d.pointwise];
  rewrite ?conv_out_skip.

Ltac split_shaped :=
  repeat match goal with
         | H : Forall _ (_ :: _) |- _ => inversion H; clear H; subst
         | H : Forall _ [] |- _ => clear H
         | H : item_shaped _ _ |- _ => cbn [item_shaped] in H
         | H : _ /\ _ |- _ => destruct H
         | H : True |- _ => clear H
         end.

Lemma Block_eval_ok s mode i o reps st swr gf n blk n' N h w :
  (i, o, reps, st, swr, gf) = (64, 128, 2, 2, false, true) \/
  (i, o, reps, st, swr, gf) = (128, 256, 2, 2, true, true) \/
  (i, o, reps, st, swr, gf) = (256, 728, 2, 2, true, true) \/
  (i, o, reps, st, swr, gf) = (728, 728, 3, 1, true, true) \/
  (i, o, reps, st, swr, gf) = (728, 1024, 2, 2, true, false) ->
  Block_layout i o reps st swr gf n = Some (blk, n') ->
  block_shaped s blk ->
  1 <= N -> 1 <= h -> 1 <= w ->
  bn_fits mode N (Shape.pool_out h 3 st 1) (Shape.pool_out w 3 st 1) ->
  Block.eval (mem s) (Block.train mode blk) [N; i; h; w] =
  Ok [N; o; Shape.pool_out h 3 st 1; Shape.pool_out w 3 st 1].
Proof.
  intros Hcfg Hl Hsh HN Hh Hw Hfit.
  assert (Hfit0 : bn_fits mode N h w).
  { assert (st = 1 \/ st = 2) as [-> | ->]
        by (repeat destruct Hcfg as [Hcfg|Hcfg]; inversion Hcfg; auto).
    - now rewrite !pool_out_same in Hfit.
    - apply (bn_fits_before mode N h w _ _ HN (pool_out_halves h Hh)
                            (pool_out_halves w Hw) Hfit). }
  repeat destruct Hcfg as [Hcfg|Hcfg];
    inversion Hcfg; subst i o reps st swr gf; clear Hcfg;
    vm_compute in Hl; inversion Hl; subst blk n'; clear Hl;
    unfold block_shaped in Hsh; cbn [Block.skip Block.rep] in Hsh;
    split_shaped;
    unfold Block.eval, Block.skip_eval;
    cbn [Block.train Block.rep Block.skip Sequential.train map
         Sequential.item_train Sequential.eval Sequential.item_eval
         BatchNorm2d.train BatchNorm2d.num_features BatchNorm2d.weight
         BatchNorm2d.bias];
    repeat shape_step;
    rewrite ?pool_out_same; apply add_ok.
Qed.

(** ** The shape of the feature map *)

Lemma conv_out_conv1 H : 7 <= H -> 3 <= Shape.conv_out H 3 2 0 1 <= H.
Proof.
  intros HH. unfold Shape.conv_out.
  pose proof (Z.div_mod (H + 2 * 0 - 1 * (3 - 1) - 1) 2 ltac:(lia)).
  pose proof (Z.mod_pos_bound (H + 2 * 0 - 1 * (3 - 1) - 1) 2 ltac:(lia)).
  lia.
Qed.

Lemma conv_out_conv2 h : 3 <= h -> 1 <= Shape.conv_out h 3 1 0 1 <= h.
Proof. intros Hh. unfold Shape.conv_out. rewrite Z.div_1_r. lia. Qed.

Lemma feature_map_size_bounds H :
  7 <= H ->
  let h1 := Shape.conv_out H 3 2 0 1 in
  let h2 := Shape.conv_out h1 3 1 0 1 in
  let h3 := Shape.pool_out h2 3 2 1 in
  let h4 := Shape.pool_out h3 3 2 1 in
  let h5 := Shape.pool_out h4 3 2 1 in
  let h6 := Shape.pool_out h5 3 2 1 in
  3 <= h1 <= H /\ 1 <= h2 <= h1 /\ 1 <= h3 <= h2 /\ 1 <= h4 <= h3 /\
  1 <= h5 <= h4 /\ 1 <= h6 <= h5.
Proof.
  intros HH h1 h2 h3 h4 h5 h6.
  assert (B1 := conv_out_conv1 H HH). fold h1 in B1.
  assert (B2 := conv_out_conv2 h1 (proj1 B1)). fold h2 in B2.
  assert (B3 := pool_out_halves h2 (proj1 B2)). fold h3 in B3.
  assert (B4 := pool_out_halves h3 (proj1 B3)). fold h4 in B4.
  assert (B5 := pool_out_halves h4 (proj1 B4)). fold h5 in B5.
  assert (B6 := pool_out_halves h5 (proj1 B5)). fold h6 in B6.
  tauto.
Qed.

Lemma feature_map_size_eq H :
  feature_map_size H =
  Shape.pool_out
    (Shape.pool_out
       (Shape.pool_out
          (Shape.pool_out
             (Shape.conv_out (Shape.conv_out H 3 2 0 1) 3 1 0 1) 3 2 1)
          3 2 1)
       3 2 1)
    3 2 1.
Proof. reflexivity. Qed.

Lemma feature_map_size_pos H : 7 <= H -> 1 <= feature_map_size H.
Proof.
  intros HH. destruct (feature_map_size_bounds H HH) as (_ & _ & _ & _ & _ & B).
  exact (proj1 B).
Qed.

Ltac config :=
  first [ reflexivity | left; reflexivity | right; config ].

Ltac block_step :=
  match goal with
  | El : Block_layout ?i ?o ?r ?st ?a ?g ?k = Some (?blk, ?k')
    |- context [Block.eval (mem ?s) (Block.train ?mode ?blk)
                           [?N; ?C; ?h; ?w]] =>
      rewrite (Block_eval_ok s mode i o r st a g k blk k' N h w)
        by first [ assumption | lia
                 | (rewrite !pool_out_same; assumption) | config ]
  end;
  cbn [rbind]; rewrite ?pool_out_same.

Lemma features_eval_ok nc ic dr gp n m n' s mode N H W :
  Xception_layout nc ic dr gp n = Some (m, n') ->
  xception_shaped s m ->
  1 <= N -> 7 <= H -> 7 <= W ->
  bn_fits mode N (feature_map_size H) (feature_map_size W) ->
  Xception.features_eval (mem s) (Xception.train mode m) [N; ic; H; W] =
  Ok [N; 2048; feature_map_size H; feature_map_size W].
Proof.
  unfold Xception_layout. intros Hl Hsh HN HH HW Hfit6.
  repeat match type of Hl with
         | match Block_layout ?i ?o ?r ?st ?a ?g ?k with _ => _ end = _ =>
             let E := fresh "El" in
             revert Hl;
             destruct (Block_layout i o r st a g k) as [[? ?]|] eqn:E;
             intros Hl; [|discriminate Hl]
         end.
  cbv zeta in Hl. inversion Hl; subst m n'; clear Hl.
  unfold xception_shaped, Xception.blocks in Hsh.
  cbn [Xception.conv1 Xception.bn1 Xception.conv2 Xception.bn2
       Xception.block1 Xception.block2 Xception.block3 Xception.block4
       Xception.block5 Xception.block6 Xception.block7 Xception.block8
       Xception.block9 Xception.block10 Xception.block11 Xception.block12
       Xception.conv3 Xception.bn3 Xception.conv4 Xception.bn4 Xception.fc]
    in Hsh.
  split_shaped.
  rewrite !feature_map_size_eq in Hfit6 |- *.
  destruct (feature_map_size_bounds H HH) as (Bh1 & Bh2 & Bh3 & Bh4 & Bh5 & Bh6).
  destruct (feature_map_size_bounds W HW) as (Bw1 & Bw2 & Bw3 & Bw4 & Bw5 & Bw6).
  cbv zeta in *.
  assert (Hfit5 := bn_fits_before mode N _ _ _ _ HN Bh6 Bw6 Hfit6).
  assert (Hfit4 := bn_fits_before mode N _ _ _ _ HN Bh5 Bw5 Hfit5).
  assert (Hfit3 := bn_fits_before mode N _ _ _ _ HN Bh4 Bw4 Hfit4).
  assert (Hfit2 := bn_fits_before mode N _ _ _ _ HN Bh3 Bw3 Hfit3).
  assert (Hfit1 : bn_fits mode N (Shape.conv_out H 3 2 0 1)
                          (Shape.conv_out W 3 2 0 1)).
  { apply (bn_fits_before mode N _ _ _ _ HN) with (3 := Hfit2); lia. }
  unfold Xception.features_eval.
  cbn [Xception.train
       Xception.conv1 Xception.bn1 Xception.act1 Xception.conv2 Xception.bn2
       Xception.act2
       Xception.block1 Xception.block2 Xception.block3 Xception.block4
       Xception.block5 Xception.block6 Xception.block7 Xception.block8
       Xception.block9 Xception.block10 Xception.block11 Xception.block12
       Xception.conv3 Xception.bn3 Xception.act3 Xception.conv4 Xception.bn4
       Xception.act4
       BatchNorm2d.train BatchNorm2d.num_features BatchNorm2d.weight
       BatchNorm2d.bias].
  do 6 shape_step.
  do 12 block_step.
  repeat shape_step.
  reflexivity.
Qed.

(** ** The head on a feature map *)

Lemma run_Ok {T E : Type} {F : Framework T E} b m0 (s : Store T)
      (c : M T E loc) v :
  run_spec b m0 s c (Ok v) ->
  exists l s', c s = (Ok l, s') /\ mem s' l = v.
Proof.
  unfold run_spec. destruct (c s) as [[l|[e|]] s'].
  - intros (_ & _ & _ & H). inversion H. eauto.
  - intros (_ & _ & H). discriminate H.
  - contradiction.
Qed.

Lemma xception_shaped_extends s s' m :
  extends s s' -> xception_shaped s m -> xception_shaped s' m.
Proof.
  intros X (H1 & H2 & H3 & H4 & H5 & H6 & H7 & H8 & H9 & H10).
  unfold xception_shaped.
  repeat match goal with |- _ /\ _ => split end;
    eauto using conv_shaped_extends, bn_shaped_extends, sep_shaped_extends,
                linear_shaped_extends.
  eapply Forall_impl; [|exact H5].
  intros b Hb. now apply (block_shaped_extends _ _ _ X).
Qed.

Lemma dropout_ok (x : Shape.t) p tr :
  Qle_bool p 0 = false -> Qle_bool p 1 = true -> Shape.dropout x p tr = Ok x.
Proof.
  intros H0 H1. unfold Shape.dropout.
  assert (Hp : Qle_bool 0 p = true).
  { apply Qle_bool_iff. apply Qlt_le_weak. apply Qnot_le_lt.
    intros Hle. apply Qle_bool_iff in Hle. congruence. }
  now rewrite Hp, H1.
Qed.

Lemma view_flat_ok N c a b :
  1 <= N -> Shape.view [N; c; a; b] [N; -1] = Ok [N; c * a * b].
Proof.
  intros HN. unfold Shape.view. cbn [filter].
  destruct (Z.eqb_spec N (-1)) as [|_]; [lia|].
  change (-1 =? -1) with true. cbn [negb length Nat.sub forallb andb map].
  destruct (Z.leb_spec 0 N); [|lia]. cbn [negb].
  destruct (Z.eqb_spec N (-1)) as [|_]; [lia|].
  change (-1 =? -1) with true. unfold Shape.numel. cbn [fold_right].
  replace (N * (c * (a * (b * 1)))) with (c * a * b * (N * 1)) by ring.
  destruct (Z.eqb_spec (N * 1) 0); [lia|].
  rewrite Z.mod_mul, Z.div_mul by lia. reflexivity.
Qed.

Lemma linear_flat_ok N q o :
  Shape.linear [N; q] [o; 2048] [o] =
  if q =? 2048 then Ok [N; o] else Raise Shape.RuntimeError.
Proof.
  unfold Shape.linear. cbn [rev app]. rewrite Z.eqb_refl, andb_true_r.
  reflexivity.
Qed.

(** The head pools with a square window of the feature map's height: it
    goes through exactly when the window fits the width once. *)
Lemma head_eval_ok s m nc N h w :
  linear_shaped s (Xception.fc m) ->
  Linear.in_features (Xception.fc m) = 2048 ->
  Linear.out_features (Xception.fc m) = nc ->
  Qle_bool (Xception.drop_rate m) 1 = true ->
  1 <= N -> 1 <= h -> 1 <= w ->
  Xception.head_eval (mem s) m [N; 2048; h; w] =
  if (h <=? w) && (w <? 2 * h) then Ok [N; nc]
  else Raise Shape.RuntimeError.
Proof.
  intros (_ & _ & Hwt & Hbs) Hin Hout Hdr HN Hh Hw.
  unfold Xception.head_eval, Linear.eval.
  rewrite Hwt, Hbs, Hin, Hout.
  cbn [size avg_pool2d dropout view linear Shape_framework].
  unfold Shape.size at 1. cbn [nth_error rbind].
  unfold Shape.avg_pool2d.
  rewrite !pool_out_window by lia. rewrite Z.div_same by lia.
  destruct (Z.leb_spec h 0); [lia|].
  change (1 <? 1) with false. cbn [orb].
  destruct (Z.leb_spec h w) as [Hle|Hlt].
  - assert (Hq : 1 <= w / h) by (apply Z.div_le_lower_bound; lia).
    destruct (Z.ltb_spec (w / h) 1); [lia|]. cbn [rbind andb].
    destruct (Qle_bool (Xception.drop_rate m) 0) eqn:Hz; cbn [negb];
      [|rewrite (dropout_ok _ _ _ Hz Hdr)];
      cbn [rbind]; unfold Shape.size; cbn [nth_error rbind];
      rewrite view_flat_ok by lia; cbn [rbind]; rewrite linear_flat_ok;
      (destruct (Z.ltb_spec w (2 * h)) as [Hlt|Hge];
       [ assert (w / h = 1) as ->
           by (symmetry; apply (Z.div_unique w h 1 (w - h)); lia);
         reflexivity
       | assert (2 <= w / h) by (apply Z.div_le_lower_bound; lia);
         destruct (Z.eqb_spec (2048 * 1 * (w / h)) 2048);
         [lia|reflexivity] ]).
  - rewrite Z.div_small by lia. reflexivity.
Qed.

(** ** The shape [forward] returns *)

(** C10 as stated fails in its last part: a feature map that is wider than
    it is high, but less than twice as wide, goes through the head.  On a
    batch of one 299x400 image the feature map is 10x13; the pooling window
    of 10x10 fits it once, the pooled map is 1x1 and [fc] returns 1000
    scores. *)
Lemma head_accepts_a_non_square_feature_map :
  exists m s1 out s',
    xception (F := Shape_framework) Shape.empty = (Ok m, s1) /\
    let s := mkStore (S (next s1))
                     (upd (mem s1) (next s1) [1; 3; 299; 400]) in
    value_of (Xception.forward_features m (next s1) s)
    = Ok [1; 2048; 10; 13] /\
    10 <> 13 /\
    Xception.head_eval (mem s) m [1; 2048; 10; 13] = Ok [1; 1000] /\
    Xception.forward m (next s1) s = (Ok out, s') /\
    mem s' out = [1; 1000].
Proof.
  eexists. eexists. eexists. eexists.
  split; [vm_compute; reflexivity|].
  cbv zeta.
  split; [vm_compute; reflexivity|].
  split; [discriminate|].
  split; [vm_compute; reflexivity|].
  split; vm_compute; reflexivity.
Qed.

(** C10, amended.  Take a constructed [Xception], in training or evaluation
    mode, and a batch of [N >= 1] inputs of height [H >= 7] and width
    [W >= 7] with [in_chans] channels; let [drop_rate <= 1] and, in training
    mode, let the feature map give batch normalisation more than one value
    per channel.  Then [forward_features] returns a feature map of shape
    [(N, 2048, Hf, Wf)] with [Hf = feature_map_size H] and
    [Wf = feature_map_size W].  For square inputs the pooling window
    [Hf x Hf] covers the map, the pooled map is 1x1, the flatten hands
    2048 values per batch element to [fc], and [forward] returns a tensor
    of shape [(N, num_classes)].  For any input, [forward] returns a tensor
    of that shape when [Hf <= Wf < 2 * Hf], the window covering the first
    [Hf] columns only, and raises the framework's error otherwise. *)
Theorem forward_returns_one_score_per_class :
  forall nc ic dr gp (s0 s1 s : Store Shape.t) m mode x N H W,
    Xception.init nc ic dr gp s0 = (Ok m, s1) ->
    extends s1 s ->
    mem s x = [N; ic; H; W] ->
    1 <= N -> 7 <= H -> 7 <= W ->
    Qle_bool dr 1 = true ->
    bn_fits mode N (feature_map_size H) (feature_map_size W) ->
    let m' := Xception.train mode m in
    let Hf := feature_map_size H in
    let Wf := feature_map_size W in
    (1 <= Hf /\ 1 <= Wf /\
     Xception.features_eval (mem s) m' (mem s x) = Ok [N; 2048; Hf; Wf]) /\
    (W = H ->
     Shape.avg_pool2d [N; 2048; Hf; Wf] Hf = Ok [N; 2048; 1; 1] /\
     Shape.view [N; 2048; 1; 1] [N; -1] = Ok [N; 2048] /\
     exists out s',
       Xception.forward m' x s = (Ok out, s') /\ mem s' out = [N; nc]) /\
    (Hf <= Wf < 2 * Hf ->
     exists out s',
       Xception.forward m' x s = (Ok out, s') /\ mem s' out = [N; nc]) /\
    (Wf < Hf \/ 2 * Hf <= Wf ->
     value_of (Xception.forward m' x s)
     = Raise (FrameworkError Shape.RuntimeError)).
Proof.
  intros nc ic dr gp s0 s1 s m mode x N H W Hinit Hext Hx HN HH HW Hdr Hfit
         m' Hf Wf.
  subst m'.
  assert (HHf : 1 <= Hf) by now apply feature_map_size_pos.
  assert (HWf : 1 <= Wf) by now apply feature_map_size_pos.
  assert (Hsh := xception_shaped_extends _ _ _ Hext
                   (Xception_init_shaped _ _ _ _ _ _ _ Hinit)).
  destruct (Xception_init_wf nc ic dr gp s0 s1 m mode Hinit) as (Hp & Hb & _).
  assert (Hl := Xception_init_layout _ _ _ _ _ _ _ Hinit).
  destruct (Xception_layout_wf _ _ _ _ _ _ _ mode Hl)
    as (_ & _ & _ & Hdr' & _ & _ & Hfc & Hin & Hout & _).
  assert (Hfe : Xception.features_eval (mem s) (Xception.train mode m) (mem s x)
                = Ok [N; 2048; Hf; Wf]).
  { rewrite Hx.
    now apply (features_eval_ok nc ic dr gp (next s0) m (next s1) s mode). }
  assert (Hev : Xception.eval (mem s) (Xception.train mode m) (mem s x)
                = if (Hf <=? Wf) && (Wf <? 2 * Hf) then Ok [N; nc]
                  else Raise Shape.RuntimeError).
  { unfold Xception.eval. rewrite Hfe. cbn [rbind].
    apply head_eval_ok;
      [ now destruct Hsh as (_ & _ & _ & _ & _ & _ & _ & _ & _ & Hlin)
      | exact Hin | exact Hout | now rewrite Hdr' | assumption.. ]. }
  assert (Hrun := Xception_forward_run (next s) (mem s) s
                    (Xception.train mode m) x (le_n _)
                    (agrees_self s)
                    (below_le _ _ _ (proj1 Hext) Hp) Hb).
  rewrite Hev in Hrun.
  assert (Hgo : Hf <= Wf < 2 * Hf ->
                exists out s',
                  Xception.forward (Xception.train mode m) x s = (Ok out, s')
                  /\ mem s' out = [N; nc]).
  { intros [H1 H2].
    destruct (Z.leb_spec Hf Wf); [|lia].
    destruct (Z.ltb_spec Wf (2 * Hf)); [|lia].
    cbn [andb] in Hrun. now apply run_Ok in Hrun. }
  split; [auto|]. split; [|split; [exact Hgo|]].
  - intros ->. fold Hf in Wf. subst Wf. split; [|split].
    + unfold Shape.avg_pool2d. rewrite !pool_out_window by lia.
      rewrite Z.div_same by lia.
      destruct (Z.leb_spec Hf 0); [lia|]. reflexivity.
    + now rewrite view_flat_ok.
    + apply Hgo. lia.
  - intros Hbad.
    rewrite (run_value (next s) (mem s) s _ _ Hrun).
    destruct (Z.leb_spec Hf Wf); [|reflexivity].
    destruct (Z.ltb_spec Wf (2 * Hf)); [lia|reflexivity].
Qed.

Lemma forward_returns_one_score_per_class_witness :
  exists m s1 out s',
    Xception.init (F := Shape_framework) 1000 3 0%Q "avg"%string Shape.empty
    = (Ok m, s1) /\
    Xception.forward (Xception.train true m) (next s1)
      (mkStore (S (next s1)) (upd (mem s1) (next s1) [2; 3; 299; 299]))
    = (Ok out, s') /\
    mem s' out = [2; 1000].
Proof.
  eexists. eexists.
  match goal with
  | |- exists out s', ?A /\ _ =>
      assert (Hinit : A) by (vm_compute; reflexivity)
  end.
  match goal with
  | |- exists out s', _ /\ Xception.forward _ ?x ?s = _ /\ _ =>
      destruct (forward_returns_one_score_per_class
                  1000 3 0%Q "avg"%string Shape.empty _ s _ true x 2 299 299
                  Hinit (extends_alloc _ _)
                  ltac:(vm_compute; reflexivity)
                  ltac:(lia) ltac:(lia) ltac:(lia) eq_refl
                  ltac:(intros _; vm_compute; discriminate))
        as (_ & Hsq & _)
  end.
  destruct (Hsq eq_refl) as (_ & _ & out & s' & Hfwd & Hout).
  exists out, s'. split; [exact Hinit|]. split; [exact Hfwd|exact Hout].
Defined.

(** Batch normalisation in training mode is content with a batch of two or
    more inputs, or with inputs of height 39 or more, whose feature map has
    two rows at least. *)
Lemma pool_out_lower h k : 2 * k - 1 <= h -> k <= Shape.pool_out h 3 2 1.
Proof.
  intros Hh. unfold Shape.pool_out.
  assert (k - 1 <= (h + 2 * 1 - 3) / 2) by (apply Z.div_le_lower_bound; lia).
  lia.
Qed.

Lemma feature_map_size_two H : 39 <= H -> 2 <= feature_map_size H.
Proof.
  intros HH. rewrite feature_map_size_eq.
  assert (H1 : 19 <= Shape.conv_out H 3 2 0 1).
  { unfold Shape.conv_out.
    assert (18 <= (H + 2 * 0 - 1 * (3 - 1) - 1) / 2)
      by (apply Z.div_le_lower_bound; lia).
    lia. }
  assert (H2 : 17 <= Shape.conv_out (Shape.conv_out H 3 2 0 1) 3 1 0 1).
  { unfold Shape.conv_out at 1. rewrite Z.div_1_r. lia. }
  apply pool_out_lower, pool_out_lower, pool_out_lower, pool_out_lower.
  lia.
Qed.

Lemma bn_fits_when mode N H W :
  1 <= N -> 7 <= H -> 7 <= W ->
  mode = false \/ 2 <= N \/ 39 <= H ->
  bn_fits mode N (feature_map_size H) (feature_map_size W).
Proof.
  intros HN HH HW Hc Hmode Hone.
  pose proof (feature_map_size_pos H HH) as Hh.
  pose proof (feature_map_size_pos W HW) as Hw.
  destruct Hc as [Hc|[Hc|Hc]]; [congruence| |].
  - nia.
  - pose proof (feature_map_size_two H Hc). nia.
Qed.

(** * More of the constructors *)

(** ** Which exceptions a constructor raises *)

Section CreationFailures.
Context {T E : Type} {F : Framework T E}.

Lemma cfo_ret {A} (a : A) : creation_failures_only (ret a : M T E A).
Proof. intros s e s' H. inversion H. Qed.

Lemma cfo_alloc v : creation_failures_only (alloc v : M T E loc).
Proof. intros s e s' H. inversion H. Qed.

Lemma cfo_bind {A B} (c : M T E A) (k : A -> M T E B) :
  creation_failures_only c -> (forall a, creation_failures_only (k a)) ->
  creation_failures_only (bind c k).
Proof.
  intros Hc Hk s e s' H. unfold bind in H.
  destruct (c s) as [[a|e0] s1] eqn:Hcs.
  - eapply Hk; eauto.
  - inversion H; subst. eapply Hc; eauto.
Qed.

Lemma cfo_call {A} (r : result E A) :
  (forall e, r = Raise e -> raised_at_creation e) ->
  creation_failures_only (call r : M T E A).
Proof.
  intros Hr s e s' H. destruct r as [a|e0]; simpl in H; inversion H; subst.
  eauto.
Qed.
End CreationFailures.

Ltac cfo_step :=
  first
    [ apply cfo_ret | apply cfo_alloc
    | apply cfo_call; raised
    | apply cfo_bind; [|intros ?]
    | match goal with
      | |- creation_failures_only (if ?c then _ else _) => destruct c
      end ].

Section ConstructorFailures.
Context {T E : Type} {F : Framework T E}.

Lemma Conv2d_init_cfo i o k st p d g b :
  creation_failures_only (Conv2d.init (T := T) i o k st p d g b).
Proof. unfold Conv2d.init. repeat cfo_step. Qed.

Lemma BatchNorm2d_init_cfo n :
  creation_failures_only (BatchNorm2d.init (T := T) n).
Proof. unfold BatchNorm2d.init. repeat cfo_step. Qed.

Lemma Linear_init_cfo i o :
  creation_failures_only (Linear.init (T := T) i o).
Proof. unfold Linear.init. repeat cfo_step. Qed.

Lemma SeparableConv2d_init_cfo i o k st p d :
  creation_failures_only (SeparableConv2d.init (T := T) i o k st p d).
Proof.
  unfold SeparableConv2d.init.
  repeat first [ apply Conv2d_init_cfo | cfo_step ].
Qed.

Lemma rep_loop_cfo i o reps gf : forall idx acc,
  creation_failures_only (Block.rep_loop (T := T) i o reps gf idx acc).
Proof.
  induction idx as [|j idx IH]; intros acc; cbn [Block.rep_loop].
  - apply cfo_ret.
  - cbv zeta.
    repeat first [ apply SeparableConv2d_init_cfo | apply BatchNorm2d_init_cfo
                 | apply IH | cfo_step ].
Qed.

Lemma skip_init_cfo i o st :
  creation_failures_only
    (if negb (o =? i) || negb (st =? 1)
     then c <- Conv2d.init (T := T) i o 1 st 0 1 1 false ;;
          b <- BatchNorm2d.init o ;;
          ret (Some (c, b))
     else ret None).
Proof.
  repeat first [ apply Conv2d_init_cfo | apply BatchNorm2d_init_cfo
               | cfo_step ].
Qed.

(** The outcome of [Block.__init__], by what the skip branch and the loop
    did. *)
Lemma Block_init_cases i o reps st swr gf (s : Store T) :
  match Block.init i o reps st swr gf s with
  | (Ok blk, _) => swr = false \/ 1 <= reps
  | (Raise IndexError, s') =>
      reps <= 0 /\ swr = true /\ (o = i -> st = 1 -> s' = s)
  | (Raise (FrameworkError e), _) =>
      raised_at_creation e /\ (reps <= 0 -> o <> i \/ st <> 1)
  end.
Proof.
  unfold Block.init. unfold bind at 1.
  destruct ((if negb (o =? i) || negb (st =? 1)
             then c <- Conv2d.init i o 1 st 0 1 1 false ;;
                  b <- BatchNorm2d.init o ;; ret (Some (c, b))
             else ret None) s) as [[sk|e] s1] eqn:Hsk.
  - apply skip_init_spec in Hsk as Hsp.
    unfold bind at 1.
    destruct (Block.rep_loop i o reps gf (range reps) [] s1)
      as [[rep|e] s2] eqn:Hrep.
    + apply rep_loop_spec in Hrep as Hrs.
      destruct Hrs as (_ & tail & -> & _ & Htail). cbn [app] in *.
      destruct (Z.le_gt_cases reps 0) as [Hle|Hgt].
      * rewrite (range_nonpositive reps Hle) in *. subst tail.
        destruct swr; cbn [negb].
        -- unfold bind, raise. repeat split; auto.
           intros Hoi Hst. cbn [Block.rep_loop] in Hrep.
           unfold ret in Hrep. inversion Hrep; subst s2.
           destruct sk as [[c b]|].
           ++ destruct Hsp as (_ & [Hn|Hn] & _); contradiction.
           ++ now destruct Hsp as (_ & _ & _ & ->).
        -- unfold bind, ret. auto.
      * destruct (range_positive reps ltac:(lia)) as (rest & Hr).
        rewrite Hr in Htail. destruct Htail as (sep & bn & tail' & ->).
        destruct swr; cbn [negb tl]; unfold bind, ret; right; lia.
    + destruct (rep_loop_cfo _ _ _ _ _ _ _ _ _ Hrep) as (e' & -> & He').
      split; [exact He'|]. intros Hle.
      rewrite (range_nonpositive reps Hle) in Hrep.
      cbn [Block.rep_loop] in Hrep. discriminate Hrep.
  - destruct (skip_init_cfo _ _ _ _ _ _ Hsk) as (e' & -> & He').
    split; [exact He'|]. intros _.
    destruct (negb (o =? i) || negb (st =? 1)) eqn:Hc.
    + apply orb_true_iff in Hc. destruct Hc as [Hc|Hc];
        apply negb_true_iff in Hc;
        [left; now apply Z.eqb_neq | right; now apply Z.eqb_neq].
    + discriminate Hsk.
Qed.

Lemma Block_init_cfo i o reps st swr gf :
  1 <= reps \/ swr = false ->
  creation_failures_only (Block.init (T := T) i o reps st swr gf).
Proof.
  intros Hc s e s' H.
  pose proof (Block_init_cases i o reps st swr gf s) as Hcase.
  rewrite H in Hcase. destruct e as [e'|].
  - exists e'. split; [reflexivity|]. exact (proj1 Hcase).
  - destruct Hcase as (Hle & Hswr & _). destruct Hc; [lia|congruence].
Qed.

Lemma init_weights_cfo ms :
  creation_failures_only (Xception.init_weights (T := T) ms).
Proof.
  intros s e s' H.
  destruct (init_weights_total ms s) as (s1 & Hs1 & _). congruence.
Qed.

Lemma Xception_init_cfo nc ic dr gp :
  creation_failures_only (Xception.init (T := T) nc ic dr gp).
Proof.
  unfold Xception.init. cbv zeta.
  repeat first [ apply Conv2d_init_cfo | apply BatchNorm2d_init_cfo
               | apply Linear_init_cfo | apply SeparableConv2d_init_cfo
               | apply Block_init_cfo; (left; lia)
               | apply init_weights_cfo
               | cfo_step ].
Qed.
End ConstructorFailures.




(** X1.  [Block.__init__] with [reps <= 0] leaves the list [rep] empty.
    With [start_with_relu] the assignment [rep[0] = nn.ReLU(inplace=False)]
    then raises IndexError and no block is returned; when no skip branch is
    due (equal channel counts, stride 1) this happens before anything was
    created.  Without [start_with_relu] the slice [rep[1:]] of the empty
    list is empty and the block is returned with no layer but the pooling
    of a strided block.  With [reps >= 1] the constructor never raises
    IndexError: its only failures are those of parameter creation. *)
Theorem Block_init_without_repetitions
        {T E : Type} {F : Framework T E}
        (i o reps st : Z) (swr gf : bool) (s : Store T) :
  (reps <= 0 -> swr = true ->
   (forall blk s', Block.init i o reps st swr gf s <> (Ok blk, s')) /\
   (forall e s', Block.init i o reps st swr gf s = (Raise (FrameworkError e), s') ->
                 raised_at_creation e /\ (o <> i \/ st <> 1)) /\
   (o = i -> st = 1 ->
    Block.init i o reps st swr gf s = (Raise IndexError, s))) /\
  (reps <= 0 -> swr = false ->
   forall blk s', Block.init i o reps st swr gf s = (Ok blk, s') ->
                  Block.rep blk =
                  if st =? 1 then []
                  else [Sequential.OfMaxPool2d (MaxPool2d.mk 3 st 1)]) /\
  (1 <= reps ->
   forall e s', Block.init i o reps st swr gf s = (Raise e, s') ->
                exists e', e = FrameworkError e' /\ raised_at_creation e').
Proof.
  pose proof (Block_init_cases i o reps st swr gf s) as Hcase.
  split; [|split].
  - intros Hle ->. split; [|split].
    + intros blk s' H. rewrite H in Hcase. destruct Hcase; [discriminate|lia].
    + intros e s' H. rewrite H in Hcase. destruct Hcase as [He Hsk]. auto.
    + intros -> ->.
      destruct (Block.init i i reps 1 true gf s) as [[blk|[e|]] s1].
      * destruct Hcase; [discriminate|lia].
      * destruct Hcase as (_ & Hsk). destruct (Hsk Hle); congruence.
      * destruct Hcase as (_ & _ & Hs). now rewrite Hs.
  - intros Hle -> blk s' H.
    unfold Block.init in H.
    apply bind_Ok_inv in H. destruct H as (sk & s1 & _ & H).
    apply bind_Ok_inv in H. destruct H as (rep & s2 & Hrep & H).
    rewrite (range_nonpositive reps Hle) in Hrep.
    cbn [Block.rep_loop] in Hrep. unfold ret in Hrep.
    inversion Hrep; subst rep s2; clear Hrep.
    cbn [negb tl] in H. unfold bind, ret in H. inversion H; subst.
    cbn [Block.rep]. destruct (st =? 1); reflexivity.
  - intros Hge e s' H.
    exact (Block_init_cfo i o reps st swr gf (or_introl Hge) s e s' H).
Qed.

Lemma Block_init_without_repetitions_witness :
  Block.init (F := Scalar_framework) 8 8 0 1 true true Scalar.empty
  = (Raise IndexError, Scalar.empty).
Proof.
  apply (proj1 (Block_init_without_repetitions
                  (F := Scalar_framework) 8 8 0 1 true true Scalar.empty)
               ltac:(lia) eq_refl);
    reflexivity.
Defined.

(** X2.  [Xception.__init__] has no failure of its own: whatever it raises
    was raised by the creation of a parameter tensor of one of its layers;
    in particular it never raises the IndexError of [Block.__init__], all
    its blocks being built with [reps >= 2]. *)
Theorem Xception_init_failures_come_from_parameter_creation
        {T E : Type} {F : Framework T E}
        (nc ic : Z) (dr : Q) (gp : String.string) (s s' : Store T)
        (e : exn E) :
  Xception.init nc ic dr gp s = (Raise e, s') ->
  exists e', e = FrameworkError e' /\ raised_at_creation e'.
Proof. apply Xception_init_cfo. Qed.

Lemma Xception_init_failures_witness :
  exists e', FrameworkError Shape.RuntimeError = FrameworkError e' /\
             raised_at_creation (F := Shape_framework) e'.
Proof.
  apply (Xception_init_failures_come_from_parameter_creation
           (F := Shape_framework) 1000 (-1) 0%Q "avg"%string
           Shape.empty Shape.empty).
  vm_compute. reflexivity.
Defined.

(** ** The parameters of a constructed network *)

Lemma NoDup_consecutive (n k : nat) :
  NoDup (map (fun j => (j + n)%nat) (seq 0 k)).
Proof.
  generalize 0%nat. induction k as [|k IH]; intros a; cbn [seq map].
  - constructor.
  - constructor; [|apply IH].
    intros Hin. apply in_map_iff in Hin. destruct Hin as (j & Hj & Hin).
    apply in_seq in Hin. lia.
Qed.

(** X3.  [Xception.__init__] creates 156 parameter tensors, one after the
    other and in the order [parameters()] lists them: the weights of 74
    convolutions (none has a bias), weight and bias of 40 batch
    normalisations, weight and bias of [fc].  They are pairwise distinct
    tensors: no two layers share a parameter. *)
Theorem Xception_init_creates_156_parameters
        {T E : Type} {F : Framework T E}
        (nc ic : Z) (dr : Q) (gp : String.string) (s0 s1 : Store T)
        (m : Xception.t) :
  Xception.init nc ic dr gp s0 = (Ok m, s1) ->
  Xception.parameters m = map (fun j => (j + next s0)%nat) (seq 0 156) /\
  NoDup (Xception.parameters m) /\
  next s1 = (156 + next s0)%nat /\
  length (filter is_AConv2d (Xception.modules m)) = 74%nat /\
  length (filter is_ABatchNorm2d (Xception.modules m)) = 40%nat /\
  Forall (fun mo => match mo with
                    | AConv2d c => Conv2d.bias c = None
                    | _ => True
                    end) (Xception.modules m).
Proof.
  intros H. apply Xception_init_layout in H.
  generalize dependent (next s1). generalize dependent (next s0).
  intros n n' H. vm_compute in H. inversion H; subst m n'; clear H.
  split; [reflexivity|]. split; [exact (NoDup_consecutive n 156)|].
  split; [reflexivity|]. split; [reflexivity|]. split; [reflexivity|].
  apply Forall_forall. intros mo Hin.
  match type of Hin with
  | In _ ?ms =>
      assert (Hb : forallb (fun mo => match mo with
                                      | AConv2d c =>
                                          match Conv2d.bias c with
                                          | None => true
                                          | Some _ => false
                                          end
                                      | _ => true
                                      end) ms = true)
        by (vm_compute; reflexivity)
  end.
  rewrite forallb_forall in Hb. specialize (Hb mo Hin).
  destruct mo as [c| |]; auto.
  destruct (Conv2d.bias c); [discriminate Hb|reflexivity].
Qed.

Lemma Xception_init_creates_156_parameters_witness :
  exists m s1,
    xception (F := Shape_framework) Shape.empty = (Ok m, s1) /\
    length (Xception.parameters m) = 156%nat /\ next s1 = 156%nat.
Proof.
  eexists. eexists. split; [vm_compute; reflexivity|].
  match goal with
  | |- length (Xception.parameters ?m) = _ /\ next ?s = _ =>
      destruct (Xception_init_creates_156_parameters
                  (F := Shape_framework) 1000 3 0%Q "avg"%string
                  Shape.empty s m ltac:(vm_compute; reflexivity))
        as (Hp & _ & Hn & _)
  end.
  split; [|exact Hn].
  rewrite Hp, length_map, length_seq. reflexivity.
Defined.

(** ** The argument [global_pool] *)

(** X4.  [global_pool] is stored and never read: two networks built with
    different values of it from the same state are built alike (the same
    parameters are created, the same exception is raised if one is), and
    [forward] and [forward_features] do on the one what they do on the
    other; the head always pools with [F.avg_pool2d]. *)
Theorem global_pool_is_ignored
        {T E : Type} {F : Framework T E}
        (nc ic : Z) (dr : Q) (gp gp' : String.string) (s0 : Store T) :
  match Xception.init nc ic dr gp s0, Xception.init nc ic dr gp' s0 with
  | (Ok m, s1), (Ok m', s1') =>
      s1' = s1 /\
      Xception.global_pool m = gp /\ Xception.global_pool m' = gp' /\
      Xception.parameters m' = Xception.parameters m /\
      (forall x s, Xception.forward m' x s = Xception.forward m x s) /\
      (forall x s, Xception.forward_features m' x s
                   = Xception.forward_features m x s)
  | (Raise e, s1), (Raise e', s1') => e' = e /\ s1' = s1
  | _, _ => False
  end.
Proof.
  unfold Xception.init. cbv zeta. unfold bind.
  repeat match goal with
         | |- context [match ?c ?s with _ => _ end] =>
             lazymatch c with
             | Xception.init_weights _ => fail
             | _ => destruct (c s) as [[?|?] ?]; [|split; reflexivity]
             end
         end.
  unfold Xception.modules.
  cbn [Xception.conv1 Xception.bn1 Xception.conv2
       Xception.bn2 Xception.block1 Xception.block2 Xception.block3
       Xception.block4 Xception.block5 Xception.block6 Xception.block7
       Xception.block8 Xception.block9 Xception.block10 Xception.block11
       Xception.block12 Xception.conv3 Xception.bn3 Xception.conv4
       Xception.bn4 Xception.fc].
  match goal with
  | |- context [Xception.init_weights ?ms ?s] =>
      destruct (Xception.init_weights ms s) as [[[]|?] ?]
  end.
  - unfold ret. repeat split.
  - split; reflexivity.
Qed.

(** * Inputs that [forward] refuses *)

Lemma Xception_forward_value {T E : Type} {F : Framework T E}
      nc ic dr gp (s0 s1 s : Store T) m mode x :
  Xception.init nc ic dr gp s0 = (Ok m, s1) ->
  (next s1 <= next s)%nat ->
  value_of (Xception.forward (Xception.train mode m) x s) =
  framework (Xception.eval (mem s) (Xception.train mode m) (mem s x)).
Proof.
  intros Hinit Hn.
  destruct (Xception_init_wf nc ic dr gp s0 s1 m mode Hinit) as (Hp & Hb & _).
  apply (run_value (next s) (mem s)).
  apply Xception_forward_run;
    [apply le_n | apply agrees_self | exact (below_le _ _ _ Hn Hp) | exact Hb].
Qed.

Lemma Conv2d_eval_wrong_channels s c N C h w :
  conv_shaped s c ->
  Conv2d.dilation c = 1 -> 1 <= Conv2d.stride c -> 0 <= Conv2d.padding c ->
  1 <= Conv2d.groups c ->
  C <> Conv2d.in_channels c / Conv2d.groups c * Conv2d.groups c ->
  Conv2d.eval (mem s) c [N; C; h; w] = Raise Shape.RuntimeError.
Proof.
  intros (_ & Hb & Hw) Hd Hs Hp Hg HC.
  unfold Conv2d.eval. rewrite Hw, Hb, Hd.
  cbn [option_map conv2d Shape_framework]. unfold Shape.conv2d.
  decide_tests; reflexivity.
Qed.

Lemma Conv2d_eval_too_small s c N C h w :
  conv_shaped s c ->
  Conv2d.dilation c = 1 -> 1 <= Conv2d.stride c -> 0 <= Conv2d.padding c ->
  1 <= Conv2d.groups c ->
  h + 2 * Conv2d.padding c < Conv2d.kernel_size c \/
  w + 2 * Conv2d.padding c < Conv2d.kernel_size c ->
  Conv2d.eval (mem s) c [N; C; h; w] = Raise Shape.RuntimeError.
Proof.
  intros (_ & Hb & Hw) Hd Hs Hp Hg Hk.
  unfold Conv2d.eval. rewrite Hw, Hb, Hd.
  cbn [option_map conv2d Shape_framework]. unfold Shape.conv2d.
  decide_tests; reflexivity.
Qed.

Lemma BatchNorm2d_eval_one_value s b N C h w :
  bn_shaped s b -> C = BatchNorm2d.num_features b ->
  BatchNorm2d.training b = true -> N * h * w = 1 ->
  BatchNorm2d.eval (mem s) b [N; C; h; w] = Raise Shape.ValueError.
Proof.
  intros (_ & _ & Hw & Hb) -> Htr Hone.
  unfold BatchNorm2d.eval. rewrite Hw, Hb, Htr.
  cbn [batch_norm Shape_framework]. unfold Shape.batch_norm.
  rewrite Z.eqb_refl, Hone. reflexivity.
Qed.

Lemma bn_fits_dec mode N h w :
  bn_fits mode N h w \/ (mode = true /\ N * h * w = 1).
Proof.
  destruct mode; [|left; intros H; discriminate H].
  destruct (Z.eq_dec (N * h * w) 1) as [Hone|Hne]; [right; auto|].
  left. intros _. exact Hne.
Qed.

Ltac layout_blocks Hl :=
  unfold Xception_layout in Hl;
  repeat match type of Hl with
         | match Block_layout ?i ?o ?r ?st ?a ?g ?k with _ => _ end = _ =>
             let E := fresh "El" in
             revert Hl;
             destruct (Block_layout i o r st a g k) as [[? ?]|] eqn:E;
             intros Hl; [|discriminate Hl]
         end;
  cbv zeta in Hl.

Ltac shaped_parts Hsh :=
  unfold xception_shaped, Xception.blocks in Hsh;
  cbn [Xception.conv1 Xception.bn1 Xception.conv2 Xception.bn2
       Xception.block1 Xception.block2 Xception.block3 Xception.block4
       Xception.block5 Xception.block6 Xception.block7 Xception.block8
       Xception.block9 Xception.block10 Xception.block11 Xception.block12
       Xception.conv3 Xception.bn3 Xception.conv4 Xception.bn4 Xception.fc]
    in Hsh;
  split_shaped.

Ltac features_of_layout :=
  unfold Xception.features_eval;
  cbn [Xception.train
       Xception.conv1 Xception.bn1 Xception.act1 Xception.conv2 Xception.bn2
       Xception.act2
       Xception.block1 Xception.block2 Xception.block3 Xception.block4
       Xception.block5 Xception.block6 Xception.block7 Xception.block8
       Xception.block9 Xception.block10 Xception.block11 Xception.block12
       Xception.conv3 Xception.bn3 Xception.act3 Xception.conv4 Xception.bn4
       Xception.act4
       BatchNorm2d.train BatchNorm2d.num_features BatchNorm2d.weight
       BatchNorm2d.bias].

(** The stem on an input it refuses. *)
Lemma features_eval_refuses nc ic dr gp n m n' s mode N C H W :
  Xception_layout nc ic dr gp n = Some (m, n') ->
  xception_shaped s m ->
  C <> ic \/ H < 7 \/ W < 7 ->
  exists e,
    Xception.features_eval (mem s) (Xception.train mode m) [N; C; H; W]
    = Raise e /\
    (C <> ic \/ mode = false -> e = Shape.RuntimeError) /\
    (e = Shape.RuntimeError \/ e = Shape.ValueError).
Proof.
  intros Hl Hsh Hbad. layout_blocks Hl.
  inversion Hl; subst m n'; clear Hl.
  shaped_parts Hsh. features_of_layout.
  destruct (Z.eq_dec C ic) as [->|HC].
  2:{ rewrite Conv2d_eval_wrong_channels;
        [|assumption|reflexivity|cbn; lia|cbn; lia|cbn; lia|].
      - exists Shape.RuntimeError. cbn [rbind]. auto.
      - cbn [Conv2d.in_channels Conv2d.groups]. rewrite Z.div_1_r. lia. }
  assert (Hsmall : H < 7 \/ W < 7) by tauto. clear Hbad.
  destruct (Z.lt_ge_cases H 3) as [HH3|HH3];
    [|destruct (Z.lt_ge_cases W 3) as [HW3|HW3]].
  1,2: rewrite Conv2d_eval_too_small;
         [exists Shape.RuntimeError; cbn [rbind]; auto
         |assumption|reflexivity|cbn; lia|cbn; lia|cbn; lia|cbn; lia].
  shape_step.
  assert (Hc1 : Shape.conv_out H 3 2 0 1 < 3 \/ Shape.conv_out W 3 2 0 1 < 3).
  { unfold Shape.conv_out. destruct Hsmall as [Hs|Hs]; [left|right].
    - assert ((H + 2 * 0 - 1 * (3 - 1) - 1) / 2 < 2)
        by (apply Z.div_lt_upper_bound; lia).
      lia.
    - assert ((W + 2 * 0 - 1 * (3 - 1) - 1) / 2 < 2)
        by (apply Z.div_lt_upper_bound; lia).
      lia. }
  destruct (bn_fits_dec mode N (Shape.conv_out H 3 2 0 1)
                        (Shape.conv_out W 3 2 0 1)) as [Hfit|[-> Hone]].
  - do 2 shape_step.
    rewrite Conv2d_eval_too_small;
      [exists Shape.RuntimeError; cbn [rbind]; auto
      |assumption|reflexivity|cbn; lia|cbn; lia|cbn; lia|cbn; lia].
  - rewrite BatchNorm2d_eval_one_value;
      [|assumption|reflexivity|reflexivity|assumption].
    exists Shape.ValueError. cbn [rbind].
    split; [reflexivity|]. split; [|auto].
    intros [Hc|Hc]; [now elim Hc|discriminate Hc].
Qed.

(** X5.  [forward] on a batch whose channel count is not [in_chans] raises
    the framework's RuntimeError, at [conv1], whatever the batch size, the
    height and the width, in training and in evaluation mode. *)
Theorem forward_refuses_a_wrong_channel_count :
  forall nc ic dr gp (s0 s1 s : Store Shape.t) m mode x N C H W,
    Xception.init nc ic dr gp s0 = (Ok m, s1) ->
    extends s1 s ->
    mem s x = [N; C; H; W] ->
    C <> ic ->
    value_of (Xception.forward (Xception.train mode m) x s)
    = Raise (FrameworkError Shape.RuntimeError).
Proof.
  intros nc ic dr gp s0 s1 s m mode x N C H W Hinit Hext Hx HC.
  rewrite (Xception_forward_value nc ic dr gp s0 s1 s m mode x Hinit
             (proj1 Hext)).
  assert (Hsh := xception_shaped_extends _ _ _ Hext
                   (Xception_init_shaped _ _ _ _ _ _ _ Hinit)).
  assert (Hl := Xception_init_layout _ _ _ _ _ _ _ Hinit).
  destruct (features_eval_refuses nc ic dr gp _ m _ s mode N C H W Hl Hsh
              (or_introl HC)) as (e & He & Hrt & _).
  unfold Xception.eval. rewrite Hx, He. cbn [rbind framework].
  now rewrite (Hrt (or_introl HC)).
Qed.

Lemma forward_refuses_a_wrong_channel_count_witness :
  exists m s1,
    Xception.init (F := Shape_framework) 1000 3 0%Q "avg"%string Shape.empty
    = (Ok m, s1) /\
    value_of (Xception.forward (Xception.train false m) (next s1)
                (mkStore (S (next s1))
                         (upd (mem s1) (next s1) [1; 4; 299; 299])))
    = Raise (FrameworkError Shape.RuntimeError).
Proof.
  eexists. eexists.
  match goal with
  | |- ?A /\ _ => assert (Hinit : A) by (vm_compute; reflexivity)
  end.
  split; [exact Hinit|].
  match goal with
  | |- value_of (Xception.forward _ ?x ?s) = _ =>
      apply (forward_refuses_a_wrong_channel_count
               1000 3 0%Q "avg"%string Shape.empty _ s _ false x
               1 4 299 299 Hinit (extends_alloc _ _)
               ltac:(vm_compute; reflexivity) ltac:(lia))
  end.
Defined.

(** X6.  [forward] on inputs less than 7 high or less than 7 wide raises:
    the unpadded 3x3 convolutions [conv1] (stride 2) and [conv2] need 7
    rows and 7 columns between them.  In evaluation mode the exception is
    the RuntimeError of the convolution; in training mode the ValueError of
    [bn1], given a single value per channel, can come first. *)
Theorem forward_refuses_inputs_smaller_than_7 :
  forall nc ic dr gp (s0 s1 s : Store Shape.t) m mode x N H W,
    Xception.init nc ic dr gp s0 = (Ok m, s1) ->
    extends s1 s ->
    mem s x = [N; ic; H; W] ->
    H < 7 \/ W < 7 ->
    exists e,
      value_of (Xception.forward (Xception.train mode m) x s)
      = Raise (FrameworkError e) /\
      (mode = false -> e = Shape.RuntimeError) /\
      (e = Shape.RuntimeError \/ e = Shape.ValueError).
Proof.
  intros nc ic dr gp s0 s1 s m mode x N H W Hinit Hext Hx Hsmall.
  rewrite (Xception_forward_value nc ic dr gp s0 s1 s m mode x Hinit
             (proj1 Hext)).
  assert (Hsh := xception_shaped_extends _ _ _ Hext
                   (Xception_init_shaped _ _ _ _ _ _ _ Hinit)).
  assert (Hl := Xception_init_layout _ _ _ _ _ _ _ Hinit).
  destruct (features_eval_refuses nc ic dr gp _ m _ s mode N ic H W Hl Hsh
              (or_intror Hsmall)) as (e & He & Hrt & Hor).
  exists e. unfold Xception.eval. rewrite Hx, He. cbn [rbind framework].
  split; [reflexivity|]. split; [|exact Hor].
  intros Hm. apply Hrt. now right.
Qed.

Lemma forward_refuses_inputs_smaller_than_7_witness :
  exists m s1 e,
    Xception.init (F := Shape_framework) 1000 3 0%Q "avg"%string Shape.empty
    = (Ok m, s1) /\
    value_of (Xception.forward (Xception.train false m) (next s1)
                (mkStore (S (next s1))
                         (upd (mem s1) (next s1) [1; 3; 6; 299])))
    = Raise (FrameworkError e) /\
    e = Shape.RuntimeError.
Proof.
  eexists. eexists.
  match goal with
  | |- exists e, ?A /\ _ => assert (Hinit : A) by (vm_compute; reflexivity)
  end.
  match goal with
  | |- exists e, _ /\ value_of (Xception.forward _ ?x ?s) = _ /\ _ =>
      destruct (forward_refuses_inputs_smaller_than_7
                  1000 3 0%Q "avg"%string Shape.empty _ s _ false x
                  1 6 299 Hinit (extends_alloc _ _)
                  ltac:(vm_compute; reflexivity) ltac:(lia))
        as (e & Hv & Hrt & _)
  end.
  exists e. split; [exact Hinit|]. split; [exact Hv|exact (Hrt eq_refl)].
Defined.

(** ** The dropout rate *)

Lemma dropout_rejects (x : Shape.t) p tr :
  Qle_bool p 1 = false ->
  Qle_bool p 0 = false /\ Shape.dropout x p tr = Raise Shape.ValueError.
Proof.
  intros H1. split.
  - destruct (Qle_bool p 0) eqn:H0; [|reflexivity].
    apply Qle_bool_iff in H0.
    assert (Hle : (p <= 1)%Q) by (eapply Qle_trans; [exact H0|discriminate]).
    apply Qle_bool_iff in Hle. congruence.
  - unfold Shape.dropout. rewrite H1, andb_false_r. reflexivity.
Qed.

Lemma head_eval_rejects_drop_rate s m N h w :
  Qle_bool (Xception.drop_rate m) 1 = false ->
  1 <= N -> 1 <= h <= w ->
  Xception.head_eval (mem s) m [N; 2048; h; w] = Raise Shape.ValueError.
Proof.
  intros Hdr HN Hhw.
  destruct (dropout_rejects [N; 2048; 1; w / h] (Xception.drop_rate m)
                            (Xception.training m) Hdr) as [H0 Hd].
  unfold Xception.head_eval.
  cbn [size avg_pool2d dropout view linear Shape_framework].
  unfold Shape.size at 1. cbn [nth_error rbind].
  unfold Shape.avg_pool2d.
  rewrite !pool_out_window by lia. rewrite Z.div_same by lia.
  destruct (Z.leb_spec h 0); [lia|].
  change (1 <? 1) with false. cbn [orb].
  assert (Hq : 1 <= w / h) by (apply Z.div_le_lower_bound; lia).
  destruct (Z.ltb_spec (w / h) 1); [lia|]. cbn [rbind].
  rewrite H0. cbn [negb]. rewrite Hd. reflexivity.
Qed.

Lemma dropout_rejects_negative (x : Shape.t) p tr :
  Qle_bool 0 p = false ->
  Qle_bool p 0 = true /\ Qle_bool p 1 = true /\
  Shape.dropout x p tr = Raise Shape.ValueError.
Proof.
  intros H0.
  assert (Hlt : (p < 0)%Q).
  { apply Qnot_le_lt. intros Hle. apply Qle_bool_iff in Hle. congruence. }
  assert (Hle : (p <= 0)%Q) by now apply Qlt_le_weak.
  split; [now apply Qle_bool_iff|]. split.
  - apply Qle_bool_iff. eapply Qle_trans; [exact Hle|discriminate].
  - unfold Shape.dropout. rewrite H0. reflexivity.
Qed.

(** The value of [forward] on a batch the feature extractor accepts. *)
Lemma Xception_eval_ok nc ic dr gp (s0 s1 s : Store Shape.t) m mode N H W :
  Xception.init nc ic dr gp s0 = (Ok m, s1) ->
  extends s1 s ->
  1 <= N -> 7 <= H -> 7 <= W ->
  Qle_bool dr 1 = true ->
  bn_fits mode N (feature_map_size H) (feature_map_size W) ->
  Xception.eval (mem s) (Xception.train mode m) [N; ic; H; W] =
  if (feature_map_size H <=? feature_map_size W)
     && (feature_map_size W <? 2 * feature_map_size H)
  then Ok [N; nc] else Raise Shape.RuntimeError.
Proof.
  intros Hinit Hext HN HH HW Hdr Hfit.
  assert (Hsh := xception_shaped_extends _ _ _ Hext
                   (Xception_init_shaped _ _ _ _ _ _ _ Hinit)).
  assert (Hl := Xception_init_layout _ _ _ _ _ _ _ Hinit).
  destruct (Xception_layout_wf _ _ _ _ _ _ _ mode Hl)
    as (_ & _ & _ & Hdr' & _ & _ & Hfc & Hin & Hout & _).
  unfold Xception.eval.
  rewrite (features_eval_ok nc ic dr gp (next s0) m (next s1) s mode N H W)
    by assumption.
  cbn [rbind].
  apply head_eval_ok;
    [ now destruct Hsh as (_ & _ & _ & _ & _ & _ & _ & _ & _ & Hlin)
    | exact Hin | exact Hout | now rewrite Hdr' | assumption
    | now apply feature_map_size_pos | now apply feature_map_size_pos ].
Qed.

(** X7.  The dropout rate is checked by [F.dropout] only, and [F.dropout]
    is called only when [drop_rate > 0].  With [drop_rate > 1], [forward]
    raises the ValueError of [F.dropout] on every batch that gets as far
    as the dropout, in training and in evaluation mode alike.  A negative
    [drop_rate], which [F.dropout] would refuse as well, is not refused:
    [forward] returns its [(N, num_classes)] tensor as with no dropout. *)
Theorem forward_checks_the_drop_rate_above_one_only :
  forall nc ic dr gp (s0 s1 s : Store Shape.t) m mode x N H W,
    Xception.init nc ic dr gp s0 = (Ok m, s1) ->
    extends s1 s ->
    mem s x = [N; ic; H; W] ->
    1 <= N -> 7 <= H -> 7 <= W ->
    bn_fits mode N (feature_map_size H) (feature_map_size W) ->
    feature_map_size H <= feature_map_size W < 2 * feature_map_size H ->
    (Qle_bool dr 1 = false ->
     value_of (Xception.forward (Xception.train mode m) x s)
     = Raise (FrameworkError Shape.ValueError)) /\
    (Qle_bool 0 dr = false ->
     (forall v tr, Shape.dropout v dr tr = Raise Shape.ValueError) /\
     exists out s',
       Xception.forward (Xception.train mode m) x s = (Ok out, s') /\
       mem s' out = [N; nc]).
Proof.
  intros nc ic dr gp s0 s1 s m mode x N H W Hinit Hext Hx HN HH HW Hfit
         Hle.
  split.
  - intros Hdr.
    rewrite (Xception_forward_value nc ic dr gp s0 s1 s m mode x Hinit
               (proj1 Hext)).
    assert (Hsh := xception_shaped_extends _ _ _ Hext
                     (Xception_init_shaped _ _ _ _ _ _ _ Hinit)).
    assert (Hl := Xception_init_layout _ _ _ _ _ _ _ Hinit).
    destruct (Xception_layout_wf _ _ _ _ _ _ _ mode Hl)
      as (_ & _ & _ & Hdr' & _).
    unfold Xception.eval. rewrite Hx.
    rewrite (features_eval_ok nc ic dr gp (next s0) m (next s1) s mode N H W)
      by assumption.
    cbn [rbind].
    rewrite head_eval_rejects_drop_rate; [reflexivity| |assumption|].
    + now rewrite Hdr'.
    + split; [now apply feature_map_size_pos|exact (proj1 Hle)].
  - intros Hneg.
    destruct (dropout_rejects_negative [] dr false Hneg) as (_ & Hdr1 & _).
    split.
    + intros v tr.
      destruct (dropout_rejects_negative v dr tr Hneg) as (_ & _ & Hd).
      exact Hd.
    + destruct (Xception_init_wf nc ic dr gp s0 s1 m mode Hinit)
        as (Hp & Hb & _).
      assert (Hrun := Xception_forward_run (next s) (mem s) s
                        (Xception.train mode m) x (le_n _) (agrees_self s)
                        (below_le _ _ _ (proj1 Hext) Hp) Hb).
      rewrite Hx in Hrun.
      rewrite (Xception_eval_ok nc ic dr gp s0 s1 s m mode N H W) in Hrun
        by assumption.
      destruct (Z.leb_spec (feature_map_size H) (feature_map_size W));
        [|lia].
      destruct (Z.ltb_spec (feature_map_size W) (2 * feature_map_size H));
        [|lia].
      cbn [andb] in Hrun. apply run_Ok in Hrun. exact Hrun.
Qed.

Lemma forward_checks_the_drop_rate_witness :
  exists m s1,
    Xception.init (F := Shape_framework) 1000 3 (3 # 2)%Q "avg"%string
                  Shape.empty
    = (Ok m, s1) /\
    value_of (Xception.forward (Xception.train false m) (next s1)
                (mkStore (S (next s1))
                         (upd (mem s1) (next s1) [1; 3; 299; 299])))
    = Raise (FrameworkError Shape.ValueError).
Proof.
  eexists. eexists.
  match goal with
  | |- ?A /\ _ => assert (Hinit : A) by (vm_compute; reflexivity)
  end.
  split; [exact Hinit|].
  match goal with
  | |- value_of (Xception.forward _ ?x ?s) = _ =>
      apply (proj1 (forward_checks_the_drop_rate_above_one_only
                      1000 3 (3 # 2)%Q "avg"%string Shape.empty _ s _ false x
                      1 299 299 Hinit (extends_alloc _ _)
                      ltac:(vm_compute; reflexivity)
                      ltac:(lia) ltac:(lia) ltac:(lia)
                      ltac:(intros Hm; discriminate Hm)
                      ltac:(vm_compute; split; [discriminate|reflexivity]))
                   eq_refl)
  end.
Defined.

(** ** Training mode and a single value per channel *)

Lemma Block_eval_one_value s i o reps swr gf n blk n' N h w :
  (i, o, reps, swr, gf) = (64, 128, 2, false, true) \/
  (i, o, reps, swr, gf) = (128, 256, 2, true, true) \/
  (i, o, reps, swr, gf) = (256, 728, 2, true, true) \/
  (i, o, reps, swr, gf) = (728, 1024, 2, true, false) ->
  Block_layout i o reps 2 swr gf n = Some (blk, n') ->
  block_shaped s blk ->
  1 <= h -> 1 <= w ->
  bn_fits true N h w ->
  N * Shape.pool_out h 3 2 1 * Shape.pool_out w 3 2 1 = 1 ->
  Block.eval (mem s) (Block.train true blk) [N; i; h; w]
  = Raise Shape.ValueError.
Proof.
  intros Hcfg Hl Hsh Hh Hw Hfit0 Hone.
  repeat destruct Hcfg as [Hcfg|Hcfg];
    inversion Hcfg; subst i o reps swr gf; clear Hcfg;
    vm_compute in Hl; inversion Hl; subst blk n'; clear Hl;
    unfold block_shaped in Hsh; cbn [Block.skip Block.rep] in Hsh;
    split_shaped;
    unfold Block.eval, Block.skip_eval;
    cbn [Block.train Block.rep Block.skip Sequential.train map
         Sequential.item_train Sequential.eval Sequential.item_eval
         BatchNorm2d.train BatchNorm2d.num_features BatchNorm2d.weight
         BatchNorm2d.bias];
    repeat shape_step;
    (rewrite BatchNorm2d_eval_one_value;
     [reflexivity|assumption|reflexivity|reflexivity|assumption]).
Qed.

Ltac failing_block :=
  match goal with
  | El : Block_layout ?i ?o ?r 2 ?a ?g ?k = Some (?blk, ?k')
    |- context [Block.eval (mem ?s) (Block.train true ?blk)
                           [?N; ?C; ?h; ?w]] =>
      rewrite (Block_eval_one_value s i o r a g k blk k' N h w)
        by first [ assumption | lia | config ]
  end;
  cbn [rbind].

Lemma features_eval_one_value nc ic dr gp n m n' s N H W :
  Xception_layout nc ic dr gp n = Some (m, n') ->
  xception_shaped s m ->
  1 <= N -> 7 <= H -> 7 <= W ->
  N * feature_map_size H * feature_map_size W = 1 ->
  Xception.features_eval (mem s) (Xception.train true m) [N; ic; H; W]
  = Raise Shape.ValueError.
Proof.
  intros Hl Hsh HN HH HW Hone. layout_blocks Hl.
  inversion Hl; subst m n'; clear Hl.
  shaped_parts Hsh.
  rewrite !feature_map_size_eq in Hone.
  destruct (feature_map_size_bounds H HH) as (Bh1 & Bh2 & Bh3 & Bh4 & Bh5 & Bh6).
  destruct (feature_map_size_bounds W HW) as (Bw1 & Bw2 & Bw3 & Bw4 & Bw5 & Bw6).
  cbv zeta in *.
  assert (Hfit1 : bn_fits true N (Shape.conv_out H 3 2 0 1)
                          (Shape.conv_out W 3 2 0 1)).
  { intros _ Hc. apply Z.eq_mul_1_nonneg in Hc; [|nia].
    destruct Hc as [_ Hc]. lia. }
  features_of_layout.
  do 4 shape_step.
  match goal with
  | |- context [BatchNorm2d.eval _ _ [?N; _; ?h; ?w]] =>
      destruct (bn_fits_dec true N h w) as [Hfit2|[_ One2]]
  end.
  2:{ rewrite BatchNorm2d_eval_one_value;
        [reflexivity|assumption|reflexivity|reflexivity|assumption]. }
  do 2 shape_step.
  match goal with
  | |- context [Block.eval _ _ [?N; _; ?h; ?w]] =>
      destruct (bn_fits_dec true N (Shape.pool_out h 3 2 1)
                            (Shape.pool_out w 3 2 1)) as [Hfit3|[_ One3]]
  end.
  2:{ failing_block. reflexivity. }
  block_step.
  match goal with
  | |- context [Block.eval _ _ [?N; _; ?h; ?w]] =>
      destruct (bn_fits_dec true N (Shape.pool_out h 3 2 1)
                            (Shape.pool_out w 3 2 1)) as [Hfit4|[_ One4]]
  end.
  2:{ failing_block. reflexivity. }
  block_step.
  match goal with
  | |- context [Block.eval _ _ [?N; _; ?h; ?w]] =>
      destruct (bn_fits_dec true N (Shape.pool_out h 3 2 1)
                            (Shape.pool_out w 3 2 1)) as [Hfit5|[_ One5]]
  end.
  2:{ failing_block. reflexivity. }
  do 9 block_step.
  failing_block. reflexivity.
Qed.

(** X8.  In training mode, [forward] needs more than one value per channel
    for its batch normalisations: on a batch whose feature map holds a
    single value per channel (one input, of height and width from 7 to 38)
    it raises the ValueError of [batch_norm], at the first normalisation
    that is given a 1x1 map.  In evaluation mode the same batch goes
    through. *)
Theorem forward_in_training_mode_needs_two_values_per_channel :
  forall nc ic dr gp (s0 s1 s : Store Shape.t) m x N H W,
    Xception.init nc ic dr gp s0 = (Ok m, s1) ->
    extends s1 s ->
    mem s x = [N; ic; H; W] ->
    1 <= N -> 7 <= H -> 7 <= W ->
    N * feature_map_size H * feature_map_size W = 1 ->
    value_of (Xception.forward (Xception.train true m) x s)
    = Raise (FrameworkError Shape.ValueError) /\
    (Qle_bool dr 1 = true ->
     exists out s',
       Xception.forward (Xception.train false m) x s = (Ok out, s') /\
       mem s' out = [N; nc]).
Proof.
  intros nc ic dr gp s0 s1 s m x N H W Hinit Hext Hx HN HH HW Hone.
  assert (Hsh := xception_shaped_extends _ _ _ Hext
                   (Xception_init_shaped _ _ _ _ _ _ _ Hinit)).
  assert (Hl := Xception_init_layout _ _ _ _ _ _ _ Hinit).
  split.
  - rewrite (Xception_forward_value nc ic dr gp s0 s1 s m true x Hinit
               (proj1 Hext)).
    unfold Xception.eval. rewrite Hx.
    rewrite (features_eval_one_value nc ic dr gp _ m _ s N H W Hl Hsh)
      by assumption.
    reflexivity.
  - intros Hdr.
    pose proof (feature_map_size_pos H HH) as Hh.
    pose proof (feature_map_size_pos W HW) as Hw.
    assert (HfW : feature_map_size H = 1 /\ feature_map_size W = 1).
    { apply Z.eq_mul_1_nonneg in Hone; [|nia].
      destruct Hone as [Hone HW1].
      apply Z.eq_mul_1_nonneg in Hone; [|lia]. tauto. }
    destruct HfW as [HfH HfW].
    destruct (Xception_init_wf nc ic dr gp s0 s1 m false Hinit)
      as (Hp & Hb & _).
    assert (Hrun := Xception_forward_run (next s) (mem s) s
                      (Xception.train false m) x (le_n _) (agrees_self s)
                      (below_le _ _ _ (proj1 Hext) Hp) Hb).
    rewrite Hx in Hrun.
    rewrite (Xception_eval_ok nc ic dr gp s0 s1 s m false N H W) in Hrun;
      [|assumption..|intros Hm; discriminate Hm].
    rewrite HfH, HfW in Hrun. cbn in Hrun.
    apply run_Ok in Hrun. exact Hrun.
Qed.

Lemma forward_in_training_mode_witness :
  exists m s1,
    Xception.init (F := Shape_framework) 1000 3 0%Q "avg"%string Shape.empty
    = (Ok m, s1) /\
    value_of (Xception.forward (Xception.train true m) (next s1)
                (mkStore (S (next s1))
                         (upd (mem s1) (next s1) [1; 3; 32; 32])))
    = Raise (FrameworkError Shape.ValueError).
Proof.
  eexists. eexists.
  match goal with
  | |- ?A /\ _ => assert (Hinit : A) by (vm_compute; reflexivity)
  end.
  split; [exact Hinit|].
  match goal with
  | |- value_of (Xception.forward _ ?x ?s) = _ =>
      apply (proj1 (forward_in_training_mode_needs_two_values_per_channel
                      1000 3 0%Q "avg"%string Shape.empty _ s _ x
                      1 32 32 Hinit (extends_alloc _ _)
                      ltac:(vm_compute; reflexivity)
                      ltac:(lia) ltac:(lia) ltac:(lia)
                      ltac:(vm_compute; reflexivity)))
  end.
Defined.

(** * The size of the network *)

Lemma parameter_count_app s l1 l2 :
  parameter_count s (l1 ++ l2) = parameter_count s l1 + parameter_count s l2.
Proof.
  unfold parameter_count. induction l1 as [|l l1 IH]; cbn [app fold_right].
  - reflexivity.
  - rewrite IH. ring.
Qed.

Lemma conv_parameter_count s c :
  conv_shaped s c -> parameter_count s (Conv2d.parameters c) = conv_numel c.
Proof.
  intros (_ & Hb & Hw). unfold Conv2d.parameters, parameter_count, conv_numel.
  rewrite Hb. cbn [fold_right]. rewrite Hw. unfold Shape.numel.
  cbn [fold_right]. ring.
Qed.

Lemma bn_parameter_count s b :
  bn_shaped s b -> parameter_count s (BatchNorm2d.parameters b) = bn_numel b.
Proof.
  intros (_ & _ & Hw & Hb).
  unfold BatchNorm2d.parameters, parameter_count, bn_numel.
  cbn [fold_right]. rewrite Hw, Hb. unfold Shape.numel.
  cbn [fold_right]. ring.
Qed.

Lemma linear_parameter_count s l :
  linear_shaped s l ->
  parameter_count s (Linear.parameters l) = linear_numel l.
Proof.
  intros (_ & _ & Hw & Hb).
  unfold Linear.parameters, parameter_count, linear_numel.
  cbn [fold_right]. rewrite Hw, Hb. unfold Shape.numel.
  cbn [fold_right]. ring.
Qed.

Lemma sep_parameter_count s c :
  sep_shaped s c ->
  parameter_count s (SeparableConv2d.parameters c) = sep_numel c.
Proof.
  intros [H1 H2]. unfold SeparableConv2d.parameters, sep_numel.
  rewrite parameter_count_app.
  now rewrite (conv_parameter_count s _ H1), (conv_parameter_count s _ H2).
Qed.

Lemma seq_parameter_count s rep :
  Forall (item_shaped s) rep ->
  parameter_count s (Sequential.parameters rep) = seq_numel rep.
Proof.
  unfold Sequential.parameters, seq_numel.
  induction 1 as [|i rep Hi _ IH]; cbn [flat_map fold_right].
  - reflexivity.
  - rewrite parameter_count_app, IH. f_equal.
    destruct i; cbn [Sequential.item_parameters item_numel item_shaped] in *.
    + reflexivity.
    + now apply sep_parameter_count.
    + now apply bn_parameter_count.
    + reflexivity.
Qed.

Lemma block_parameter_count s b :
  block_shaped s b -> parameter_count s (Block.parameters b) = block_numel b.
Proof.
  intros [Hsk Hrep]. unfold Block.parameters, Block.skip_parameters, block_numel.
  rewrite parameter_count_app, (seq_parameter_count s _ Hrep). f_equal.
  destruct (Block.skip b) as [[c bn]|]; [|reflexivity].
  destruct Hsk as [Hc Hbn].
  now rewrite parameter_count_app, (conv_parameter_count s _ Hc),
    (bn_parameter_count s _ Hbn).
Qed.

Lemma blocks_parameter_count s bs :
  Forall (block_shaped s) bs ->
  parameter_count s (flat_map Block.parameters bs)
  = fold_right (fun b acc => block_numel b + acc) 0 bs.
Proof.
  induction 1 as [|b bs Hb _ IH]; cbn [flat_map fold_right].
  - reflexivity.
  - now rewrite parameter_count_app, IH, (block_parameter_count s b Hb).
Qed.

Lemma xception_parameter_count s m :
  xception_shaped s m ->
  parameter_count s (Xception.parameters m) = xception_numel m.
Proof.
  intros (H1 & H2 & H3 & H4 & H5 & H6 & H7 & H8 & H9 & H10).
  unfold Xception.parameters, xception_numel.
  rewrite !parameter_count_app.
  rewrite (conv_parameter_count s _ H1), (bn_parameter_count s _ H2),
    (conv_parameter_count s _ H3), (bn_parameter_count s _ H4),
    (blocks_parameter_count s _ H5), (sep_parameter_count s _ H6),
    (bn_parameter_count s _ H7), (sep_parameter_count s _ H8),
    (bn_parameter_count s _ H9), (linear_parameter_count s _ H10).
  ring.
Qed.

Lemma xception_numel_layout nc ic dr gp n m n' :
  Xception_layout nc ic dr gp n = Some (m, n') ->
  xception_numel m = 20806088 + 288 * ic + 2049 * nc.
Proof.
  intros H. vm_compute in H. inversion H; subst m n'; clear H.
  unfold xception_numel, Xception.blocks, block_numel, seq_numel.
  cbn [fold_right Block.skip Block.rep item_numel
       Xception.conv1 Xception.bn1 Xception.conv2 Xception.bn2
       Xception.block1 Xception.block2 Xception.block3 Xception.block4
       Xception.block5 Xception.block6 Xception.block7 Xception.block8
       Xception.block9 Xception.block10 Xception.block11 Xception.block12
       Xception.conv3 Xception.bn3 Xception.conv4 Xception.bn4 Xception.fc].
  unfold sep_numel, conv_numel, bn_numel, linear_numel.
  cbn [SeparableConv2d.conv1 SeparableConv2d.pointwise
       Conv2d.in_channels Conv2d.out_channels Conv2d.kernel_size
       Conv2d.groups BatchNorm2d.num_features
       Linear.in_features Linear.out_features].
  rewrite !Z.div_1_r.
  repeat match goal with
         | |- context [?a / ?b] =>
             let v := eval vm_compute in (a / b) in
             change (a / b) with v
         end.
  ring.
Qed.

(** X9.  The parameter tensors of a constructed [Xception] hold
    [20806088 + 288 * in_chans + 2049 * num_classes] numbers between them:
    [conv1] has [32 * in_chans * 9] weights, [fc] has [2048 * num_classes]
    weights and [num_classes] biases, and the layers in between do not
    depend on the arguments.  For [xception()] this is 22855952. *)
Theorem Xception_has_this_many_parameters :
  forall nc ic dr gp (s0 s1 s : Store Shape.t) m,
    Xception.init nc ic dr gp s0 = (Ok m, s1) ->
    extends s1 s ->
    parameter_count s (Xception.parameters m)
    = 20806088 + 288 * ic + 2049 * nc.
Proof.
  intros nc ic dr gp s0 s1 s m Hinit Hext.
  rewrite (xception_parameter_count s m
             (xception_shaped_extends _ _ _ Hext
                (Xception_init_shaped _ _ _ _ _ _ _ Hinit))).
  exact (xception_numel_layout nc ic dr gp _ m _
           (Xception_init_layout _ _ _ _ _ _ _ Hinit)).
Qed.

Lemma Xception_has_this_many_parameters_witness :
  exists m s1,
    xception (F := Shape_framework) Shape.empty = (Ok m, s1) /\
    parameter_count s1 (Xception.parameters m) = 22855952.
Proof.
  eexists. eexists.
  match goal with
  | |- ?A /\ _ => assert (Hinit : A) by (vm_compute; reflexivity)
  end.
  split; [exact Hinit|].
  match goal with
  | |- parameter_count ?s (Xception.parameters ?m) = _ =>
      exact (Xception_has_this_many_parameters
               1000 3 0%Q "avg"%string Shape.empty s s m
               ltac:(vm_compute; reflexivity) (extends_refl s))
  end.
Defined.

(** * The initialisation of the weights *)

Lemma Forall_of_conjunction {A} (P : A -> Prop) (l : list A) :
  fold_right (fun x acc => P x /\ acc) True l -> Forall P l.
Proof.
  induction l as [|x l IH]; cbn [fold_right]; intros H.
  - constructor.
  - constructor; [exact (proj1 H)|exact (IH (proj2 H))].
Qed.

(** X10.  After [Xception.__init__] every convolution of the network
    (those inside the blocks and the separable convolutions included) has
    had [kaiming_normal_] applied to its weight exactly once, every batch
    normalisation has its weight filled with 1 and its bias zeroed, and
    the weight and the bias of [fc], which the loop passes over, are as
    [nn.Linear] created them. *)
Theorem Xception_init_initialises_every_layer_once :
  forall nc ic dr gp m s1,
    Xception.init (F := Term_framework) nc ic dr gp Term.empty = (Ok m, s1) ->
    Forall (initialised s1) (Xception.modules m) /\
    mem s1 (Linear.weight (Xception.fc m)) = Term.New [nc; 2048] /\
    mem s1 (Linear.bias (Xception.fc m)) = Term.New [nc].
Proof.
  intros nc ic dr gp m s1 H.
  vm_compute in H. inversion H; subst m s1; clear H.
  split; [|split; reflexivity].
  apply Forall_of_conjunction. vm_compute.
  repeat match goal with
         | |- _ /\ _ => split
         end; first [reflexivity | exact I].
Qed.

Lemma Xception_init_initialises_witness :
  exists m s1,
    xception (F := Term_framework) Term.empty = (Ok m, s1) /\
    mem s1 (Conv2d.weight (Xception.conv1 m)) =
    Term.KaimingNormal (Term.New [32; 3; 3; 3]) /\
    mem s1 (Linear.weight (Xception.fc m)) = Term.New [1000; 2048].
Proof.
  eexists. eexists.
  match goal with
  | |- ?A /\ _ => assert (Hinit : A) by (vm_compute; reflexivity)
  end.
  split; [exact Hinit|].
  match goal with
  | |- mem ?s (Conv2d.weight (Xception.conv1 ?m)) = _ /\ _ =>
      destruct (Xception_init_initialises_every_layer_once
                  1000 3 0%Q "avg"%string m s
                  ltac:(vm_compute; reflexivity)) as (Hall & Hw & _)
  end.
  split; [|exact Hw].
  apply Forall_inv_tail in Hall. apply Forall_inv in Hall.
  exact (proj2 Hall).
Defined.

(** * Shapes through a separable convolution and through a block *)

Lemma conv_out_pos h k st p d :
  1 <= st -> d * (k - 1) + 1 <= h + 2 * p -> 1 <= Shape.conv_out h k st p d.
Proof.
  intros Hst Hfit. unfold Shape.conv_out.
  assert (0 <= (h + 2 * p - d * (k - 1) - 1) / st)
    by (apply Z.div_pos; lia).
  lia.
Qed.

Lemma Conv2d_eval_dilated s c N C h w :
  conv_shaped s c ->
  1 <= Conv2d.dilation c -> 1 <= Conv2d.stride c -> 0 <= Conv2d.padding c ->
  1 <= Conv2d.groups c -> 1 <= Conv2d.kernel_size c ->
  C = Conv2d.in_channels c / Conv2d.groups c * Conv2d.groups c ->
  Conv2d.dilation c * (Conv2d.kernel_size c - 1) + 1
  <= h + 2 * Conv2d.padding c ->
  Conv2d.dilation c * (Conv2d.kernel_size c - 1) + 1
  <= w + 2 * Conv2d.padding c ->
  Conv2d.eval (mem s) c [N; C; h; w] =
  Ok [N; Conv2d.out_channels c;
      Shape.conv_out h (Conv2d.kernel_size c) (Conv2d.stride c)
                     (Conv2d.padding c) (Conv2d.dilation c);
      Shape.conv_out w (Conv2d.kernel_size c) (Conv2d.stride c)
                     (Conv2d.padding c) (Conv2d.dilation c)].
Proof.
  intros (_ & Hb & Hw) Hd Hs Hp Hg Hk HC Hkh Hkw.
  unfold Conv2d.eval. rewrite Hw, Hb.
  cbn [option_map conv2d Shape_framework].
  unfold Shape.conv2d. rewrite <- HC.
  decide_tests. reflexivity.
Qed.

Lemma conv_weight_groups i o k g w :
  Shape.conv_weight i o k g = Ok w -> 1 <= g.
Proof.
  unfold Shape.conv_weight. destruct (Z.leb_spec g 0); [discriminate|lia].
Qed.

(** X11.  A [SeparableConv2d(in_channels, out_channels, kernel_size,
    stride, padding, dilation)] with [kernel_size >= 1], [stride >= 1],
    [padding >= 0], [dilation >= 1] and [out_channels >= 1] takes a batch of
    [N >= 1] inputs of shape [(in_channels, h, w)], with [h, w >= 1], that
    its window fits to one of shape [(N, out_channels, h', w')], where [h']
    and [w'] are what the depthwise pass makes of [h] and [w]: the pointwise
    pass changes the number of channels only, the depthwise pass the extents
    only.  (A kernel of size 0 is accepted by the constructor and refused by
    the convolution.) *)
Theorem SeparableConv2d_forward_shape :
  forall i o k st p d (s0 s1 s : Store Shape.t) sep x N h w,
    SeparableConv2d.init i o k st p d s0 = (Ok sep, s1) ->
    extends s1 s ->
    mem s x = [N; i; h; w] ->
    1 <= k -> 1 <= st -> 0 <= p -> 1 <= d -> 1 <= o ->
    1 <= N -> 1 <= h -> 1 <= w ->
    d * (k - 1) + 1 <= h + 2 * p -> d * (k - 1) + 1 <= w + 2 * p ->
    exists out s',
      SeparableConv2d.forward sep x s = (Ok out, s') /\
      mem s' out = [N; o; Shape.conv_out h k st p d;
                    Shape.conv_out w k st p d].
Proof.
  intros i o k st p d s0 s1 s sep x N h w Hinit Hext Hx Hk Hst Hp Hd Ho
         HN Hh1 Hwd1 Hh Hw.
  assert (Hsh := sep_shaped_extends _ _ _ Hext
                   (SeparableConv2d_init_shaped _ _ _ _ _ _ _ _ _ Hinit)).
  destruct (SeparableConv2d_init_spec _ _ _ _ _ _ _ _ _ Hinit) as [_ Hal].
  apply allocated_below in Hal.
  destruct (SeparableConv2d_init_inv _ _ _ _ _ _ _ _ _ Hinit)
    as (w1 & w2 & Hw1 & _ & -> & _).
  apply conv_weight_groups in Hw1.
  destruct Hsh as [H1 H2].
  assert (Hrun := SeparableConv2d_run (next s) (mem s) s _ x (le_n _)
                    (agrees_self s) (below_le _ _ _ (proj1 Hext) Hal)).
  rewrite Hx in Hrun. unfold SeparableConv2d.eval in Hrun.
  cbn [SeparableConv2d.conv1 SeparableConv2d.pointwise] in Hrun, H1, H2.
  rewrite (Conv2d_eval_dilated s _ N i h w H1) in Hrun;
    cbn [Conv2d.in_channels Conv2d.out_channels Conv2d.kernel_size
         Conv2d.stride Conv2d.padding Conv2d.dilation Conv2d.groups];
    try lia.
  2:{ rewrite Z.div_same by lia. lia. }
  cbn [rbind] in Hrun.
  pose proof (conv_out_pos h k st p d Hst Hh).
  pose proof (conv_out_pos w k st p d Hst Hw).
  rewrite (Conv2d_eval_dilated s _ N i _ _ H2) in Hrun;
    cbn [Conv2d.in_channels Conv2d.out_channels Conv2d.kernel_size
         Conv2d.stride Conv2d.padding Conv2d.dilation Conv2d.groups];
    try lia.
  2:{ rewrite Z.div_1_r. lia. }
  cbn [Conv2d.out_channels Conv2d.kernel_size Conv2d.stride Conv2d.padding
       Conv2d.dilation] in Hrun.
  rewrite !conv_out_same_1 in Hrun.
  apply run_Ok in Hrun. exact Hrun.
Qed.

Lemma SeparableConv2d_forward_shape_witness :
  exists sep s1 out s',
    SeparableConv2d.init (F := Shape_framework) 3 8 5 2 2 2 Shape.empty
    = (Ok sep, s1) /\
    SeparableConv2d.forward sep 2%nat
      (mkStore 3%nat (upd (mem s1) 2%nat [4; 3; 32; 20]))
    = (Ok out, s') /\
    mem s' out = [4; 8; 14; 8].
Proof.
  eexists. eexists.
  match goal with
  | |- exists out s', ?A /\ _ => assert (Hinit : A) by (vm_compute; reflexivity)
  end.
  match goal with
  | |- exists out s', _ /\ SeparableConv2d.forward _ ?x ?s = _ /\ _ =>
      destruct (SeparableConv2d_forward_shape
                  3 8 5 2 2 2 Shape.empty _ s _ x 4 32 20 Hinit
                  (extends_alloc _ _) eq_refl
                  ltac:(lia) ltac:(lia) ltac:(lia) ltac:(lia) ltac:(lia)
                  ltac:(lia) ltac:(lia) ltac:(lia) ltac:(lia) ltac:(lia))
        as (out & s' & Hf & Ho)
  end.
  exists out, s'. split; [exact Hinit|]. split; [exact Hf|exact Ho].
Defined.

(** ** A block, for every [reps >= 1] and every stride *)

Lemma Sequential_eval_app {T E : Type} {F : Framework T E}
      (m0 : loc -> T) r1 r2 : forall v,
  Sequential.eval m0 (r1 ++ r2) v =
  (x <~ Sequential.eval m0 r1 v ;; Sequential.eval m0 r2 x).
Proof.
  induction r1 as [|i r1 IH]; intros v; cbn [app Sequential.eval rbind].
  - reflexivity.
  - destruct (Sequential.item_eval m0 i v) as [y|e]; cbn [rbind];
      [apply IH|reflexivity].
Qed.

Lemma pool_out_le h st : 1 <= h -> 1 <= st -> 1 <= Shape.pool_out h 3 st 1 <= h.
Proof.
  intros Hh Hst. unfold Shape.pool_out.
  assert (0 <= (h + 2 * 1 - 3) / st) by (apply Z.div_pos; lia).
  assert ((h + 2 * 1 - 3) / st <= h + 2 * 1 - 3)
    by (apply Z.div_le_upper_bound; nia).
  lia.
Qed.

Lemma MaxPool2d_eval_strided st N C h w :
  1 <= h -> 1 <= w -> 1 <= st ->
  MaxPool2d.eval (F := Shape_framework) (MaxPool2d.mk 3 st 1) [N; C; h; w] =
  Ok [N; C; Shape.pool_out h 3 st 1; Shape.pool_out w 3 st 1].
Proof.
  intros Hh Hw Hst. unfold MaxPool2d.eval.
  cbn [max_pool2d Shape_framework MaxPool2d.kernel_size MaxPool2d.stride
       MaxPool2d.padding].
  unfold Shape.max_pool2d.
  pose proof (pool_out_le h st Hh Hst). pose proof (pool_out_le w st Hw Hst).
  change (3 / 2) with 1.
  decide_tests. reflexivity.
Qed.

Lemma rep_layout_cons i o reps gf j idx n :
  rep_layout i o reps gf (j :: idx) n =
  let inc := if gf then (if j =? 0 then i else o) else i in
  let outc := if gf then o else (if j <? reps - 1 then i else o) in
  (Sequential.OfReLU (ReLU.mk true)
   :: Sequential.OfSeparableConv2d
        (SeparableConv2d.mk (Conv2d.mk inc inc 3 1 1 1 inc n None)
                            (Conv2d.mk inc outc 1 1 0 1 1 (S n) None))
   :: Sequential.OfBatchNorm2d
        (BatchNorm2d.mk outc (S (S n)) (S (S (S n))) true)
   :: fst (rep_layout i o reps gf idx (S (S (S (S n))))),
   snd (rep_layout i o reps gf idx (S (S (S (S n)))))).
Proof.
  cbn [rep_layout].
  destruct (rep_layout i o reps gf idx (S (S (S (S n))))). reflexivity.
Qed.

Section RepShape.
Variables (s : Store Shape.t) (mode : bool) (i o reps : Z) (gf : bool)
          (N h w : Z).
Hypotheses (Hi : 1 <= i) (Ho : 1 <= o) (Hh : 1 <= h) (Hw : 1 <= w)
           (Hfit : bn_fits mode N h w).

(** The channel count the [k]-th repetition is built for. *)
Let inc (k : nat) : Z :=
  if gf then (if Z.of_nat k =? 0 then i else o) else i.

Lemma rep_layout_eval : forall cnt k n,
  Z.of_nat (k + S cnt) = reps ->
  Forall (item_shaped s)
         (fst (rep_layout i o reps gf (map Z.of_nat (seq k (S cnt))) n)) ->
  Sequential.eval (mem s)
    (Sequential.train mode
       (fst (rep_layout i o reps gf (map Z.of_nat (seq k (S cnt))) n)))
    [N; inc k; h; w]
  = Ok [N; o; h; w].
Proof.
  induction cnt as [|cnt IH]; intros k n Hreps Hsh.
  - change (seq k 1) with [k] in *. cbn [map] in *.
    rewrite rep_layout_cons in *. cbv zeta in *.
    cbn [rep_layout fst] in *.
    apply Forall_inv_tail in Hsh.
    pose proof (Forall_inv Hsh) as Hsep. apply Forall_inv_tail in Hsh.
    pose proof (Forall_inv Hsh) as Hbn. clear Hsh.
    cbn [item_shaped] in Hsep, Hbn.
    cbn [Sequential.train map Sequential.item_train Sequential.eval
         Sequential.item_eval].
    change (ReLU.eval (ReLU.mk true) [N; inc k; h; w])
      with (Ok [N; inc k; h; w] : result Shape.error Shape.t).
    cbn [rbind].
    assert (Hinc : 1 <= inc k) by (unfold inc; destruct gf;
                                   [destruct (Z.of_nat k =? 0)|]; lia).
    rewrite (SeparableConv2d_eval_ok s _ N (inc k) h w Hsep);
      try reflexivity; try assumption.
    cbn [rbind SeparableConv2d.pointwise Conv2d.out_channels].
    assert (Hout : (if gf then o
                    else if Z.of_nat k <? reps - 1 then i else o) = o).
    { destruct gf; [reflexivity|].
      destruct (Z.ltb_spec (Z.of_nat k) (reps - 1)); [lia|reflexivity]. }
    rewrite Hout in *.
    erewrite BatchNorm2d_eval_ok;
      [reflexivity|exact Hbn|reflexivity|exact Hfit].
  - change (seq k (S (S cnt))) with (k :: seq (S k) (S cnt)) in *.
    rewrite map_cons in *. rewrite rep_layout_cons in *. cbv zeta in *.
    cbn [fst] in *.
    apply Forall_inv_tail in Hsh.
    pose proof (Forall_inv Hsh) as Hsep. apply Forall_inv_tail in Hsh.
    pose proof (Forall_inv Hsh) as Hbn. apply Forall_inv_tail in Hsh.
    cbn [item_shaped] in Hsep, Hbn.
    change (Sequential.train mode (?a :: ?b :: ?c :: ?r))
      with (Sequential.item_train mode a :: Sequential.item_train mode b
            :: Sequential.item_train mode c :: Sequential.train mode r).
    cbn [Sequential.item_train Sequential.eval Sequential.item_eval].
    change (ReLU.eval (ReLU.mk true) [N; inc k; h; w])
      with (Ok [N; inc k; h; w] : result Shape.error Shape.t).
    cbn [rbind].
    assert (Hinc : 1 <= inc k) by (unfold inc; destruct gf;
                                   [destruct (Z.of_nat k =? 0)|]; lia).
    rewrite (SeparableConv2d_eval_ok s _ N (inc k) h w Hsep);
      try reflexivity; try assumption.
    cbn [rbind SeparableConv2d.pointwise Conv2d.out_channels].
    assert (Hout : (if gf then o
                    else if Z.of_nat k <? reps - 1 then i else o)
                   = inc (S k)).
    { unfold inc. destruct gf.
      - destruct (Z.eqb_spec (Z.of_nat (S k)) 0); [lia|reflexivity].
      - destruct (Z.ltb_spec (Z.of_nat k) (reps - 1)); [reflexivity|lia]. }
    rewrite Hout in *.
    erewrite BatchNorm2d_eval_ok; [|exact Hbn|reflexivity|exact Hfit].
    cbn [rbind]. apply IH; [lia|exact Hsh].
Qed.
End RepShape.

Lemma Sequential_train_parameters mode rep :
  Sequential.parameters (Sequential.train mode rep) = Sequential.parameters rep.
Proof.
  unfold Sequential.parameters, Sequential.train.
  induction rep as [|i rep IH]; cbn [map flat_map]; [reflexivity|].
  rewrite IH. now destruct i.
Qed.

Lemma Block_train_parameters mode blk :
  Block.parameters (Block.train mode blk) = Block.parameters blk.
Proof.
  unfold Block.parameters, Block.skip_parameters, Block.train.
  cbn [Block.skip Block.rep]. rewrite Sequential_train_parameters.
  now destruct (Block.skip blk) as [[c bn]|].
Qed.

Lemma Block_train_starts_out_of_place mode blk :
  starts_out_of_place (Block.rep blk) ->
  starts_out_of_place (Block.rep (Block.train mode blk)).
Proof.
  unfold Block.train. cbn [Block.rep].
  destruct (Block.rep blk) as [|i rep]; cbn; [auto|]. now destruct i.
Qed.

Lemma block_shaped_train s mode blk :
  block_shaped s blk -> block_shaped s (Block.train mode blk).
Proof.
  intros [Hsk Hrep]. unfold block_shaped, Block.train.
  cbn [Block.skip Block.rep]. split.
  - now destruct (Block.skip blk) as [[c bn]|].
  - unfold Sequential.train. apply Forall_forall. intros i Hi.
    apply in_map_iff in Hi. destruct Hi as (j & <- & Hj).
    rewrite Forall_forall in Hrep. specialize (Hrep j Hj).
    now destruct j.
Qed.

(** The value of a block of the source on a batch it was built for. *)
Lemma Block_eval_shape s mode i o reps st swr gf n blk n' N h w :
  Block_layout i o reps st swr gf n = Some (blk, n') ->
  block_shaped s blk ->
  1 <= reps -> 1 <= st -> 1 <= i -> 1 <= o ->
  1 <= N -> 1 <= h -> 1 <= w ->
  bn_fits mode N (Shape.pool_out h 3 st 1) (Shape.pool_out w 3 st 1) ->
  Block.eval (mem s) (Block.train mode blk) [N; i; h; w] =
  Ok [N; o; Shape.pool_out h 3 st 1; Shape.pool_out w 3 st 1].
Proof.
  intros Hl [Hsk Hrep] Hreps Hst Hi Ho HN Hh Hw Hfit.
  assert (Hfit0 : bn_fits mode N h w).
  { apply (bn_fits_before mode N h w _ _ HN (pool_out_le h st Hh Hst)
                          (pool_out_le w st Hw Hst) Hfit). }
  unfold Block_layout in Hl.
  set (n1 := snd (if negb (o =? i) || negb (st =? 1)
                  then (Some (Conv2d.mk i o 1 st 0 1 1 n None,
                              BatchNorm2d.mk o (S n) (S (S n)) true),
                        S (S (S n)))
                  else (None, n))) in *.
  assert (Hrange : range reps
                   = map Z.of_nat (seq 0 (S (Z.to_nat reps - 1)))).
  { unfold range. f_equal. f_equal. lia. }
  destruct (negb (o =? i) || negb (st =? 1)) eqn:Hc;
    cbn [snd] in n1; subst n1;
    rewrite Hrange in Hl;
    change (seq 0 (S (Z.to_nat reps - 1)))
      with (0%nat :: seq 1 (Z.to_nat reps - 1)) in Hl;
    rewrite map_cons, rep_layout_cons in Hl; cbv zeta in Hl;
    cbn [negb tl] in Hl.
  all: pose proof (rep_layout_eval s mode i o reps gf N h w Hi Ho Hh Hw Hfit0
                     (Z.to_nat reps - 1) 0) as Hev.
  all: change (seq 0 (S (Z.to_nat reps - 1)))
         with (0%nat :: seq 1 (Z.to_nat reps - 1)) in Hev.
  all: match type of Hl with
       | context [fst (rep_layout ?a ?b ?c ?d ?idx ?k)] =>
           specialize (Hev (match k with
                            | S (S (S (S k0))) => k0
                            | _ => k
                            end) ltac:(lia));
           cbn [map] in Hev; rewrite rep_layout_cons in Hev;
           cbv zeta in Hev; cbn [fst] in Hev;
           set (rest := fst (rep_layout a b c d idx k)) in *
       end.
  all: change (Z.of_nat 0) with 0 in Hev, Hl.
  all: assert (Hi0 : (if gf then if 0 =? 0 then i else o else i) = i)
         by (now destruct gf);
       rewrite !Hi0 in Hev, Hl; clear Hi0.
  all: destruct swr; cbn [negb] in Hl;
       inversion Hl; subst blk n'; clear Hl;
       cbn [Block.rep Block.skip] in Hsk, Hrep.
  all: unfold Block.eval, Block.skip_eval;
       cbn [Block.train Block.rep Block.skip].
  all: destruct (Z.eqb_spec st 1) as [->|Hst1]; cbn [negb] in *.
  all: rewrite ?pool_out_same in *.
  all: unfold Sequential.train in Hev |- *.
  all: try match goal with
           | |- context [?a :: ?b :: ?c :: (?r ++ ?t)] =>
               change (a :: b :: c :: (r ++ t))
                 with ((a :: b :: c :: r) ++ t) in Hrep |- *
           | |- context [?a :: ?b :: (?r ++ ?t)] =>
               change (a :: b :: (r ++ t))
                 with ((a :: b :: r) ++ t) in Hrep |- *
           end.
  all: try (rewrite map_app;
            rewrite Sequential_eval_app;
            apply Forall_app in Hrep; destruct Hrep as [Hrep _]).
  all: try (apply Forall_inv_tail in Hrep;
            pose proof (Forall_cons (P := item_shaped s)
                          (Sequential.OfReLU (ReLU.mk true)) I Hrep) as Hrep0;
            specialize (Hev Hrep0); clear Hrep0).
  all: try (pose proof (Forall_cons (P := item_shaped s)
                          (Sequential.OfReLU (ReLU.mk true)) I Hrep) as Hrep0;
            specialize (Hev Hrep0); clear Hrep0).
  all: cbn [map Sequential.item_train Sequential.eval
            Sequential.item_eval] in Hev |- *;
       change (ReLU.eval _ [N; i; h; w])
         with (Ok [N; i; h; w] : result Shape.error Shape.t) in Hev |- *;
       cbn [rbind] in Hev |- *.
  all: match goal with
       | |- rbind (rbind ?A _) _ = _ =>
           replace A with (Ok [N; o; h; w] : result Shape.error Shape.t)
             by (symmetry; exact Hev)
       | |- rbind ?A _ = _ =>
           replace A with (Ok [N; o; h; w] : result Shape.error Shape.t)
             by (symmetry; exact Hev)
       end;
       cbn [rbind Sequential.eval Sequential.item_eval].
  all: rewrite ?MaxPool2d_eval_strided by lia; cbn [rbind].
  all: try (match type of Hsk with
            | _ /\ _ => destruct Hsk as [Hsc Hsb]
            end;
            rewrite (Conv2d_eval_ok s _ N i h w Hsc);
            [ cbn [rbind Conv2d.out_channels Conv2d.kernel_size
                   Conv2d.stride Conv2d.padding];
              rewrite !conv_out_skip, ?pool_out_same;
              erewrite BatchNorm2d_eval_ok;
              [ cbn [rbind]; apply add_ok
              | exact Hsb | reflexivity | exact Hfit ]
            | reflexivity | cbn; lia | cbn; lia | cbn; lia | cbn; lia
            | cbn [Conv2d.in_channels Conv2d.groups];
              rewrite Z.div_1_r; lia
            | cbn; lia | cbn; lia ]).
  all: try (cbn [rbind];
            apply orb_false_iff in Hc; destruct Hc as [Hc _];
            apply negb_false_iff in Hc; apply Z.eqb_eq in Hc; subst o;
            apply add_ok).
  all: rewrite orb_true_r in Hc; discriminate Hc.
Qed.

Lemma pool_out_strided h st : Shape.pool_out h 3 st 1 = (h - 1) / st + 1.
Proof. unfold Shape.pool_out. do 2 f_equal. lia. Qed.

(** X12.  A [Block] built with [reps >= 1] and a stride [strides >= 1]
    takes a batch of shape [(N, in_channels, h, w)] to one of shape
    [(N, out_channels, h', w')] with [h' = (h - 1) / strides + 1] and
    [w' = (w - 1) / strides + 1], whatever [reps], [start_with_relu] and
    [grow_first] are: the layers of [rep] are built for the channel counts
    they are given, and the pooling that ends [rep] and the strided 1x1
    convolution of the skip branch leave the same extents, so that the
    addition [x += skip] is between tensors of one shape.  (In training
    mode the batch normalisations want more than one value per
    channel.) *)
Theorem Block_forward_shape :
  forall i o reps st swr gf (s0 s1 s : Store Shape.t) blk mode inp N h w,
    Block.init i o reps st swr gf s0 = (Ok blk, s1) ->
    extends s1 s ->
    (inp < next s)%nat ->
    mem s inp = [N; i; h; w] ->
    1 <= reps -> 1 <= st -> 1 <= i -> 1 <= o ->
    1 <= N -> 1 <= h -> 1 <= w ->
    bn_fits mode N ((h - 1) / st + 1) ((w - 1) / st + 1) ->
    exists out s',
      Block.forward (Block.train mode blk) inp s = (Ok out, s') /\
      mem s' out = [N; o; (h - 1) / st + 1; (w - 1) / st + 1].
Proof.
  intros i o reps st swr gf s0 s1 s blk mode inp N h w Hinit Hext Hinp Hx
         Hreps Hst Hi Ho HN Hh Hw Hfit.
  assert (Hsh := block_shaped_extends _ _ _ Hext
                   (Block_init_shaped _ _ _ _ _ _ _ _ _ Hinit)).
  assert (Hl := Block_init_layout _ _ _ _ _ _ _ _ _ Hinit).
  destruct (Block_init_spec _ _ _ _ _ _ _ _ _ Hinit)
    as (_ & Hal & Hstart & _).
  apply allocated_below in Hal.
  assert (Hrun := Block_run (next s) (mem s) s (Block.train mode blk) inp
                    (Block_train_starts_out_of_place mode blk
                       (Hstart (or_introl Hreps)))
                    (le_n _) (agrees_self s)).
  rewrite Block_train_parameters in Hrun.
  specialize (Hrun (below_le _ _ _ (proj1 Hext) Hal) Hinp).
  rewrite Hx in Hrun. rewrite <- !pool_out_strided in *.
  rewrite (Block_eval_shape s mode i o reps st swr gf _ blk _ N h w Hl Hsh)
    in Hrun by assumption.
  apply run_Ok in Hrun. exact Hrun.
Qed.

Lemma Block_forward_shape_witness :
  exists blk s1 out s',
    Block.init (F := Shape_framework) 16 24 5 3 true false Shape.empty
    = (Ok blk, s1) /\
    Block.forward (Block.train true blk) (next s1)
      (mkStore (S (next s1)) (upd (mem s1) (next s1) [2; 16; 20; 31]))
    = (Ok out, s') /\
    mem s' out = [2; 24; 7; 11].
Proof.
  eexists. eexists.
  match goal with
  | |- exists out s', ?A /\ _ => assert (Hinit : A) by (vm_compute; reflexivity)
  end.
  match goal with
  | |- exists out s', _ /\ Block.forward _ ?x ?s = _ /\ _ =>
      destruct (Block_forward_shape
                  16 24 5 3 true false Shape.empty _ s _ true x 2 20 31
                  Hinit (extends_alloc _ _)
                  ltac:(vm_compute; lia) ltac:(vm_compute; reflexivity)
                  ltac:(lia) ltac:(lia) ltac:(lia) ltac:(lia) ltac:(lia)
                  ltac:(lia) ltac:(lia)
                  ltac:(intros _; vm_compute; discriminate))
        as (out & s' & Hf & Ho)
  end.
  exists out, s'. split; [exact Hinit|]. split; [exact Hf|exact Ho].
Defined.

(** * The feature map of [forward_features] *)

Lemma conv_out_stem1 H : Shape.conv_out H 3 2 0 1 = (H - 3) / 2 + 1.
Proof. unfold Shape.conv_out. f_equal. f_equal. ring. Qed.

Lemma conv_out_stem2 h : Shape.conv_out h 3 1 0 1 = h - 2.
Proof. unfold Shape.conv_out. rewrite Z.div_1_r. ring. Qed.

Lemma pool_out_succ x : Shape.pool_out (x + 1) 3 2 1 = x / 2 + 1.
Proof. unfold Shape.pool_out. f_equal. f_equal. ring. Qed.

(** The two unpadded convolutions take 7 rows away, and the stride of
    [conv1] and the four poolings divide by 32. *)
Lemma feature_map_size_closed H : feature_map_size H = (H - 7) / 32 + 1.
Proof.
  rewrite feature_map_size_eq, conv_out_stem1, conv_out_stem2.
  replace ((H - 3) / 2 + 1 - 2) with ((H - 7) / 2 + 1).
  - rewrite !pool_out_succ, !Z.div_div by lia. reflexivity.
  - replace (H - 3) with ((H - 7) + 2 * 2) by ring.
    rewrite Z.div_add by lia. ring.
Qed.

(** X15.  On a built network, [forward_features] turns a batch of [N >= 1]
    inputs with [in_chans] channels, of height [H >= 7] and width [W >= 7],
    into a feature map with 2048 channels whose height is
    [(H - 7) div 32 + 1] and whose width is [(W - 7) div 32 + 1]: the
    reduction by 32 that [feature_info] records for [act4].  In training
    mode the batch must have two inputs at least, or inputs of height 39
    or more. *)
Theorem forward_features_divides_the_extent_by_32 :
  forall nc ic dr gp (s0 s1 s : Store Shape.t) m mode x N H W,
    Xception.init nc ic dr gp s0 = (Ok m, s1) ->
    extends s1 s ->
    mem s x = [N; ic; H; W] ->
    1 <= N -> 7 <= H -> 7 <= W ->
    mode = false \/ 2 <= N \/ 39 <= H ->
    exists out s',
      Xception.forward_features (Xception.train mode m) x s = (Ok out, s') /\
      mem s' out = [N; 2048; (H - 7) / 32 + 1; (W - 7) / 32 + 1].
Proof.
  intros nc ic dr gp s0 s1 s m mode x N H W Hinit Hext Hx HN HH HW Hc.
  assert (Hsh := xception_shaped_extends _ _ _ Hext
                   (Xception_init_shaped _ _ _ _ _ _ _ Hinit)).
  destruct (Xception_init_wf nc ic dr gp s0 s1 m mode Hinit) as (Hp & Hb & _).
  assert (Hl := Xception_init_layout _ _ _ _ _ _ _ Hinit).
  assert (Hfit := bn_fits_when mode N H W HN HH HW Hc).
  assert (Hfe := features_eval_ok nc ic dr gp (next s0) m (next s1) s mode
                   N H W Hl Hsh HN HH HW Hfit).
  assert (Hrun := Xception_features_run (next s) (mem s) s
                    (Xception.train mode m) x (le_n _)
                    (agrees_self s)
                    (below_le _ _ _ (proj1 Hext) Hp) Hb).
  rewrite Hx, Hfe, !feature_map_size_closed in Hrun.
  apply run_Ok in Hrun. exact Hrun.
Qed.

Lemma forward_features_divides_the_extent_by_32_witness :
  exists m s1 out s',
    Xception.init (F := Shape_framework) 1000 3 0%Q "avg"%string Shape.empty
    = (Ok m, s1) /\
    Xception.forward_features (Xception.train true m) (next s1)
      (mkStore (S (next s1)) (upd (mem s1) (next s1) [1; 3; 299; 200]))
    = (Ok out, s') /\
    mem s' out = [1; 2048; 10; 7].
Proof.
  eexists. eexists.
  match goal with
  | |- exists out s', ?A /\ _ =>
      assert (Hinit : A) by (vm_compute; reflexivity)
  end.
  match goal with
  | |- exists out s', _ /\ Xception.forward_features _ ?x ?s = _ /\ _ =>
      destruct (forward_features_divides_the_extent_by_32
                  1000 3 0%Q "avg"%string Shape.empty _ s _ true x 1 299 200
                  Hinit (extends_alloc _ _)
                  ltac:(vm_compute; reflexivity)
                  ltac:(lia) ltac:(lia) ltac:(lia)
                  ltac:(right; right; lia))
        as (out & s' & Hfwd & Hout)
  end.
  exists out, s'. split; [exact Hinit|]. split; [exact Hfwd|exact Hout].
Defined.

(** * What a forward call leaves as it was *)

Section Frames.
Context {T E : Type} {F : Framework T E}.







(** What a run of a block built by the constructor leaves as it was: every
    cell of the store when [reps >= 1], every cell but the input
    otherwise. *)
Lemma Block_forward_frame i o reps st swr gf (s0 s1 s : Store T) blk mode inp :
  Block.init i o reps st swr gf s0 = (Ok blk, s1) ->
  (next s1 <= next s)%nat -> (inp < next s)%nat ->
  forall l, (l < next s)%nat -> 1 <= reps \/ st <> 1 \/ l <> inp ->
    mem (snd (Block.forward (Block.train mode blk) inp s)) l = mem s l.
Proof.
  intros Hinit Hs Hx l Hl Hc. apply Block_init_spec in Hinit.
  destruct Hinit as (_ & Hp & Hstart & Hempty & _ & _).
  apply allocated_below in Hp.
  assert (Hp' : below (next s) (Block.parameters (Block.train mode blk))).
  { rewrite Block_train_parameters. exact (below_le _ _ _ Hs Hp). }
  assert (Hfresh : starts_out_of_place (Block.rep blk) ->
                   mem (snd (Block.forward (Block.train mode blk) inp s)) l
                   = mem s l).
  { intros Hst.
    apply (run_frame (next s) (mem s) s _
             (Block.eval (mem s) (Block.train mode blk) (mem s inp)));
      [|exact Hl].
    apply Block_run_out_of_place; auto.
    now apply Block_train_starts_out_of_place. }
  destruct (Z_le_gt_dec reps 0) as [Hle|Hgt];
    [destruct (Z.eq_dec st 1) as [Heq|Hne]|].
  - destruct Hc as [Hc|[Hc|Hc]]; [lia|contradiction|].
    apply Block_forward_empty_rep; auto.
    + unfold Block.train. cbn [Block.rep]. now rewrite (Hempty Hle Heq).
    + unfold Block.parameters in Hp'. apply below_app in Hp'. apply Hp'.
  - apply Hfresh, Hstart. now right.
  - apply Hfresh, Hstart. lia.
Qed.


End Frames.

(** C9, amended.  For a [Block] built with [reps >= 1], in training or in
    evaluation mode, [forward] leaves its input unchanged: [rep] starts with
    a ReLU that is not in place when [start_with_relu] is true and with the
    separable convolution when it is false, and the tensor that [x += skip]
    overwrites and returns is one allocated during the call, never the
    input. *)
Theorem Block_forward_leaves_input_unchanged
        {T E : Type} {F : Framework T E}
        (in_channels out_channels reps strides : Z)
        (start_with_relu grow_first : bool)
        (s0 s1 s : Store T) (blk : Block.t) (mode : bool) (inp : loc) :
  1 <= reps ->
  Block.init in_channels out_channels reps strides start_with_relu grow_first
             s0 = (Ok blk, s1) ->
  (next s1 <= next s)%nat -> (inp < next s)%nat ->
  (exists sep bn rest,
      Block.rep blk =
      (if start_with_relu then [Sequential.OfReLU (ReLU.mk false)] else []) ++
      Sequential.OfSeparableConv2d sep :: Sequential.OfBatchNorm2d bn :: rest) /\
  mem (snd (Block.forward (Block.train mode blk) inp s)) inp = mem s inp /\
  (forall out, fst (Block.forward (Block.train mode blk) inp s) = Ok out ->
               (next s <= out)%nat /\ out <> inp).
Proof.
  intros Hreps Hinit Hs Hx.
  assert (Hin := Block_forward_frame _ _ _ _ _ _ _ _ _ _ mode _ Hinit Hs Hx
                   inp Hx (or_introl Hreps)).
  apply Block_init_spec in Hinit.
  destruct Hinit as (_ & Hp & Hstart & _ & _ & Hhead).
  apply allocated_below in Hp.
  assert (Hrun : run_spec (next s) (mem s) s
                          (Block.forward (Block.train mode blk) inp)
                          (Block.eval (mem s) (Block.train mode blk)
                                      (mem s inp))).
  { apply Block_run_out_of_place; auto.
    - apply Block_train_starts_out_of_place. apply Hstart. now left.
    - rewrite Block_train_parameters. eapply below_le; [|exact Hp]. exact Hs. }
  split; [auto|]. split; [exact Hin|].
  intros out Hout. assert (Ho := run_result _ _ _ _ _ _ Hrun Hout). lia.
Qed.

Lemma Block_forward_leaves_input_unchanged_witness :
  mem (snd (Block.forward
              (Block.train false
                 (Block.mk None
                    [Sequential.OfReLU (ReLU.mk false);
                     Sequential.OfSeparableConv2d
                       (SeparableConv2d.mk
                          (Conv2d.mk 8 8 3 1 1 1 8 0%nat None)
                          (Conv2d.mk 8 8 1 1 0 1 1 1%nat None));
                     Sequential.OfBatchNorm2d
                       (BatchNorm2d.mk 8 2%nat 3%nat true)]))
              4%nat
              (mkStore 5%nat
                 (upd (upd (upd (upd (upd (mem Scalar.empty) 0%nat 1) 1%nat 1)
                                2%nat 1) 3%nat 0) 4%nat 5)))) 4%nat
  = 5.
Proof.
  pose proof
    (Block_forward_leaves_input_unchanged
       (F := Scalar_framework) 8 8 1 1 true true Scalar.empty
       (mkStore 4%nat
          (upd (upd (upd (upd (mem Scalar.empty) 0%nat 1) 1%nat 1)
                    2%nat 1) 3%nat 0))
       (mkStore 5%nat
          (upd (upd (upd (upd (upd (mem Scalar.empty) 0%nat 1) 1%nat 1)
                         2%nat 1) 3%nat 0) 4%nat 5))
       _ false 4%nat ltac:(lia) eq_refl ltac:(simpl; lia) ltac:(simpl; lia))
    as H.
  destruct H as (_ & H & _). exact H.
Defined.


